(** * LedgerZero: the balance and projection engine of [src/app.js]

    A shallow embedding of the calculation core of the application
    (amount normalisation, [computeBalances], [computeMonthlyPnl],
    [computeTradeStats], [goalProgress], the alert pass of [renderAlerts],
    [exportAll] and [importAll]) together with the properties its
    specification states about them.

    Modelling conventions.
    - A JavaScript number is a value of [num]: an exact rational, one of the
      two infinities, or NaN.  Arithmetic on finite values is exact: rounding
      to the nearest double is not modelled, and neither is the sign of zero.
      The special values follow IEEE 754 (Infinity - Infinity is NaN, a
      comparison with NaN is false, and so on).  The one effect of the range
      of doubles that is kept is the overflow of a decimal literal to
      Infinity in [Number], since [parseAmount] tests for it.
    - A property that may be absent from a record ([undefined] or [null]) is
      an [option]; [x || 0] and [x ?? d] are [or0] and [nullish].
    - Strings are [string]s of bytes; comparison with [<] is the
      lexicographic comparison of the bytes, which is the comparison of
      UTF-16 code units on ASCII text.
    - An object store of IndexedDB is a [gmap] from the key of a record to
      the record; [getAll] lists the records by ascending key.
    - What the host provides and the repository does not define (the parsing
      of a date string by [new Date(s)], the collation of
      [String.prototype.localeCompare]) is the interface [Host].
    - The clock is an argument: the instant of [new Date()] in milliseconds
      and the local year and month it falls in.  Time values are integers;
      the bound of 8.64e15 milliseconds on the time value of a [Date] is not
      modelled.

    The engine is [balances], [monthlyPnl], [tradeStats], [goalProgress] and
    [alerts_of] on the arrays read from the stores; [computeBalances],
    [computeMonthlyPnl], [computeTradeStats] and [renderAlerts] read the
    stores and call them. *)

From Stdlib Require Import QArith Qcanon Qround ZArith String Ascii Lia Lqa.
From stdpp Require Import base numbers list strings gmap sorting pretty.

Local Open Scope Z_scope.
Local Open Scope string_scope.

(** ** JavaScript numbers *)

Inductive num : Type :=
  | Fin (q : Qc)
  | PInf
  | NInf
  | NaN.

Definition numZ (z : Z) : num := Fin (Qc_of_Z z).
Definition numQ (n : Z) (d : positive) : num := Fin (Q2Qc (n # d)).

Definition num_eq_dec : ∀ a b : num, {a = b} + {a ≠ b}.
Proof. intros a b; destruct a, b; try (by left); try (by right).
  destruct (Qc_eq_dec q q0) as [e|n]; [left; exact (f_equal Fin e) | right; congruence]. Defined.
#[export] Instance num_eq_decision : EqDecision num := num_eq_dec.

(** Sign of a finite value, used by the rules for infinities. *)
Definition qc_pos (q : Qc) : bool := bool_decide (0 < q)%Qc.
Definition qc_neg (q : Qc) : bool := bool_decide (q < 0)%Qc.

Definition num_neg (a : num) : num :=
  match a with
  | Fin q => Fin (- q)%Qc
  | PInf => NInf
  | NInf => PInf
  | NaN => NaN
  end.

Definition num_add (a b : num) : num :=
  match a, b with
  | NaN, _ | _, NaN => NaN
  | Fin x, Fin y => Fin (x + y)%Qc
  | PInf, NInf | NInf, PInf => NaN
  | PInf, _ | _, PInf => PInf
  | NInf, _ | _, NInf => NInf
  end.

Definition num_sub (a b : num) : num := num_add a (num_neg b).

(** The sign of an infinity scaled by a finite value; zero times infinity
    is NaN. *)
Definition inf_scaled (positive_inf : bool) (q : Qc) : num :=
  if qc_pos q then (if positive_inf then PInf else NInf)
  else if qc_neg q then (if positive_inf then NInf else PInf)
  else NaN.

Definition num_mul (a b : num) : num :=
  match a, b with
  | NaN, _ | _, NaN => NaN
  | Fin x, Fin y => Fin (x * y)%Qc
  | PInf, Fin q | Fin q, PInf => inf_scaled true q
  | NInf, Fin q | Fin q, NInf => inf_scaled false q
  | PInf, PInf | NInf, NInf => PInf
  | PInf, NInf | NInf, PInf => NInf
  end.

Definition num_div (a b : num) : num :=
  match a, b with
  | NaN, _ | _, NaN => NaN
  | Fin x, Fin y =>
      if bool_decide (y = 0%Qc)
      then (if qc_pos x then PInf else if qc_neg x then NInf else NaN)
      else Fin (x / y)%Qc
  | Fin _, (PInf | NInf) => Fin 0%Qc
  | PInf, Fin q => if qc_neg q then NInf else PInf
  | NInf, Fin q => if qc_neg q then PInf else NInf
  | (PInf | NInf), (PInf | NInf) => NaN
  end.

Definition num_abs (a : num) : num :=
  match a with
  | Fin q => if qc_neg q then Fin (- q)%Qc else Fin q
  | PInf | NInf => PInf
  | NaN => NaN
  end.

(** [a < b] and [a <= b] of JavaScript: false as soon as one side is NaN. *)
Definition num_lt (a b : num) : bool :=
  match a, b with
  | NaN, _ | _, NaN => false
  | Fin x, Fin y => bool_decide (x < y)%Qc
  | NInf, NInf | PInf, _ | _, NInf => false
  | NInf, _ | _, PInf => true
  end.

Definition num_le (a b : num) : bool :=
  match a, b with
  | NaN, _ | _, NaN => false
  | Fin x, Fin y => bool_decide (x <= y)%Qc
  | NInf, _ | _, PInf => true
  | PInf, _ | _, NInf => false
  end.

Definition num_gt (a b : num) : bool := num_lt b a.
Definition num_ge (a b : num) : bool := num_le b a.

(** [Math.min] and [Math.max] on two arguments. *)
Definition Math_min (a b : num) : num :=
  match a, b with
  | NaN, _ | _, NaN => NaN
  | _, _ => if num_le a b then a else b
  end.

Definition Math_max (a b : num) : num :=
  match a, b with
  | NaN, _ | _, NaN => NaN
  | _, _ => if num_le b a then a else b
  end.

(** [function clamp(n, a, b){ return Math.max(a, Math.min(b, n)); }] *)
Definition clamp (n a b : num) : num := Math_max a (Math_min b n).

Definition Number_isFinite (a : num) : bool :=
  match a with Fin _ => true | _ => false end.

(** [ToBoolean] on a number: 0 and NaN are falsy. *)
Definition num_truthy (a : num) : bool :=
  match a with
  | Fin q => negb (bool_decide (q = 0%Qc))
  | PInf | NInf => true
  | NaN => false
  end.

(** [x || 0] on a numeric property. *)
Definition or0 (x : option num) : num :=
  match x with
  | Some n => if num_truthy n then n else Fin 0%Qc
  | None => Fin 0%Qc
  end.

(** [x ?? d]. *)
Definition nullish {A} (x : option A) (d : A) : A :=
  match x with Some a => a | None => d end.

(** [s || ""] and the truth value of a string property. *)
Definition str_or_empty (x : option string) : string := nullish x "".
Definition str_truthy (x : option string) : bool :=
  match x with Some s => negb (String.eqb s "") | None => false end.

(** ** Strings: what [parseAmount] uses *)

Definition is_digit (c : ascii) : bool :=
  (Ascii.leb "0" c && Ascii.leb c "9")%char.

(** The class [[\d.,\-+]] of the regular expression of [parseAmount]. *)
Definition amount_char (c : ascii) : bool :=
  is_digit c || Ascii.eqb c "." || Ascii.eqb c "," || Ascii.eqb c "-"
  || Ascii.eqb c "+".

Definition is_sep (c : ascii) : bool := Ascii.eqb c "." || Ascii.eqb c ",".

(** ASCII white space; the other white space of [String.prototype.trim] is
    not ASCII and so lies outside every character class used below. *)
Definition is_space (c : ascii) : bool :=
  let n := nat_of_ascii c in
  (Nat.eqb n 32 || (Nat.leb 9 n && Nat.leb n 13))%nat.

Fixpoint str_filter (p : ascii → bool) (s : string) : string :=
  match s with
  | EmptyString => EmptyString
  | String c s' => if p c then String c (str_filter p s') else str_filter p s'
  end.

Fixpoint str_forallb (p : ascii → bool) (s : string) : bool :=
  match s with
  | EmptyString => true
  | String c s' => p c && str_forallb p s'
  end.

Fixpoint trim_start (s : string) : string :=
  match s with
  | String c s' => if is_space c then trim_start s' else s
  | EmptyString => EmptyString
  end.

Fixpoint trim_end (s : string) : string :=
  match s with
  | EmptyString => EmptyString
  | String c s' =>
      match trim_end s' with
      | EmptyString => if is_space c then EmptyString else String c EmptyString
      | r => String c r
      end
  end.

Definition js_trim (s : string) : string := trim_end (trim_start s).

(** [t.lastIndexOf(c)]: the index of the last occurrence of [c], or -1. *)
Fixpoint lastIndexOf_from (c : ascii) (s : string) (i acc : Z) : Z :=
  match s with
  | EmptyString => acc
  | String x s' =>
      lastIndexOf_from c s' (i + 1) (if Ascii.eqb x c then i else acc)
  end.
Definition lastIndexOf (c : ascii) (s : string) : Z :=
  lastIndexOf_from c s 0 (-1).

(** [t.split(c)] for a one-character separator. *)
Fixpoint split (sep : ascii) (s : string) : list string :=
  match s with
  | EmptyString => [EmptyString]
  | String c s' =>
      if Ascii.eqb c sep then EmptyString :: split sep s'
      else match split sep s' with
           | p :: ps => String c p :: ps
           | [] => [String c EmptyString]
           end
  end.

(** [parts.pop()]: the last element (if any) and the array that is left. *)
Definition pop (parts : list string) : option string * list string :=
  (last parts, removelast parts).

(** [parts.join("")]. *)
Definition join_empty (parts : list string) : string :=
  fold_right String.append EmptyString parts.

(** ** [Number(t)] on a decimal literal

    [StringToNumber] restricted to what [parseAmount] can hand to it, a
    string over the digits, ['.'], ['+'] and ['-'] (see
    [parseAmount_Number_argument]): white space is trimmed, the empty string
    is 0, an optional sign is followed by [digits], [digits.], [digits.digits]
    or [.digits]; everything else is NaN.  Exponents, [Infinity] and the
    radix prefixes need letters and are not modelled. *)

(** The characters of a decimal literal without exponent. *)
Definition literal_char (c : ascii) : bool :=
  is_digit c || Ascii.eqb c "." || Ascii.eqb c "-" || Ascii.eqb c "+".

Definition digit_value (c : ascii) : Z := Z.of_nat (nat_of_ascii c) - 48.

Fixpoint digits_value_from (acc : Z) (s : string) : Z :=
  match s with
  | EmptyString => acc
  | String c s' => digits_value_from (10 * acc + digit_value c) s'
  end.
Definition digits_value (s : string) : Z := digits_value_from 0 s.

(** The longest prefix of digits and the rest. *)
Fixpoint span_digits (s : string) : string * string :=
  match s with
  | String c s' =>
      if is_digit c then let '(d, r) := span_digits s' in (String c d, r)
      else (EmptyString, s)
  | EmptyString => (EmptyString, EmptyString)
  end.

(** The value of [ip.fp]; an empty [fp] contributes 0. *)
Definition decimal_value (ip fp : string) : Qc :=
  (Qc_of_Z (digits_value ip)
   + Q2Qc (digits_value fp # Pos.pow 10 (Pos.of_nat (String.length fp))))%Qc.

Definition parse_unsigned_decimal (s : string) : option Qc :=
  let '(ip, r) := span_digits s in
  match r with
  | EmptyString =>
      if String.eqb ip "" then None else Some (Qc_of_Z (digits_value ip))
  | String c fp =>
      if Ascii.eqb c "." && str_forallb is_digit fp
         && negb (String.eqb ip "" && String.eqb fp "")
      then Some (decimal_value ip fp)
      else None
  end.

(** A decimal literal of magnitude 2^1024 - 2^970 or more rounds to an
    infinity. *)
Definition double_overflow : Qc := Qc_of_Z (2 ^ 1024 - 2 ^ 970).

Definition num_of_literal (negative : bool) (q : Qc) : num :=
  if bool_decide (double_overflow <= q)%Qc
  then (if negative then NInf else PInf)
  else Fin (if negative then - q else q)%Qc.

Definition Number (t : string) : num :=
  match js_trim t with
  | EmptyString => Fin 0%Qc
  | String c r as u =>
      let '(negative, body) :=
        if Ascii.eqb c "-" then (true, r)
        else if Ascii.eqb c "+" then (false, r)
        else (false, u) in
      match parse_unsigned_decimal body with
      | Some q => num_of_literal negative q
      | None => NaN
      end
  end.

(** ** [parseAmount] *)

(** What a caller passes: a number, a string, or nothing ([undefined],
    [null]). *)
Inductive amount_input : Type :=
  | InNumber (n : num)
  | InString (s : string)
  | InMissing.

Definition parseAmount_string (s : string) : num :=
  if String.eqb s "" then Fin 0%Qc            (* if (!s) return 0; *)
  else
    let raw := js_trim s in
    let t := str_filter amount_char raw in
    let lastDot := lastIndexOf "." t in
    let lastComma := lastIndexOf "," t in
    let decSep : option ascii :=
      if bool_decide (lastDot > lastComma) then Some "."%char
      else if bool_decide (lastComma > lastDot) then Some ","%char
      else None in
    let t :=
      match decSep with
      | Some sep =>
          let '(frac, parts) := pop (split sep t) in
          let intPart := str_filter (λ c, negb (is_sep c)) (join_empty parts) in
          intPart ++ "." ++ nullish frac "undefined"
      | None => str_filter (λ c, negb (is_sep c)) t
      end in
    let n := Number t in
    if Number_isFinite n then n else Fin 0%Qc.

Definition parseAmount (s : amount_input) : num :=
  match s with
  | InNumber n => n                 (* if (typeof s === "number") return s; *)
  | InMissing => Fin 0%Qc           (* if (!s) return 0; *)
  | InString s => parseAmount_string s
  end.

(** ** The host and the clock *)

(** [Date_parse s] is the time value of [new Date(s)] in milliseconds since
    the epoch, [None] for an Invalid Date; [localeCompare a b] is
    [a.localeCompare(b)]. *)
Class Host : Type := {
  Date_parse : string → option Z;
  localeCompare : string → string → Z;
}.

(** A comparator on which [Array.prototype.sort] is well defined. *)
Class ConsistentCollation (H : Host) : Prop := {
  collation_sgn : ∀ a b, Z.sgn (localeCompare a b) = - Z.sgn (localeCompare b a);
  collation_trans : ∀ a b c,
    localeCompare a b <= 0 → localeCompare b c <= 0 → localeCompare a c <= 0;
}.

(** The order of the calendar on dates given by year, month and day. *)
Definition calendar_le (a b : Z * Z * Z) : Prop :=
  let '(y, m, d) := a in
  let '(y', m', d') := b in
  y < y' ∨ (y = y' ∧ (m < m' ∨ (m = m' ∧ d <= d'))).

(** [new Date()]: the instant, and [getFullYear()] and [getMonth()] (0 to
    11) in local time. *)
Record Clock : Type := {
  now : Z;
  year : Z;
  month : nat;
}.

Definition ms_per_day : Z := 86400000.

(** [String(n).padStart(2, "0")] *)
Definition pad2 (s : string) : string :=
  match String.length s with
  | O => "00"
  | S O => "0" ++ s
  | _ => s
  end.

Definition is_leap (y : Z) : bool :=
  (Z.eqb (y mod 4) 0 && negb (Z.eqb (y mod 100) 0)) || Z.eqb (y mod 400) 0.

(** Days of month [m] (0 is January) of year [y]. *)
Definition days_in_month (y : Z) (m : nat) : Z :=
  match m with
  | 1%nat => if is_leap y then 29 else 28
  | 3%nat | 5%nat | 8%nat | 10%nat => 30
  | _ => 31
  end.

(** [`${d.getFullYear()}-${String(d.getMonth()+1).padStart(2,"0")}-01`] *)
Definition startOfMonthISO (ck : Clock) : string :=
  pretty (year ck) ++ "-" ++ pad2 (pretty (Z.of_nat (month ck) + 1)) ++ "-01".

(** [toISODate] on a valid date, given by its local year, month (1 to 12)
    and day: [`${yyyy}-${mm}-${dd}`]. *)
Definition toISODate (y m d : Z) : string :=
  pretty y ++ "-" ++ pad2 (pretty m) ++ "-" ++ pad2 (pretty d).

(** A collation under which the dates written in the form of [toISODate],
    with a year of four digits, stand in the order of the calendar: the
    texts have the same length and differ in digits only, which every
    collation compares from left to right. *)
Class DateCollation (H : Host) : Prop :=
  collation_dates : ∀ y m d y' m' d',
    1000 <= y <= 9999 → 1 <= m <= 12 → 1 <= d <= 31 →
    1000 <= y' <= 9999 → 1 <= m' <= 12 → 1 <= d' <= 31 →
    localeCompare (toISODate y m d) (toISODate y' m' d') <= 0
    ↔ calendar_le (y, m, d) (y', m', d').

(** [toISODate(new Date(d.getFullYear(), d.getMonth()+1, 0))]: day 0 of the
    next month is the last day of this one.  The [Date] constructor reads a
    year from 0 to 99 as 1900 plus that year. *)
Definition endOfMonthISO (ck : Clock) : string :=
  let y := if bool_decide (0 <= year ck <= 99) then 1900 + year ck else year ck in
  toISODate y (Z.of_nat (month ck) + 1) (days_in_month y (month ck)).

(** The decimal digits of [x] on [n] positions, zeros included. *)
Definition digit_char (i : Z) : ascii := ascii_of_N (Z.to_N (48 + i)).

Fixpoint fixed_digits (n : nat) (x : Z) : string :=
  match n with
  | O => EmptyString
  | S n' =>
      String (digit_char (x / 10 ^ Z.of_nat n'))
             (fixed_digits n' (x mod 10 ^ Z.of_nat n'))
  end.

(** [a < b], [a <= b] on strings. *)
Definition str_lt (a b : string) : bool := String.ltb a b.
Definition str_le (a b : string) : bool := String.leb a b.

(** ** Records of the object stores *)

Record Account : Type := {
  acc_id : string;
  acc_name : string;
  acc_type : string;
  acc_currency : string;
  acc_startingBalance : option num;
  acc_note : string;
}.

Record Transaction : Type := {
  tx_id : string;
  tx_type : string;
  tx_date : option string;
  tx_accountId : string;
  tx_categoryId : option string;
  tx_description : string;
  tx_amount : option num;
  tx_currency : string;
  tx_hash : string;
}.

Record Category : Type := { cat_id : string; cat_name : string }.

Record Instrument : Type := {
  ins_id : string;
  ins_symbol : string;
  ins_name : string;
  ins_type : string;
  ins_currency : string;
}.

Record Position : Type := {
  pos_id : string;
  pos_instrumentId : string;
  pos_qty : option num;
  pos_avgCost : option num;
  pos_currentValue : option num;
  pos_note : string;
}.

Record Debt : Type := {
  debt_id : string;
  debt_direction : string;
  debt_status : string;
  debt_person : string;
  debt_amount : option num;
  debt_dueDate : option string;
  debt_confidence : option num;
  debt_note : string;
}.

Record Trade : Type := {
  trade_id : string;
  trade_date : option string;
  trade_symbol : string;
  trade_side : string;
  trade_result : string;
  trade_entry : option num;
  trade_exit : option num;
  trade_sl : option num;
  trade_tp : option num;
  trade_size : option num;
  trade_rMultiple : option num;
  trade_tag : string;
  trade_note : string;
}.

Record Goal : Type := {
  goal_id : string;
  goal_name : string;
  goal_type : string;
  goal_targetValue : option num;
  goal_startDate : option string;
  goal_endDate : option string;
  goal_status : string;
  goal_description : string;
}.

Record Snapshot : Type := {
  snap_id : string;
  snap_date : option string;
  snap_netWorth : option num;
  snap_cashTotal : option num;
  snap_investmentsValue : option num;
}.

(** The values kept in the [meta] store: the base currency (a string) and
    the seeded flag (a boolean). *)
Inductive meta_value : Type :=
  | MString (s : string)
  | MBool (b : bool).

Record Meta : Type := { meta_key : string; meta_val : meta_value }.

Definition meta_truthy (v : meta_value) : bool :=
  match v with
  | MString s => negb (String.eqb s "")
  | MBool b => b
  end.

(** ** The object stores *)

(** The key path of a store: ["id"], and ["key"] for [meta]. *)
Class Keyed (R : Type) : Type := key_of : R → string.

#[export] Instance Account_keyed : Keyed Account := acc_id.
#[export] Instance Transaction_keyed : Keyed Transaction := tx_id.
#[export] Instance Category_keyed : Keyed Category := cat_id.
#[export] Instance Instrument_keyed : Keyed Instrument := ins_id.
#[export] Instance Position_keyed : Keyed Position := pos_id.
#[export] Instance Debt_keyed : Keyed Debt := debt_id.
#[export] Instance Trade_keyed : Keyed Trade := trade_id.
#[export] Instance Goal_keyed : Keyed Goal := goal_id.
#[export] Instance Snapshot_keyed : Keyed Snapshot := snap_id.
#[export] Instance Meta_keyed : Keyed Meta := meta_key.

(** Keys in ascending order, as a cursor walks an object store. *)
Definition entry_le {R} (a b : string * R) : Prop := Is_true (str_le a.1 b.1).

#[export] Instance entry_le_dec {R} (a b : string * R) : Decision (entry_le a b).
Proof. unfold entry_le; apply _. Defined.

Section object_store.
Context {R : Type} `{Keyed R}.

Definition idbGetAll (st : gmap string R) : list R :=
  (merge_sort entry_le (map_to_list st)).*2.

Definition idbPut (st : gmap string R) (value : R) : gmap string R :=
  <[key_of value := value]> st.

Definition idbDelete (st : gmap string R) (key : string) : gmap string R :=
  delete key st.

Definition idbClear (st : gmap string R) : gmap string R := ∅.

Definition idbGet (st : gmap string R) (key : string) : option R := st !! key.

(** Every record sits under its own key. *)
Definition store_wf (st : gmap string R) : Prop :=
  map_Forall (λ k r, key_of r = k) st.
End object_store.

Record DB : Type := {
  accounts : gmap string Account;
  transactions : gmap string Transaction;
  categories : gmap string Category;
  instruments : gmap string Instrument;
  positions : gmap string Position;
  debts : gmap string Debt;
  trades : gmap string Trade;
  goals : gmap string Goal;
  snapshots : gmap string Snapshot;
  meta : gmap string Meta;
}.

Definition db_wf (db : DB) : Prop :=
  store_wf (accounts db) ∧ store_wf (transactions db) ∧ store_wf (categories db)
  ∧ store_wf (instruments db) ∧ store_wf (positions db) ∧ store_wf (debts db)
  ∧ store_wf (trades db) ∧ store_wf (goals db) ∧ store_wf (snapshots db)
  ∧ store_wf (meta db).

(** [const state = { tab, currency, horizonDays, includeConfidenceMin }] *)
Record AppState : Type := {
  tab : string;
  currency : meta_value;
  horizonDays : Z;
  includeConfidenceMin : num;
}.

(** The handlers of the two selectors of the dashboard:
    [state.horizonDays = Number(e.target.value)] and
    [state.includeConfidenceMin = Number(e.target.value)]. *)
Definition set_horizonDays (st : AppState) (v : Z) : AppState :=
  {| tab := tab st; currency := currency st; horizonDays := v;
     includeConfidenceMin := includeConfidenceMin st |}.

Definition set_includeConfidenceMin (st : AppState) (v : num) : AppState :=
  {| tab := tab st; currency := currency st; horizonDays := horizonDays st;
     includeConfidenceMin := v |}.

Definition initial_state : AppState :=
  {| tab := "dashboard"; currency := MString "EUR"; horizonDays := 30;
     includeConfidenceMin := numZ 60 |}.

(** ** Calculations *)

(** [arr.reduce((s, x) => s + f(x), 0)] *)
Definition reduce_sum {A} (f : A → num) (arr : list A) : num :=
  foldl (λ s x, num_add s (f x)) (Fin 0%Qc) arr.

(** [arr.find(p)] *)
Definition js_find {A} (p : A → bool) (arr : list A) : option A :=
  List.find p arr.

Record BalanceReport : Type := {
  br_accounts : list Account;
  br_txs : list Transaction;
  br_debts : list Debt;
  br_positions : list Position;
  actualCash : num;
  cashInBank : num;
  expectedCash : num;
  riskAdjustedCash : num;
  investmentsCurrent : num;
  investmentsCost : num;
  openReceivablesTotal : num;
  openPayablesTotal : num;
  debtTotal : num;
  netWorth : num;
}.

(** [accounts.find(a => a.id === t.accountId)?.type === "Banka"] *)
Definition in_bank_account (accounts : list Account) (t : Transaction) : bool :=
  match js_find (λ a, String.eqb (acc_id a) (tx_accountId t)) accounts with
  | Some a => String.eqb (acc_type a) "Banka"
  | None => false
  end.

Definition is_open_receivable (d : Debt) : bool :=
  String.eqb (debt_direction d) "receivable" && String.eqb (debt_status d) "open".

Definition is_open_payable (d : Debt) : bool :=
  String.eqb (debt_direction d) "payable" && String.eqb (debt_status d) "open".

Section calculations.
Context `{Host}.

(** The callback of the [dueWithin] filter; [horizon] is the time value of
    [new Date(today.getTime() + state.horizonDays*86400000)]. *)
Definition due_within (horizon : Z) (d : Debt) : bool :=
  let dd : option Z :=
    if str_truthy (debt_dueDate d)
    then Date_parse (str_or_empty (debt_dueDate d))
    else None in
  match dd with
  | None => true      (* if (!dd || Number.isNaN(dd.getTime())) return true; *)
  | Some t => bool_decide (t <= horizon)
  end.

(** The constants [openReceivables], [openPayables], [dueWithin] and
    [expectedIncluded] of [computeBalances]. *)
Definition openReceivables (debts : list Debt) : list Debt :=
  filter (λ d, is_open_receivable d = true) debts.

Definition openPayables (debts : list Debt) : list Debt :=
  filter (λ d, is_open_payable d = true) debts.

Definition dueWithin (st : AppState) (ck : Clock) (debts : list Debt) : list Debt :=
  let today := now ck in
  let horizon := today + horizonDays st * ms_per_day in
  filter (λ d, due_within horizon d = true) (openReceivables debts).

Definition expectedIncluded (st : AppState) (ck : Clock) (debts : list Debt)
    : list Debt :=
  filter (λ d, num_ge (nullish (debt_confidence d) (numZ 60))
                      (includeConfidenceMin st) = true) (dueWithin st ck debts).

Definition balances (st : AppState) (ck : Clock)
    (accounts : list Account) (txs : list Transaction)
    (debts : list Debt) (positions : list Position) : BalanceReport :=
  let actualCash :=
    num_add (reduce_sum (λ a, or0 (acc_startingBalance a)) accounts)
            (reduce_sum (λ t, or0 (tx_amount t)) txs) in
  let cashInBank :=
    num_add
      (reduce_sum (λ a, or0 (acc_startingBalance a))
         (filter (λ a, String.eqb (acc_type a) "Banka" = true) accounts))
      (reduce_sum (λ t, or0 (tx_amount t))
         (filter (λ t, in_bank_account accounts t = true) txs)) in
  let expectedCash :=
    num_add actualCash
      (reduce_sum (λ d, or0 (debt_amount d)) (expectedIncluded st ck debts)) in
  let riskAdjustedCash :=
    num_add actualCash
      (reduce_sum
         (λ d,
            let p := clamp (num_div (nullish (debt_confidence d) (numZ 60)) (numZ 100))
                           (numZ 0) (numZ 1) in
            num_mul (or0 (debt_amount d)) p)
         (dueWithin st ck debts)) in
  let investmentsCurrent := reduce_sum (λ p, or0 (pos_currentValue p)) positions in
  let investmentsCost :=
    reduce_sum (λ p, num_mul (or0 (pos_qty p)) (or0 (pos_avgCost p))) positions in
  let debtTotal := reduce_sum (λ d, or0 (debt_amount d)) (openPayables debts) in
  let netWorth := num_sub (num_add actualCash investmentsCurrent) debtTotal in
  {| br_accounts := accounts; br_txs := txs; br_debts := debts;
     br_positions := positions;
     actualCash := actualCash; cashInBank := cashInBank;
     expectedCash := expectedCash; riskAdjustedCash := riskAdjustedCash;
     investmentsCurrent := investmentsCurrent;
     investmentsCost := investmentsCost;
     openReceivablesTotal :=
       reduce_sum (λ d, or0 (debt_amount d)) (openReceivables debts);
     openPayablesTotal :=
       reduce_sum (λ d, or0 (debt_amount d)) (openPayables debts);
     debtTotal := debtTotal;
     netWorth := netWorth |}.

(** [computeBalances]: read the four stores, then aggregate. *)
Definition computeBalances (db : DB) (st : AppState) (ck : Clock) : BalanceReport :=
  balances st ck (idbGetAll (accounts db)) (idbGetAll (transactions db))
           (idbGetAll (debts db)) (idbGetAll (positions db)).

Record MonthlyPnl : Type := {
  income : num;
  expense : num;
  net : num;
  pnl_start : string;
  pnl_end : string;
}.

(** The test that lets a transaction of the loop of [computeMonthlyPnl]
    through its three [continue]s. *)
Definition pnl_counted (start_ end_ : string) (t : Transaction) : bool :=
  str_truthy (tx_date t)
  && negb (str_lt (str_or_empty (tx_date t)) start_
           || str_lt end_ (str_or_empty (tx_date t)))
  && negb (String.eqb (tx_type t) "transfer").

(** One iteration of the loop on the pair (income, expense). *)
Definition pnl_step (start_ end_ : string) (acc : num * num) (t : Transaction)
    : num * num :=
  let '(income, expense) := acc in
  if negb (str_truthy (tx_date t)) then acc
  else if str_lt (str_or_empty (tx_date t)) start_
          || str_lt end_ (str_or_empty (tx_date t)) then acc
  else if String.eqb (tx_type t) "transfer" then acc
  else
    let amt := or0 (tx_amount t) in
    if num_ge amt (Fin 0%Qc) then (num_add income amt, expense)
    else (income, num_add expense (num_abs amt)).

Definition monthlyPnl (ck : Clock) (txs : list Transaction) : MonthlyPnl :=
  let start_ := startOfMonthISO ck in
  let end_ := endOfMonthISO ck in
  let '(income, expense) :=
    foldl (pnl_step start_ end_) (Fin 0%Qc, Fin 0%Qc) txs in
  {| income := income; expense := expense; net := num_sub income expense;
     pnl_start := start_; pnl_end := end_ |}.

Definition computeMonthlyPnl (db : DB) (ck : Clock) : MonthlyPnl :=
  monthlyPnl ck (idbGetAll (transactions db)).

(** [Array.prototype.sort(cmp)]: the sort is stable, so with a consistent
    comparator its result is the one of a stable insertion sort. *)
Fixpoint sort_insert {A} (cmp : A → A → Z) (x : A) (l : list A) : list A :=
  match l with
  | [] => [x]
  | y :: l' =>
      if bool_decide (cmp x y <= 0) then x :: y :: l'
      else y :: sort_insert cmp x l'
  end.

Definition js_sort {A} (cmp : A → A → Z) (l : list A) : list A :=
  foldr (sort_insert cmp) [] l.

Record TradeStats : Type := {
  total : nat;
  wins : nat;
  losses : nat;
  bes : nat;
  totalR : num;
  winRate : num;
  maxDrawdownR : num;
}.

(** [t.date && t.date >= start && t.date <= end] *)
Definition in_month (start_ end_ : string) (t : Trade) : bool :=
  str_truthy (trade_date t)
  && str_le start_ (str_or_empty (trade_date t))
  && str_le (str_or_empty (trade_date t)) end_.

(** [(a, b) => (a.date||"").localeCompare(b.date||"")] *)
Definition by_date (a b : Trade) : Z :=
  localeCompare (str_or_empty (trade_date a)) (str_or_empty (trade_date b)).

(** The variables [peak], [dd], [cum] of the drawdown loop. *)
Record Drawdown : Type := { peak : num; dd : num; cum : num }.

Definition drawdown_init : Drawdown :=
  {| peak := Fin 0%Qc; dd := Fin 0%Qc; cum := Fin 0%Qc |}.

(** The three variables hold finite numbers. *)
Definition drawdown_finite (s : Drawdown) : Prop :=
  Number_isFinite (peak s) = true ∧ Number_isFinite (dd s) = true
  ∧ Number_isFinite (cum s) = true.

Definition drawdown_step (s : Drawdown) (t : Trade) : Drawdown :=
  let cum := num_add (cum s) (or0 (trade_rMultiple t)) in
  let peak := if num_gt cum (peak s) then cum else peak s in
  let dd := Math_min (dd s) (num_sub cum peak) in
  {| peak := peak; dd := dd; cum := cum |}.

Definition num_of_nat (n : nat) : num := numZ (Z.of_nat n).

Definition tradeStats (ck : Clock) (trades : list Trade) : TradeStats :=
  let start_ := startOfMonthISO ck in
  let end_ := endOfMonthISO ck in
  let month := filter (λ t, in_month start_ end_ t = true) trades in
  let total := length month in
  let wins := length (filter (λ t, String.eqb (trade_result t) "win" = true) month) in
  let bes := length (filter (λ t, String.eqb (trade_result t) "be" = true) month) in
  let losses := length (filter (λ t, String.eqb (trade_result t) "loss" = true) month) in
  let totalR := reduce_sum (λ t, or0 (trade_rMultiple t)) month in
  let winRate :=
    if negb (Nat.eqb total 0)
    then num_mul (num_div (num_of_nat wins) (num_of_nat total)) (numZ 100)
    else numZ 0 in
  let final := foldl drawdown_step drawdown_init (js_sort by_date month) in
  {| total := total; wins := wins; losses := losses; bes := bes;
     totalR := totalR; winRate := winRate; maxDrawdownR := dd final |}.

Definition computeTradeStats (db : DB) (ck : Clock) : TradeStats :=
  tradeStats ck (idbGetAll (trades db)).

(** [goalProgress]; [None] is [null]. *)
Definition goalProgress (goal : Goal) (balances : BalanceReport)
    (monthly : MonthlyPnl) : option num :=
  match goal_targetValue goal with
  | None => None
  | Some target =>
      let cur : option num :=
        if String.eqb (goal_type goal) "cashInBank" then Some (cashInBank balances)
        else if String.eqb (goal_type goal) "actualCash" then Some (actualCash balances)
        else if String.eqb (goal_type goal) "investments"
             then Some (investmentsCurrent balances)
        else if String.eqb (goal_type goal) "netWorth" then Some (netWorth balances)
        else if String.eqb (goal_type goal) "monthlyExpenseCap"
             then Some (expense monthly)
        else None in
      match cur with
      | None => None
      | Some cur =>
          if String.eqb (goal_type goal) "monthlyExpenseCap"
          then Some (if num_truthy target
                     then num_mul (num_div cur target) (numZ 100) else numZ 0)
          else Some (if num_truthy target
                     then num_mul (num_div cur target) (numZ 100) else numZ 0)
      end
  end.

(** An entry of [alerts]: the warning of an expense cap or the notice of
    another goal, with the percentage its text shows (rounded). *)
Inductive alert_kind : Type := Warning | Notice.

Record Alert : Type := {
  alert_kind_of : alert_kind;
  alert_goal : Goal;
  alert_pct : num;
}.

(** One iteration of the loop of [renderAlerts] over the goals. *)
Definition alerts_step (balances : BalanceReport) (monthly : MonthlyPnl)
    (now_ : Z) (alerts : list Alert) (g : Goal) : list Alert :=
  if String.eqb (goal_status g) "archived" then alerts
  else if str_truthy (goal_endDate g)
          && match Date_parse (str_or_empty (goal_endDate g)) with
             | Some ed => bool_decide (ed < now_)
             | None => false
             end
  then alerts
  else
    match goalProgress g balances monthly with
    | Some pct =>
        if String.eqb (goal_type g) "monthlyExpenseCap" then
          if num_ge pct (numZ 80)
          then alerts ++ [{| alert_kind_of := Warning; alert_goal := g; alert_pct := pct |}]
          else alerts
        else
          if num_lt pct (numZ 80) then alerts
          else alerts ++ [{| alert_kind_of := Notice; alert_goal := g; alert_pct := pct |}]
    | None => alerts
    end.

(** What [renderAlerts] shows: [alerts.slice(0,3)], the panel being hidden
    when there is no alert. *)
Definition alerts_of (balances : BalanceReport) (monthly : MonthlyPnl)
    (now_ : Z) (goals : list Goal) : list Alert :=
  foldl (alerts_step balances monthly now_) [] goals.

Definition renderAlerts (db : DB) (ck : Clock) (balances : BalanceReport)
    : list Alert :=
  let goals := idbGetAll (goals db) in
  let monthly := computeMonthlyPnl db ck in
  take 3 (alerts_of balances monthly (now ck) goals).
End calculations.

(** ** Export and import *)

(** The object built by [exportAll] and read by [importAll]; a collection
    missing from the data is [None]. *)
Record Dump : Type := {
  d_accounts : option (list Account);
  d_transactions : option (list Transaction);
  d_categories : option (list Category);
  d_instruments : option (list Instrument);
  d_positions : option (list Position);
  d_debts : option (list Debt);
  d_trades : option (list Trade);
  d_goals : option (list Goal);
  d_snapshots : option (list Snapshot);
  d_meta : option (list Meta);
  d_exportedAt : Z;
  d_version : Z;
}.

Definition DB_VERSION : Z := 1.

Definition exportAll (db : DB) (ck : Clock) : Dump :=
  {| d_accounts := Some (idbGetAll (accounts db));
     d_transactions := Some (idbGetAll (transactions db));
     d_categories := Some (idbGetAll (categories db));
     d_instruments := Some (idbGetAll (instruments db));
     d_positions := Some (idbGetAll (positions db));
     d_debts := Some (idbGetAll (debts db));
     d_trades := Some (idbGetAll (trades db));
     d_goals := Some (idbGetAll (goals db));
     d_snapshots := Some (idbGetAll (snapshots db));
     d_meta := Some (idbGetAll (meta db));
     d_exportedAt := now ck;
     d_version := DB_VERSION |}.

(** [await idbClear(s); for (const item of data[s] || []) await idbPut(s, item);] *)
Definition import_store {R} `{Keyed R} (st : gmap string R)
    (arr : option (list R)) : gmap string R :=
  foldl idbPut (idbClear st) (nullish arr []).

(** [loadCurrency]: [if (cur?.value) state.currency = cur.value;] *)
Definition loadCurrency (db : DB) (st : AppState) : AppState :=
  match idbGet (meta db) "baseCurrency" with
  | Some cur =>
      if meta_truthy (meta_val cur)
      then {| tab := tab st; currency := meta_val cur;
              horizonDays := horizonDays st;
              includeConfidenceMin := includeConfidenceMin st |}
      else st
  | None => st
  end.

Definition importAll (data : Dump) (db : DB) (st : AppState) : DB * AppState :=
  let db' :=
    {| accounts := import_store (accounts db) (d_accounts data);
       transactions := import_store (transactions db) (d_transactions data);
       categories := import_store (categories db) (d_categories data);
       instruments := import_store (instruments db) (d_instruments data);
       positions := import_store (positions db) (d_positions data);
       debts := import_store (debts db) (d_debts data);
       trades := import_store (trades db) (d_trades data);
       goals := import_store (goals db) (d_goals data);
       snapshots := import_store (snapshots db) (d_snapshots data);
       meta := import_store (meta db) (d_meta data) |} in
  (db', loadCurrency db' st).

(** ** A host for running the model

    [new Date(s)] on the date-only form [YYYY-MM-DD] that the application
    writes into its date fields (midnight UTC of that day; a day up to 31
    that the month does not have runs into the next month, as it does in
    V8), an Invalid Date on every other string; [localeCompare] as the
    comparison of code units, with which every collation agrees on dates of
    that form. *)

(** Days from 1970-01-01 to the day [d] of month [m] (1 to 12) of year [y]. *)
Definition days_from_civil (y m d : Z) : Z :=
  let y' := if bool_decide (m <= 2) then y - 1 else y in
  let era := y' / 400 in
  let yoe := y' - era * 400 in
  let mp := if bool_decide (m <= 2) then m + 9 else m - 3 in
  let doy := (153 * mp + 2) / 5 + d - 1 in
  let doe := yoe * 365 + yoe / 4 - yoe / 100 + doy in
  era * 146097 + doe - 719468.

Definition iso_date_parse (s : string) : option Z :=
  let ys := String.substring 0 4 s in
  let ms := String.substring 5 2 s in
  let ds := String.substring 8 2 s in
  if Nat.eqb (String.length s) 10
     && String.eqb (String.substring 4 1 s) "-"
     && String.eqb (String.substring 7 1 s) "-"
     && str_forallb is_digit ys && str_forallb is_digit ms
     && str_forallb is_digit ds
  then
    let y := digits_value ys in
    let m := digits_value ms in
    let d := digits_value ds in
    if bool_decide (1 <= m <= 12 ∧ 1 <= d <= 31)
    then Some (days_from_civil y m d * ms_per_day)
    else None
  else None.

Definition code_unit_compare (a b : string) : Z :=
  match String.compare a b with
  | Lt => -1
  | Eq => 0
  | Gt => 1
  end.

Definition sample_host : Host :=
  {| Date_parse := iso_date_parse; localeCompare := code_unit_compare |}.

(** ** The formulations of the specification

    Definitions written from the words of the specification, to which the
    functions above are compared. *)

(** Σ of a list of numbers. *)
Definition sum_num (l : list num) : num := foldr num_add (Fin 0%Qc) l.

Module Spec.

(** The effective amount and confidence of a debt: a missing amount counts
    as 0, a missing confidence as 60. *)
Definition amount (d : Debt) : num := or0 (debt_amount d).
Definition confidence (d : Debt) : num := nullish (debt_confidence d) (numZ 60).

(** amount × clamp(confidence/100, 0, 1) *)
Definition weighted (d : Debt) : num :=
  num_mul (amount d) (clamp (num_div (confidence d) (numZ 100)) (numZ 0) (numZ 1)).

(** An open receivable: a debt owed to the user (direction "receivable")
    that is still open (status "open"); a payable, and a debt that is
    closed, disputed or written off, is none. *)
Definition open_receivable (d : Debt) : Prop :=
  debt_direction d = "receivable" ∧ debt_status d = "open".

(** Due within the horizon: the due date is absent (null, undefined or
    empty), or is not read as a date, or is a date not later than
    [horizonDays] days of 86 400 000 ms after [today]. *)
Definition due_in_horizon `{Host} (today horizonDays : Z) (d : Debt) : Prop :=
  match debt_dueDate d with
  | None => True
  | Some s =>
      s = ""
      ∨ match Date_parse s with
        | Some due => due <= today + horizonDays * 86400000
        | None => True
        end
  end.

#[global] Instance due_in_horizon_dec `{Host} (today horizonDays : Z) (d : Debt) :
  Decision (due_in_horizon today horizonDays d).
Proof.
  unfold due_in_horizon. destruct (debt_dueDate d) as [s|]; [|apply _].
  destruct (Date_parse s); apply _.
Defined.

(** An open receivable that is due within the horizon of the
    configuration. *)
Definition due_receivable `{Host} (st : AppState) (ck : Clock) (d : Debt) : Prop :=
  open_receivable d ∧ due_in_horizon (now ck) (horizonDays st) d.

#[global] Instance due_receivable_dec `{Host} (st : AppState) (ck : Clock)
    (d : Debt) : Decision (due_receivable st ck d).
Proof. unfold due_receivable, open_receivable. apply _. Defined.

(** The characters that [parseAmount] keeps, those of the class
    [[0-9.,+-]]: the ten digits, the two separators and the two signs. *)
Definition kept_chars : list ascii :=
  ["0"; "1"; "2"; "3"; "4"; "5"; "6"; "7"; "8"; "9"; "."; ","; "+"; "-"]%char.

Definition kept (c : ascii) : bool := bool_decide (c ∈ kept_chars).

(** The two separators, ['.'] and [',']. *)
Definition separators : list ascii := ["."; ","]%char.

Definition separator (c : ascii) : bool := bool_decide (c ∈ separators).

(** The cleaned string cut at its last separator: what is before it, and
    what is after it. *)
Fixpoint split_last_sep (t : string) : option (string * string) :=
  match t with
  | EmptyString => None
  | String c t' =>
      match split_last_sep t' with
      | Some (b, a) => Some (String c b, a)
      | None => if separator c then Some (EmptyString, t') else None
      end
  end.

Definition drop_seps (t : string) : string :=
  str_filter (λ c, negb (separator c)) t.

(** Strip what is outside [[0-9.,+-]]; the last ['.'] or [','] is the
    decimal separator, every other one is dropped. *)
Definition normalize (s : string) : string :=
  let cleaned := str_filter kept s in
  match split_last_sep cleaned with
  | Some (b, a) => drop_seps b ++ "." ++ drop_seps a
  | None => cleaned
  end.

(** Parse the normalized text; 0 on failure. *)
Definition parseAmount (s : string) : num :=
  let n := Number (normalize s) in
  if Number_isFinite n then n else Fin 0%Qc.

(** [scan f a [x1; x2; ...]] is [[f a x1; f (f a x1) x2; ...]]. *)
Fixpoint scan {A B} (f : A → B → A) (a : A) (l : list B) : list A :=
  match l with
  | [] => []
  | x :: l' => f a x :: scan f (f a x) l'
  end.

(** The running sum of the R multiples, its running maximum starting at 0,
    their difference, and the running minimum of it starting at 0. *)
Definition cum_seq (rs : list num) : list num := scan num_add (Fin 0%Qc) rs.
Definition peak_seq (rs : list num) : list num :=
  scan Math_max (Fin 0%Qc) (cum_seq rs).
Definition drawdown_seq (rs : list num) : list num :=
  zip_with num_sub (cum_seq rs) (peak_seq rs).
Definition running_min_seq (rs : list num) : list num :=
  scan Math_min (Fin 0%Qc) (drawdown_seq rs).
Definition maxDrawdownR (rs : list num) : num :=
  foldl Math_min (Fin 0%Qc) (drawdown_seq rs).

(** The sum of the R multiples and the maximum that the running sum has
    reached, 0 included. *)
Definition cum (rs : list num) : num := foldl num_add (Fin 0%Qc) rs.
Definition peak (rs : list num) : num := foldl Math_max (Fin 0%Qc) (cum_seq rs).

(** A date that is present and lies between [start_] and [end_], the
    first and the last day of the month, both included. *)
Definition in_period (start_ end_ : string) (date : option string) : bool :=
  match date with
  | Some s => negb (String.eqb s "") && str_le start_ s && str_le s end_
  | None => false
  end.

(** A transaction that the monthly P&L counts: dated in the period and not
    a transfer. *)
Definition pnl_row (ck : Clock) (t : Transaction) : Prop :=
  in_period (startOfMonthISO ck) (endOfMonthISO ck) (tx_date t) = true
  ∧ tx_type t ≠ "transfer".

(** A trade whose R multiple counts as a finite number (an absent one
    counts as 0). *)
Definition finite_R (t : Trade) : Prop :=
  Number_isFinite (or0 (trade_rMultiple t)) = true.

(** The invariant of the data model on the amounts that the engine sums:
    each is a finite number (or absent). *)
Definition finite_field (x : option num) : Prop :=
  Number_isFinite (or0 x) = true.

Definition finite_amounts (db : DB) : Prop :=
  map_Forall (λ _ a, finite_field (acc_startingBalance a)) (accounts db)
  ∧ map_Forall (λ _ t, finite_field (tx_amount t)) (transactions db)
  ∧ map_Forall (λ _ p, finite_field (pos_currentValue p)) (positions db)
  ∧ map_Forall (λ _ d, finite_field (debt_amount d)) (debts db).

(** The goal types for which a current value is defined. *)
Definition goal_types : list string :=
  ["cashInBank"; "actualCash"; "investments"; "netWorth"; "monthlyExpenseCap"].

(** The day of an instant, counted from the epoch in days of
    86 400 000 ms (UTC). *)
Definition day_of (t : Z) : Z := t / 86400000.

(** "endDate ≥ today or null": the goal has no end date, or its end date
    is a date on the day of [now_] or on a later day. *)
Definition ends_today_or_later `{Host} (now_ : Z) (g : Goal) : Prop :=
  match goal_endDate g with
  | Some s =>
      match Date_parse s with
      | Some ed => day_of now_ <= day_of ed
      | None => False
      end
  | None => True
  end.

(** A goal that has ended at the instant [now_]: its end date is present,
    is read as a date, and the instant of that date (midnight UTC of the
    day, for a date without a time) is before [now_]. *)
Definition ended_before `{Host} (now_ : Z) (g : Goal) : Prop :=
  match goal_endDate g with
  | Some s =>
      s ≠ ""
      ∧ match Date_parse s with
        | Some ed => ed < now_
        | None => False
        end
  | None => False
  end.

#[global] Instance ended_before_dec `{Host} (now_ : Z) (g : Goal) :
  Decision (ended_before now_ g).
Proof.
  unfold ended_before. destruct (goal_endDate g) as [s|]; [|apply _].
  destruct (Date_parse s); apply _.
Defined.

(** The goals that the alert pass considers: not archived, not ended. *)
Definition considered `{Host} (now_ : Z) (g : Goal) : Prop :=
  goal_status g ≠ "archived" ∧ ¬ ended_before now_ g.

(** The kind of the alert of a goal: a warning for an expense cap, a
    notice for every other type. *)
Definition kind_of (g : Goal) : alert_kind :=
  if decide (goal_type g = "monthlyExpenseCap") then Warning else Notice.

(** A percentage that raises the alert of the goal: 80 or more on an
    expense cap, not below 80 on every other type.  The two are the same
    on every number; on NaN the first fails and the second holds. *)
Definition raises (g : Goal) (pct : num) : Prop :=
  match kind_of g with
  | Warning => num_ge pct (numZ 80) = true
  | Notice => num_lt pct (numZ 80) = false
  end.

#[global] Instance raises_dec (g : Goal) (pct : num) : Decision (raises g pct).
Proof. unfold raises. destruct (kind_of g); apply _. Defined.

(** The alert of a goal, when its percentage raises one. *)
Definition alert_of `{Host} (b : BalanceReport) (m : MonthlyPnl) (g : Goal)
    : option Alert :=
  match goalProgress g b m with
  | Some pct =>
      if decide (raises g pct)
      then Some {| alert_kind_of := kind_of g; alert_goal := g; alert_pct := pct |}
      else None
  | None => None
  end.

(** The alerts of the considered goals, in the order of the goals. *)
Definition qualifying `{Host} (b : BalanceReport) (m : MonthlyPnl) (now_ : Z)
    (gs : list Goal) : list Alert :=
  omap (λ g, if decide (considered now_ g) then alert_of b m g else None) gs.

End Spec.

(** ** Sample data *)

Module Sample.

(** 1 March 2024, 00:00 UTC. *)
Definition clock : Clock := {| now := 1709251200000; year := 2024; month := 2 |}.

Definition bank : Account :=
  {| acc_id := "a1"; acc_name := "Ana Banka"; acc_type := "Banka";
     acc_currency := "EUR"; acc_startingBalance := Some (numZ 100);
     acc_note := "" |}.

Definition wallet : Account :=
  {| acc_id := "a2"; acc_name := "Nakit"; acc_type := "Nakit";
     acc_currency := "EUR"; acc_startingBalance := Some (numZ 20);
     acc_note := "" |}.

Definition tx (id type date account : string) (amount : num) : Transaction :=
  {| tx_id := id; tx_type := type; tx_date := Some date;
     tx_accountId := account; tx_categoryId := None; tx_description := "";
     tx_amount := Some amount; tx_currency := "EUR"; tx_hash := "" |}.

Definition receivable (id : string) (due : option string) (amount confidence : num)
    : Debt :=
  {| debt_id := id; debt_direction := "receivable"; debt_status := "open";
     debt_person := "Serkan"; debt_amount := Some amount; debt_dueDate := due;
     debt_confidence := Some confidence; debt_note := "" |}.

Definition trade (id date result : string) (r : num) : Trade :=
  {| trade_id := id; trade_date := Some date; trade_symbol := "EURUSD";
     trade_side := "long"; trade_result := result; trade_entry := None;
     trade_exit := None; trade_sl := None; trade_tp := None;
     trade_size := None; trade_rMultiple := Some r; trade_tag := "";
     trade_note := "" |}.

Definition goal (id type : string) (target : option num) (status : string)
    (end_ : option string) : Goal :=
  {| goal_id := id; goal_name := ""; goal_type := type;
     goal_targetValue := target; goal_startDate := Some "2024-01-01";
     goal_endDate := end_; goal_status := status; goal_description := "" |}.

(** A store with a bank account of 2000, an expense of 850 in March 2024
    and five goals, the last one archived. *)
Definition db : DB :=
  {| accounts :=
       idbPut ∅ {| acc_id := "a1"; acc_name := "Ana Banka"; acc_type := "Banka";
                   acc_currency := "EUR";
                   acc_startingBalance := Some (numZ 2000); acc_note := "" |};
     transactions := idbPut ∅ (tx "t1" "normal" "2024-03-02" "a1" (numZ (-850)));
     categories := ∅; instruments := ∅; positions := ∅;
     debts := idbPut ∅ (receivable "d1" (Some "2024-03-10") (numZ 200) (numZ 50));
     trades := ∅;
     goals :=
       idbPut (idbPut (idbPut (idbPut (idbPut ∅
         (goal "g5" "investments" (Some (numZ 0)) "archived" None))
         (goal "g4" "netWorth" (Some (numZ 1000)) "active" None))
         (goal "g3" "cashInBank" (Some (numZ 1000)) "active" (Some "2030-01-01")))
         (goal "g2" "actualCash" (Some (numZ 1000)) "active" None))
         (goal "g1" "monthlyExpenseCap" (Some (numZ 1000)) "active" None);
     snapshots := ∅;
     meta := idbPut ∅ {| meta_key := "baseCurrency"; meta_val := MString "TRY" |} |}.

Definition empty_db : DB :=
  {| accounts := ∅; transactions := ∅; categories := ∅; instruments := ∅;
     positions := ∅; debts := ∅; trades := ∅; goals := ∅; snapshots := ∅;
     meta := ∅ |}.

End Sample.


(** * Around the engine: text helpers, forms and views

    The records keep the properties that the calculations read; the time
    stamps [createdAt] and [updatedAt] and the [transferGroupId] of a
    transfer are not kept.  What a handler takes from the page or from the
    host (the value of an input, a fresh [uid()], a digest of [hashString],
    the date of [toISODate(new Date())]) is an argument of its model. *)

(** ** [escapeHtml] *)

Definition dquote : ascii := "034"%char.

(** The replacement of one character by [escapeHtml]. *)
Definition escape_char (c : ascii) : string :=
  if Ascii.eqb c "&" then "&amp;"
  else if Ascii.eqb c "<" then "&lt;"
  else if Ascii.eqb c ">" then "&gt;"
  else if Ascii.eqb c dquote then "&quot;"
  else if Ascii.eqb c "'" then "&#39;"
  else String c EmptyString.

Fixpoint escapeHtml (s : string) : string :=
  match s with
  | EmptyString => EmptyString
  | String c s' => escape_char c ++ escapeHtml s'
  end.

(** The characters that [escapeHtml] replaces. *)
Definition html_special (c : ascii) : bool :=
  Ascii.eqb c "&" || Ascii.eqb c "<" || Ascii.eqb c ">" || Ascii.eqb c dquote
  || Ascii.eqb c "'".

(** ** [csvSplitLine] and [detectDelimiter] *)

(** The loop of [csvSplitLine] from index [i] on: [line] is what is left of
    the line, [inQ] and [cur] are the variables of the loop and [out] the
    fields pushed so far.  A quote inside quotes that is followed by a quote
    adds one quote and skips both. *)
Fixpoint csv_scan (delim : ascii) (line : string) (inQ : bool) (cur : string)
    (out : list string) : list string :=
  match line with
  | EmptyString => (out ++ [cur])%list
  | String ch rest =>
      if Ascii.eqb ch dquote then
        match rest with
        | String ch2 rest2 =>
            if inQ && Ascii.eqb ch2 dquote
            then csv_scan delim rest2 inQ (cur ++ String dquote EmptyString) out
            else csv_scan delim rest (negb inQ) cur out
        | EmptyString => csv_scan delim rest (negb inQ) cur out
        end
      else if negb inQ && Ascii.eqb ch delim
      then csv_scan delim rest inQ EmptyString (out ++ [cur])%list
      else csv_scan delim rest inQ (cur ++ String ch EmptyString) out
  end.

(** [csvSplitLine(line, delim)] for a delimiter of one character; the
    fields are trimmed of ASCII white space. *)
Definition csvSplitLine (line : string) (delim : ascii) : list string :=
  js_trim <$> csv_scan delim line false EmptyString [].

(** A field written between quotes, its quotes doubled. *)
Fixpoint double_quotes (s : string) : string :=
  match s with
  | EmptyString => EmptyString
  | String c s' =>
      if Ascii.eqb c dquote then String dquote (String dquote (double_quotes s'))
      else String c (double_quotes s')
  end.

Definition csv_quote (field : string) : string :=
  String dquote (double_quotes field ++ String dquote EmptyString).

(** [fields.join(delim)] *)
Fixpoint join_with (delim : ascii) (fields : list string) : string :=
  match fields with
  | [] => EmptyString
  | [f] => f
  | f :: fs => f ++ String delim (join_with delim fs)
  end.

(** [text.split(/\r?\n/)] *)
Definition newline : ascii := "010"%char.
Definition carriage_return : ascii := "013"%char.
Definition tab_char : ascii := "009"%char.

Definition push_char (c : ascii) (parts : list string) : list string :=
  match parts with
  | p :: ps => String c p :: ps
  | [] => [String c EmptyString]
  end.

Fixpoint split_lines (text : string) : list string :=
  match text with
  | EmptyString => [EmptyString]
  | String c rest =>
      if Ascii.eqb c newline then EmptyString :: split_lines rest
      else if Ascii.eqb c carriage_return then
        match rest with
        | String c2 rest2 =>
            if Ascii.eqb c2 newline then EmptyString :: split_lines rest2
            else push_char c (split_lines rest)
        | EmptyString => push_char c (split_lines rest)
        end
      else push_char c (split_lines rest)
  end.

(** [(sample.match(new RegExp(`\\${d}`, "g")) || []).length]: the number of
    occurrences of the character [d]. *)
Fixpoint count_char (d : ascii) (s : string) : nat :=
  match s with
  | EmptyString => O
  | String c s' => (if Ascii.eqb c d then 1 else 0) + count_char d s'
  end.

(** [text.split(/\r?\n/).slice(0,10).join("\n")] *)
Definition delimiter_sample (text : string) : string :=
  join_with newline (take 10 (split_lines text)).

Definition delimiter_candidates : list ascii := [","%char; ";"%char; tab_char].

Definition detectDelimiter (text : string) : ascii :=
  let sample := delimiter_sample text in
  let counts := (λ d, (d, count_char d sample)) <$> delimiter_candidates in
  let sorted :=
    js_sort (λ a b : ascii * nat, Z.of_nat b.2 - Z.of_nat a.2) counts in
  match sorted with
  | (d, c) :: _ => if negb (Nat.eqb c 0) then d else ","%char
  | [] => ","%char     (* counts[0] of an empty array: not reached *)
  end.

(** The characters that open or close markup or an attribute value. *)
Definition markup_char (c : ascii) : bool :=
  Ascii.eqb c "<" || Ascii.eqb c ">" || Ascii.eqb c dquote || Ascii.eqb c "'".

(** ** Order on the finite numbers *)

(** [a <= b] between two finite numbers. *)
Definition finite_le (a b : num) : Prop :=
  Number_isFinite a = true ∧ Number_isFinite b = true ∧ num_le a b = true.

(** A receivable as the debt form stores it: the amount is a finite number
    that is not negative (or is absent), the confidence is a number (or is
    absent). *)
Definition plain_receivable (d : Debt) : Prop :=
  finite_le (Fin 0%Qc) (or0 (debt_amount d)) ∧ debt_confidence d ≠ Some NaN.

(** ** Account balances: [viewAccounts] and [openTransferModal] *)

(** The text of [state.currency] in a record written by a form.  The base
    currency is a string; the boolean that only a hand-made import can put
    under [baseCurrency] is written as its text. *)
Definition currency_text (v : meta_value) : string :=
  match v with
  | MString s => s
  | MBool true => "true"
  | MBool false => "false"
  end.

Definition set_transactions (db : DB) (txs : gmap string Transaction) : DB :=
  {| accounts := accounts db; transactions := txs; categories := categories db;
     instruments := instruments db; positions := positions db;
     debts := debts db; trades := trades db; goals := goals db;
     snapshots := snapshots db; meta := meta db |}.

(** [(start||0) + txs.filter(t=>t.accountId===id).reduce((s,t)=>s+(t.amount||0),0)] *)
Definition account_balance (start : option num) (id : string)
    (txs : list Transaction) : num :=
  num_add (or0 start)
    (reduce_sum (λ t, or0 (tx_amount t))
       (filter (λ t, String.eqb (tx_accountId t) id = true) txs)).

(** The rows of the table of [viewAccounts]: each account with the balance
    shown for it. *)
Definition viewAccounts (db : DB) : list (Account * num) :=
  let txs := idbGetAll (transactions db) in
  (λ a, (a, account_balance (acc_startingBalance a) (acc_id a) txs))
    <$> idbGetAll (accounts db).

(** The handler of the button of [openTransferModal]; [None] when it alerts
    and stores nothing.  [date_text], [amt_text], [from], [to] and [note]
    are the values of the page, [id_from] and [id_to] the two fresh
    [uid()]s of the records. *)
Definition transfer_save (db : DB) (st : AppState)
    (date_text today amt_text from to note : string)
    (id_from id_to hash_from hash_to : string) : option DB :=
  let date := if String.eqb date_text "" then today else date_text in
  let amt := num_abs (parseAmount (InString amt_text)) in
  if negb (num_truthy amt) || String.eqb from to then None
  else
    let note := js_trim note in
    let fromTx :=
      {| tx_id := id_from; tx_type := "transfer"; tx_date := Some date;
         tx_accountId := from; tx_categoryId := None;
         tx_description := "Transfer â†’ " ++ note;
         tx_amount := Some (num_neg amt);
         tx_currency := currency_text (currency st);
         tx_hash := hash_from |} in
    let toTx :=
      {| tx_id := id_to; tx_type := "transfer"; tx_date := Some date;
         tx_accountId := to; tx_categoryId := None;
         tx_description := "Transfer â† " ++ note;
         tx_amount := Some amt;
         tx_currency := currency_text (currency st);
         tx_hash := hash_to |} in
    Some (set_transactions db
            (idbPut (idbPut (transactions db) fromTx) toTx)).

(** ** Debts: the confidence presets, the form and [markDebtClosed] *)

(** [parseInt(s, 10)] on a string: leading white space (the ASCII one) is
    skipped, a sign is read, then the longest run of digits; NaN when there
    is none.  As for [Number], the integer read is kept exactly unless it
    is beyond the range of doubles. *)
Definition parseInt10 (s : string) : num :=
  let s := trim_start s in
  let '(negative, body) :=
    match s with
    | String c r =>
        if Ascii.eqb c "-" then (true, r)
        else if Ascii.eqb c "+" then (false, r)
        else (false, s)
    | EmptyString => (false, s)
    end in
  let '(z, _) := span_digits body in
  if String.eqb z "" then NaN
  else num_of_literal negative (Qc_of_Z (digits_value z)).

(** [String(n)] where [parseInt] is handed a number: the decimal digits of
    an integer below 10^21 in absolute value, and the names of NaN and of
    the infinities.  The text of another number is not modelled ([None]). *)
Definition Number_toString (n : num) : option string :=
  match n with
  | NaN => Some "NaN"
  | PInf => Some "Infinity"
  | NInf => Some "-Infinity"
  | Fin q =>
      if bool_decide (Qden q = 1%positive ∧ Z.abs (Qnum q) < 10 ^ 21)
      then Some (pretty (Qnum q))
      else None
  end.

Definition preset_Kesin : string := "Kesin".
Definition preset_Muhtemel : string := "Muhtemel".
Definition preset_Supheli : string := "ÅÃ¼pheli".
Definition preset_Umutsuz : string := "Umutsuz".

Definition confidencePresetToValue (p : string) : num :=
  if String.eqb p preset_Kesin then numZ 95
  else if String.eqb p preset_Muhtemel then numZ 70
  else if String.eqb p preset_Supheli then numZ 40
  else if String.eqb p preset_Umutsuz then numZ 10
  else
    let n := parseInt10 p in
    if Number_isFinite n then clamp n (numZ 0) (numZ 100) else numZ 60.

Definition confidenceValueToPreset (v : num) : string :=
  if num_ge v (numZ 90) then preset_Kesin
  else if num_ge v (numZ 60) then preset_Muhtemel
  else if num_ge v (numZ 30) then preset_Supheli
  else preset_Umutsuz.

(** The preset that [openDebtModal] selects:
    [confidenceValueToPreset(existing?.confidence ?? 60)]. *)
Definition debt_form_preset (existing : option Debt) : string :=
  confidenceValueToPreset (nullish (existing ≫= debt_confidence) (numZ 60)).

(** [clamp(parseInt(conf_text || confidencePresetToValue(preset), 10)
          || confidencePresetToValue(preset), 0, 100)]
    of the handler of the debt form. *)
Definition debt_form_confidence (conf_text preset : string) : option num :=
  let fallback := confidencePresetToValue preset in
  text ← (if String.eqb conf_text "" then Number_toString fallback
          else Some conf_text);
  let n := parseInt10 text in
  Some (clamp (if num_truthy n then n else fallback) (numZ 0) (numZ 100)).

Definition set_debts (db : DB) (ds : gmap string Debt) : DB :=
  {| accounts := accounts db; transactions := transactions db;
     categories := categories db; instruments := instruments db;
     positions := positions db; debts := ds; trades := trades db;
     goals := goals db; snapshots := snapshots db; meta := meta db |}.

(** The record that the handler of the debt form puts: [existing] is the
    record being edited, if any, [id] the fresh [uid()], the strings are the
    values of the page.  [None] only if the text of the preset value were
    not modelled, which does not occur ([debt_form_confidence]). *)
Definition debt_form_record (existing : option Debt)
    (dir status person amt_text due conf_text preset note id : string)
    : option Debt :=
  conf ← debt_form_confidence conf_text preset;
  Some {| debt_id :=
            match existing with
            | Some e => if String.eqb (debt_id e) "" then id else debt_id e
            | None => id
            end;
          debt_direction := dir; debt_status := status;
          debt_person := js_trim person;
          debt_amount := Some (num_abs (parseAmount (InString amt_text)));
          debt_dueDate := if String.eqb due "" then None else Some due;
          debt_confidence := Some conf;
          debt_note := js_trim note |}.

Definition debt_save (db : DB) (existing : option Debt)
    (dir status person amt_text due conf_text preset note id : string)
    : option DB :=
  v ← debt_form_record existing dir status person amt_text due conf_text
        preset note id;
  Some (set_debts db (idbPut (debts db) v)).

(** [markDebtClosed(id)] *)
Definition markDebtClosed (db : DB) (id : string) : DB :=
  match idbGet (debts db) id with
  | None => db                                      (* if (!d) return; *)
  | Some d =>
      set_debts db
        (idbPut (debts db)
           {| debt_id := debt_id d; debt_direction := debt_direction d;
              debt_status := "closed"; debt_person := debt_person d;
              debt_amount := debt_amount d; debt_dueDate := debt_dueDate d;
              debt_confidence := debt_confidence d; debt_note := debt_note d |})
  end.

(** A transaction whose [accountId] is the id of none of the accounts. *)
Definition dangling (accs : list Account) (t : Transaction) : Prop :=
  Forall (λ a, acc_id a ≠ tx_accountId t) accs.

#[export] Instance dangling_dec accs t : Decision (dangling accs t).
Proof. unfold dangling. apply _. Defined.

(** ** Seeding, reset and the base currency *)

Definition set_meta (db : DB) (m : gmap string Meta) : DB :=
  {| accounts := accounts db; transactions := transactions db;
     categories := categories db; instruments := instruments db;
     positions := positions db; debts := debts db; trades := trades db;
     goals := goals db; snapshots := snapshots db; meta := m |}.

Definition set_categories (db : DB) (cs : gmap string Category) : DB :=
  {| accounts := accounts db; transactions := transactions db;
     categories := cs; instruments := instruments db;
     positions := positions db; debts := debts db; trades := trades db;
     goals := goals db; snapshots := snapshots db; meta := meta db |}.

Definition set_accounts (db : DB) (accs : gmap string Account) : DB :=
  {| accounts := accs; transactions := transactions db;
     categories := categories db; instruments := instruments db;
     positions := positions db; debts := debts db; trades := trades db;
     goals := goals db; snapshots := snapshots db; meta := meta db |}.

Definition idbGetMeta (db : DB) (key : string) : option Meta :=
  idbGet (meta db) key.

Definition idbSetMeta (db : DB) (key : string) (value : meta_value) : DB :=
  set_meta db (idbPut (meta db) {| meta_key := key; meta_val := value |}).

Definition defaultCats : list string :=
  ["MaaÅŸ"; "Kira"; "Market"; "UlaÅŸÄ±m"; "Fatura"; "EÄŸlence"; "Yemek"; "SaÄŸlÄ±k"; "EÄŸitim"; "DiÄŸer"].

(** [seedIfNeeded]; [uid n] is what the call number [n] of [uid()] returns:
    ten calls for the categories, in their order, then one for each of the
    two accounts. *)
Definition seedIfNeeded (db : DB) (uid : nat → string) : DB :=
  let seeded := idbGetMeta db "seeded" in
  if from_option (λ m, meta_truthy (meta_val m)) false seeded then db
  else
    let cats := imap (λ i name, {| cat_id := uid i; cat_name := name |}) defaultCats in
    let db := foldl (λ d c, set_categories d (idbPut (categories d) c)) db cats in
    let euro := "EUR" in
    let acc1 := {| acc_id := uid 10%nat; acc_name := "Ana Banka"; acc_type := "Banka";
                   acc_currency := euro; acc_startingBalance := Some (numZ 0);
                   acc_note := "" |} in
    let acc2 := {| acc_id := uid 11%nat; acc_name := "Nakit"; acc_type := "Nakit";
                   acc_currency := euro; acc_startingBalance := Some (numZ 0);
                   acc_note := "" |} in
    let db := set_accounts db (idbPut (accounts db) acc1) in
    let db := set_accounts db (idbPut (accounts db) acc2) in
    idbSetMeta db "seeded" (MBool true).

(** [ensureCurrency]: [idbSetMeta("baseCurrency", state.currency)] *)
Definition ensureCurrency (db : DB) (st : AppState) : DB :=
  idbSetMeta db "baseCurrency" (currency st).

(** [resetAll]: every store is cleared, then [seedIfNeeded] and
    [loadCurrency]. *)
Definition resetAll (db : DB) (st : AppState) (uid : nat → string)
    : DB * AppState :=
  let db :=
    {| accounts := idbClear (accounts db);
       transactions := idbClear (transactions db);
       categories := idbClear (categories db);
       instruments := idbClear (instruments db);
       positions := idbClear (positions db);
       debts := idbClear (debts db);
       trades := idbClear (trades db);
       goals := idbClear (goals db);
       snapshots := idbClear (snapshots db);
       meta := idbClear (meta db) |} in
  let db := seedIfNeeded db uid in
  (db, loadCurrency db st).

(** The start of the application: [seedIfNeeded] and [loadCurrency] on the
    state of the source text. *)
Definition init (db : DB) (uid : nat → string) : DB * AppState :=
  let db := seedIfNeeded db uid in
  (db, loadCurrency db initial_state).

(** ** Dumps whose collections are in the order of their keys *)

(** The keys go up strictly along the list. *)
Definition ascending_keys {R} `{Keyed R} (l : list R) : Prop :=
  StronglySorted (λ a b, str_lt (key_of a) (key_of b) = true) l.

(** A collection of a dump that is present and in the order of its keys. *)
Definition sorted_collection {R} `{Keyed R} (c : option (list R)) : Prop :=
  match c with
  | Some l => ascending_keys l
  | None => False
  end.

Definition sorted_dump (d : Dump) : Prop :=
  sorted_collection (d_accounts d) ∧ sorted_collection (d_transactions d)
  ∧ sorted_collection (d_categories d) ∧ sorted_collection (d_instruments d)
  ∧ sorted_collection (d_positions d) ∧ sorted_collection (d_debts d)
  ∧ sorted_collection (d_trades d) ∧ sorted_collection (d_goals d)
  ∧ sorted_collection (d_snapshots d) ∧ sorted_collection (d_meta d).

(** ** The cards of [viewGoals] *)

(** [Math.round]: the integer nearest to the number, a half going up. *)
Definition Math_round (a : num) : num :=
  match a with
  | Fin q => numZ (Qfloor (q + Q2Qc (1 # 2))%Qc)
  | _ => a
  end.

Definition tag_exceeded : string := "âš ï¸ AÅŸÄ±ldÄ±".
Definition tag_near : string := "âš ï¸ YakÄ±n".
Definition tag_good : string := "âœ… Ä°yi".
Definition tag_done : string := "âœ… Tamam".
Definition tag_ongoing : string := "â³ Devam".

(** What a card of [viewGoals] shows of the numbers: the percentage of
    the line of progress, the width of the bar and the tag. *)
Record GoalCard : Type := {
  card_pct : num;
  card_pctShow : num;
  card_barPct : num;
  card_tag : string;
  card_width : num;
}.

(** [cur] of [viewGoals]: 0 for a type that is not known. *)
Definition goal_current (g : Goal) (balances : BalanceReport)
    (monthly : MonthlyPnl) : num :=
  if String.eqb (goal_type g) "cashInBank" then cashInBank balances
  else if String.eqb (goal_type g) "actualCash" then actualCash balances
  else if String.eqb (goal_type g) "investments" then investmentsCurrent balances
  else if String.eqb (goal_type g) "netWorth" then netWorth balances
  else if String.eqb (goal_type g) "monthlyExpenseCap" then expense monthly
  else numZ 0.

Definition goal_card (g : Goal) (balances : BalanceReport)
    (monthly : MonthlyPnl) : GoalCard :=
  let pct :=
    clamp (nullish (goalProgress g balances monthly) (numZ 0)) (numZ 0) (numZ 999) in
  let pctShow := Math_round pct in
  let cur := goal_current g balances monthly in
  let target := or0 (goal_targetValue g) in
  let reversed := String.eqb (goal_type g) "monthlyExpenseCap" in
  let barPct :=
    if reversed
    then clamp (num_mul (num_div cur target) (numZ 100)) (numZ 0) (numZ 999)
    else clamp (num_mul (num_div cur target) (numZ 100)) (numZ 0) (numZ 999) in
  let colorTag :=
    if reversed
    then (if num_ge barPct (numZ 100) then tag_exceeded
          else if num_ge barPct (numZ 80) then tag_near else tag_good)
    else (if num_ge barPct (numZ 100) then tag_done
          else if num_ge barPct (numZ 80) then tag_near else tag_ongoing) in
  {| card_pct := pct; card_pctShow := pctShow; card_barPct := barPct;
     card_tag := colorTag; card_width := clamp barPct (numZ 0) (numZ 100) |}.

Definition viewGoals (db : DB) (ck : Clock) (balances : BalanceReport)
    : list GoalCard :=
  let goals := idbGetAll (goals db) in
  let monthly := computeMonthlyPnl db ck in
  (λ g, goal_card g balances monthly) <$> goals.

(** ** [parseDateLoose] *)

(** What [new Date(s)] is for [toISODate] on a string: the year, the month
    (1 to 12) and the day of the date in local time, [None] for an Invalid
    Date.  This parsing is the host's. *)
Class LocalDate : Type := Date_local : string → option (Z * Z * Z).

(** [toISODate(t)] on a string. *)
Definition toISODate_string `{LocalDate} (t : string) : option string :=
  match Date_local t with
  | Some (y, m, d) => Some (toISODate y m d)
  | None => None
  end.

(** The class [[.\-/]]. *)
Definition is_date_sep (c : ascii) : bool :=
  Ascii.eqb c "." || Ascii.eqb c "-" || Ascii.eqb c "/".

(** [(\d{1,2})[.\-/]] at the start of [t]: the digits, and what follows
    the separator.  The group is greedy, and one digit less never helps:
    after a first digit comes a separator, or a second digit and then a
    separator. *)
Definition match_two_digits (t : string) : option (string * string) :=
  match t with
  | String a (String b r) =>
      if is_digit a then
        if is_date_sep b then Some (String a EmptyString, r)
        else if is_digit b then
          match r with
          | String c r' =>
              if is_date_sep c then Some (String a (String b EmptyString), r')
              else None
          | EmptyString => None
          end
        else None
      else None
  | _ => None
  end.

(** The first [n] characters of a string. *)
Fixpoint str_take (n : nat) (s : string) : string :=
  match n, s with
  | S n', String c s' => String c (str_take n' s')
  | _, _ => EmptyString
  end.

(** [(\d{2,4})] at the start of [t]: up to four digits, two at least. *)
Definition match_year (t : string) : option string :=
  let y := str_take 4 (span_digits t).1 in
  if (2 <=? String.length y)%nat then Some y else None.

(** The match of [/^(\d{1,2})[.\-/](\d{1,2})[.\-/](\d{2,4})/]: the three
    groups. *)
Definition match_day_first (t : string) : option (string * string * string) :=
  '(g1, r1) ← match_two_digits t;
  '(g2, r2) ← match_two_digits r1;
  g3 ← match_year r2;
  Some (g1, g2, g3).

(** The date that [parseDateLoose] builds from the match, if there is one;
    [parseInt] on a group of digits is its value. *)
Definition day_first_date (t : string) : option string :=
  match match_day_first t with
  | Some (g1, g2, g3) =>
      let dd := pad2 (pretty (digits_value g1)) in
      let mm := pad2 (pretty (digits_value g2)) in
      let yy := digits_value g3 in
      let yy := if bool_decide (yy < 100) then yy + 2000 else yy in
      Some (pretty yy ++ "-" ++ mm ++ "-" ++ dd)
  | None => None
  end.

(** [parseDateLoose(s)] on a string or on nothing ([undefined]); [None] is
    [null]. *)
Definition parseDateLoose `{LocalDate} (s : option string) : option string :=
  match s with
  | None => None
  | Some s =>
      if String.eqb s "" then None                     (* if (!s) return null; *)
      else
        let t := js_trim s in
        let iso := toISODate_string t in
        if str_truthy iso then iso else day_first_date t
  end.

(** ** The loop of the CSV import *)

(** What the loop takes from the host: the digest of a row, that is
    [hashString(`${date}|${amt}|${desc}|${accId}|${catId}|csv`)] as a
    function of the five values written in the text, and
    [String.prototype.toUpperCase]. *)
Class ImportHost : Type := {
  row_digest : string → num → string → string → string → string;
  toUpperCase : string → string;
}.

(** The counters [added], [skipped], [bad], the set [existingHashes], the
    store, and the number of ids that [uid()] has given. *)
Record ImportState : Type := {
  imp_db : DB;
  imp_hashes : gset string;
  imp_uids : nat;
  imp_added : nat;
  imp_skipped : nat;
  imp_bad : nat;
}.

(** [new Set((await idbGetAll("transactions")).map(t=>t.hash).filter(Boolean))] *)
Definition existingHashes (db : DB) : gset string :=
  list_to_set
    (filter (λ h, negb (String.eqb h "") = true)
       (tx_hash <$> idbGetAll (transactions db))).

Definition import_start (db : DB) : ImportState :=
  {| imp_db := db; imp_hashes := existingHashes db; imp_uids := 0;
     imp_added := 0; imp_skipped := 0; imp_bad := 0 |}.

Section csv_import.
Context `{LocalDate} `{ImportHost}.

(** What the handler reads of the page: the delimiter found in the file,
    the indices of the four selectors ([iCur] is -1 for none), the account
    and the category. *)
Record ImportForm : Type := {
  f_delim : ascii;
  f_iDate : nat;
  f_iDesc : nat;
  f_iAmt : nat;
  f_iCur : Z;
  f_accId : string;
  f_catId : string;
}.

(** One iteration of the loop over [lines.slice(1)]; [uid n] is what the
    call number [n] of [uid()] returns. *)
Definition import_row (f : ImportForm) (st : AppState) (uid : nat → string)
    (s : ImportState) (row : string) : ImportState :=
  let cols := csvSplitLine row (f_delim f) in
  let date := parseDateLoose (cols !! f_iDate f) in
  let desc := js_trim (str_or_empty (cols !! f_iDesc f)) in
  let amt := parseAmount (match cols !! f_iAmt f with
                          | Some c => InString c
                          | None => InMissing
                          end) in
  if negb (str_truthy date) || (String.eqb desc "" && negb (num_truthy amt)) then
    {| imp_db := imp_db s; imp_hashes := imp_hashes s; imp_uids := imp_uids s;
       imp_added := imp_added s; imp_skipped := imp_skipped s;
       imp_bad := S (imp_bad s) |}
  else
    let date := str_or_empty date in
    let cur :=
      if bool_decide (0 <= f_iCur f)
      then toUpperCase
             (js_trim (if str_truthy (cols !! Z.to_nat (f_iCur f))
                       then str_or_empty (cols !! Z.to_nat (f_iCur f))
                       else currency_text (currency st)))
      else currency_text (currency st) in
    let hash := row_digest date amt desc (f_accId f) (f_catId f) in
    if bool_decide (hash ∈ imp_hashes s) then
      {| imp_db := imp_db s; imp_hashes := imp_hashes s; imp_uids := imp_uids s;
         imp_added := imp_added s; imp_skipped := S (imp_skipped s);
         imp_bad := imp_bad s |}
    else
      let tx :=
        {| tx_id := uid (imp_uids s); tx_type := "normal"; tx_date := Some date;
           tx_accountId := f_accId f; tx_categoryId := Some (f_catId f);
           tx_description := desc; tx_amount := Some amt; tx_currency := cur;
           tx_hash := hash |} in
      {| imp_db := set_transactions (imp_db s) (idbPut (transactions (imp_db s)) tx);
         imp_hashes := {[ hash ]} ∪ imp_hashes s;
         imp_uids := S (imp_uids s);
         imp_added := S (imp_added s); imp_skipped := imp_skipped s;
         imp_bad := imp_bad s |}.

(** The handler of the import button on the data rows of the file. *)
Definition csv_import (f : ImportForm) (st : AppState) (uid : nat → string)
    (db : DB) (rows : list string) : ImportState :=
  foldl (import_row f st uid) (import_start db) rows.

(** The digest of a row that is not bad. *)
Definition row_hash (f : ImportForm) (row : string) : option string :=
  let cols := csvSplitLine row (f_delim f) in
  let date := parseDateLoose (cols !! f_iDate f) in
  let desc := js_trim (str_or_empty (cols !! f_iDesc f)) in
  let amt := parseAmount (match cols !! f_iAmt f with
                          | Some c => InString c
                          | None => InMissing
                          end) in
  if negb (str_truthy date) || (String.eqb desc "" && negb (num_truthy amt))
  then None
  else Some (row_digest (str_or_empty date) amt desc (f_accId f) (f_catId f)).
End csv_import.

(** The digests of the set are digests of stored records. *)
Definition hashes_stored (s : ImportState) : Prop :=
  ∀ h, h ∈ imp_hashes s → h ≠ EmptyString →
    ∃ k t, transactions (imp_db s) !! k = Some t ∧ tx_hash t = h.

(** The keys of the store are those of the store at the start and ids
    given by [uid()] since. *)
Definition keys_known (db0 : DB) (uid : nat → string) (s : ImportState) : Prop :=
  ∀ k, is_Some (transactions (imp_db s) !! k) →
    is_Some (transactions db0 !! k) ∨ ∃ i, (i < imp_uids s)%nat ∧ k = uid i.

(** A host for running the import: the digest of a row is the text of its
    values (the amount by its sign), and [toUpperCase] works on the letters
    of ASCII. *)
Definition ascii_upper (c : ascii) : ascii :=
  let n := nat_of_ascii c in
  if (97 <=? n)%nat && (n <=? 122)%nat then ascii_of_nat (n - 32) else c.

Fixpoint str_map (g : ascii → ascii) (s : string) : string :=
  match s with
  | EmptyString => EmptyString
  | String c s' => String (g c) (str_map g s')
  end.

Definition sample_import_host : ImportHost :=
  {| row_digest := λ date amt desc acc cat,
       "#" ++ date ++ "|" ++ (if num_lt amt (Fin 0%Qc) then "-" else "+")
           ++ "|" ++ desc ++ "|" ++ acc ++ "|" ++ cat;
     toUpperCase := str_map ascii_upper |}.

Definition sample_form : ImportForm :=
  {| f_delim := ";"; f_iDate := 0; f_iDesc := 1; f_iAmt := 2; f_iCur := -1;
     f_accId := "a1"; f_catId := "c1" |}.

(** The year, the month (1 to 12) and the day of the day that lies [z]
    days after 1970-01-01: the inverse of [days_from_civil]. *)
Definition civil_from_days (z : Z) : Z * Z * Z :=
  let z := z + 719468 in
  let era := z / 146097 in
  let doe := z - era * 146097 in
  let yoe := (doe - doe / 1460 + doe / 36524 - doe / 146096) / 365 in
  let doy := doe - (365 * yoe + yoe / 4 - yoe / 100) in
  let mp := (5 * doy + 2) / 153 in
  let d := doy - (153 * mp + 2) / 5 + 1 in
  let m := if bool_decide (mp < 10) then mp + 3 else mp - 9 in
  let y := yoe + era * 400 in
  (if bool_decide (m <= 2) then y + 1 else y, m, d).

(** A host, in the time zone UTC, that reads the form [YYYY-MM-DD] and no
    other text as a date. *)
Definition iso_local_date : LocalDate := λ s,
  match iso_date_parse s with
  | Some t => Some (civil_from_days (t / ms_per_day))
  | None => None
  end.

(** A host, in the time zone UTC, that reads the form [YYYY-MM-DD] and, as
    the engines of the browsers do, the form month/day/year written with
    ['/'], ['.'] or ['-'] and a year of four digits: the first number is
    the month, and a first number above 12 makes the date invalid. *)
Definition month_first_local_date : LocalDate := λ s,
  match iso_date_parse s with
  | Some t => Some (civil_from_days (t / ms_per_day))
  | None =>
      match match_day_first s with
      | Some (g1, g2, g3) =>
          let m := digits_value g1 in
          let d := digits_value g2 in
          let y := digits_value g3 in
          if bool_decide (String.length g3 = 4%nat ∧ 1 <= m <= 12 ∧ 1 <= d <= 31)
          then Some (civil_from_days (days_from_civil y m d))
          else None
      | None => None
      end
  end.

(** * Properties *)

Local Close Scope string_scope.

(** ** Numbers *)

(** Closes an equation between two closed numbers by evaluation. *)
Ltac num_eval := apply (bool_decide_unpack _); vm_compute; exact I.

Lemma num_add_comm (a b : num) : num_add a b = num_add b a.
Proof. destruct a, b; simpl; try done. f_equal; apply Qcplus_comm. Qed.

Lemma num_add_assoc (a b c : num) :
  num_add a (num_add b c) = num_add (num_add a b) c.
Proof. destruct a, b, c; simpl; try done. f_equal; apply Qcplus_assoc. Qed.

Lemma num_add_0_r (a : num) : num_add a (Fin 0%Qc) = a.
Proof. destruct a; simpl; try done. f_equal; apply Qcplus_0_r. Qed.

Lemma num_add_0_l (a : num) : num_add (Fin 0%Qc) a = a.
Proof. rewrite num_add_comm; apply num_add_0_r. Qed.

Lemma num_add_finite (a b : num) :
  Number_isFinite a = true → Number_isFinite b = true →
  Number_isFinite (num_add a b) = true.
Proof. by destruct a, b. Qed.

Lemma num_sub_finite (a b : num) :
  Number_isFinite a = true → Number_isFinite b = true →
  Number_isFinite (num_sub a b) = true.
Proof. by destruct a, b. Qed.

#[local] Arguments num_add : simpl never.
#[local] Arguments num_sub : simpl never.
#[local] Arguments num_mul : simpl never.
#[local] Arguments num_div : simpl never.

Lemma foldl_add_sum {A} (f : A → num) (l : list A) (a : num) :
  foldl (λ s x, num_add s (f x)) a l = num_add a (sum_num (f <$> l)).
Proof.
  revert a; induction l as [|x l IH]; intros a; simpl.
  - by rewrite num_add_0_r.
  - by rewrite IH, num_add_assoc.
Qed.

Lemma reduce_sum_sum {A} (f : A → num) (l : list A) :
  reduce_sum f l = sum_num (f <$> l).
Proof. unfold reduce_sum; by rewrite foldl_add_sum, num_add_0_l. Qed.

Lemma sum_num_app (l1 l2 : list num) :
  sum_num (l1 ++ l2) = num_add (sum_num l1) (sum_num l2).
Proof.
  induction l1 as [|x l1 IH]; simpl.
  - by rewrite num_add_0_l.
  - by rewrite IH, num_add_assoc.
Qed.

(** ** [computeBalances]: expected and risk-adjusted cash *)

Section balances_facts.
Context `{Host}.

(** The two tests of the filters of [computeBalances] say what the
    specification says of an open receivable due within the horizon. *)
Lemma is_open_receivable_spec (d : Debt) :
  is_open_receivable d = true ↔ Spec.open_receivable d.
Proof.
  unfold is_open_receivable, Spec.open_receivable.
  by rewrite andb_true_iff, !String.eqb_eq.
Qed.

Lemma due_within_spec (today days : Z) (d : Debt) :
  due_within (today + days * ms_per_day) d = true
  ↔ Spec.due_in_horizon today days d.
Proof.
  unfold due_within, Spec.due_in_horizon, str_truthy, str_or_empty, nullish,
    ms_per_day.
  destruct (debt_dueDate d) as [s|]; [|done].
  destruct (String.eqb_spec s "") as [->|Hs]; cbn [negb]; [by intuition|].
  destruct (Date_parse s) as [t|]; [|by intuition].
  rewrite bool_decide_eq_true. by intuition.
Qed.

Lemma due_receivable_spec st ck d :
  is_open_receivable d = true
  ∧ due_within (now ck + horizonDays st * ms_per_day) d = true
  ↔ Spec.due_receivable st ck d.
Proof.
  unfold Spec.due_receivable. by rewrite is_open_receivable_spec, due_within_spec.
Qed.

Lemma expectedIncluded_filter st ck ds :
  expectedIncluded st ck ds
  = filter (λ d, Spec.due_receivable st ck d
                 ∧ num_ge (Spec.confidence d) (includeConfidenceMin st) = true) ds.
Proof.
  unfold expectedIncluded, dueWithin, openReceivables.
  rewrite !list_filter_filter. apply list_filter_iff. intros d.
  rewrite <- due_receivable_spec. unfold Spec.confidence. tauto.
Qed.

Lemma dueWithin_filter st ck ds :
  dueWithin st ck ds = filter (Spec.due_receivable st ck) ds.
Proof.
  unfold dueWithin, openReceivables.
  rewrite list_filter_filter. apply list_filter_iff. intros d.
  rewrite <- due_receivable_spec. tauto.
Qed.
End balances_facts.



(** ** [computeBalances]: the horizon filter *)

(** C5, as amended.  An open receivable is in [dueWithin] exactly when its
    due date is absent (null, undefined or empty), or is not recognised as a
    date by [new Date], or is a date not later than today plus
    [horizonDays] days. *)
Theorem C5_due_within_horizon `{Host} (st : AppState) (ck : Clock)
    (ds : list Debt) (d : Debt) :
  d ∈ dueWithin st ck ds ↔
    d ∈ ds ∧ is_open_receivable d = true
    ∧ (str_truthy (debt_dueDate d) = false
       ∨ (∃ s, debt_dueDate d = Some s ∧ s ≠ "" ∧ Date_parse s = None)
       ∨ (∃ s t, debt_dueDate d = Some s ∧ s ≠ "" ∧ Date_parse s = Some t
                 ∧ t <= now ck + horizonDays st * ms_per_day)).
Proof.
  unfold dueWithin, openReceivables. rewrite !list_elem_of_filter.
  unfold due_within, str_truthy, str_or_empty, nullish.
  destruct (debt_dueDate d) as [s|]; [|by intuition eauto].
  destruct (String.eqb_spec s "") as [->|Hs]; simpl; [by intuition eauto|].
  destruct (Date_parse s) as [t|] eqn:Hp.
  - rewrite bool_decide_eq_true. split.
    + intros (Ht & ? & ?). repeat split; try done.
      right; right. exists s, t. done.
    + intros (? & ? & [?|[(s' & ? & ? & ?)|(s' & t' & ? & ? & ? & ?)]]);
        simplify_eq; done.
  - split; [|by intuition].
    intros (_ & ? & ?). repeat split; try done. right; left. by exists s.
Qed.

(** C5, as stated, fails on a due date that is not a date: the receivable is
    in [dueWithin] although its due date is not null and is not a date
    before the horizon. *)
Lemma C5_counterexample :
  let d := Sample.receivable "d1" (Some "someday") (numZ 200) (numZ 50) in
  is_open_receivable d = true
  ∧ debt_dueDate d = Some "someday"
  ∧ d ∈ dueWithin (H := sample_host) initial_state Sample.clock [d]
  ∧ ¬ (∃ t, Date_parse (Host := sample_host) "someday" = Some t
            ∧ t <= now Sample.clock + horizonDays initial_state * ms_per_day).
Proof.
  intros d. split; [done|]. split; [done|]. split.
  - unfold dueWithin, openReceivables.
    rewrite !filter_cons_True, filter_nil by done. by apply list_elem_of_singleton.
  - intros (t & Ht & _). vm_compute in Ht. discriminate.
Qed.

(** ** [computeBalances]: transactions of unknown accounts *)

Lemma in_bank_account_dangling (accs : list Account) (t : Transaction) :
  (∀ a, a ∈ accs → acc_id a ≠ tx_accountId t) →
  in_bank_account accs t = false.
Proof.
  intros Hd. unfold in_bank_account, js_find.
  destruct (find _ accs) as [a|] eqn:Hf; [|done].
  apply find_some in Hf as [Hin Heq].
  apply String.eqb_eq in Heq. apply list_elem_of_In in Hin.
  by destruct (Hd a Hin).
Qed.

Lemma in_bank_account_resolves (accs : list Account) (t : Transaction) :
  in_bank_account accs t = true →
  ∃ a, a ∈ accs ∧ acc_id a = tx_accountId t ∧ acc_type a = "Banka".
Proof.
  unfold in_bank_account, js_find.
  destruct (find _ accs) as [a|] eqn:Hf; [|done].
  apply find_some in Hf as [Hin Heq]. intros Ht.
  exists a. split; [by apply list_elem_of_In|].
  split; by apply String.eqb_eq.
Qed.



(** ** The period of the month and the calendar *)

Lemma digit_char_compare (i j : Z) :
  0 <= i <= 9 → 0 <= j <= 9 →
  Ascii.compare (digit_char i) (digit_char j) = (i ?= j).
Proof.
  intros Hi Hj. unfold Ascii.compare, digit_char.
  rewrite !N_ascii_embedding by lia.
  rewrite Z2N.inj_compare by lia. apply Z.add_compare_mono_l.
Qed.

Lemma fixed_digits_length (n : nat) (x : Z) :
  String.length (fixed_digits n x) = n.
Proof. revert x. induction n as [|n IH]; intros x; simpl; [done|]. by rewrite IH. Qed.

Lemma fixed_digits_compare (n : nat) (x y : Z) :
  0 <= x < 10 ^ Z.of_nat n → 0 <= y < 10 ^ Z.of_nat n →
  String.compare (fixed_digits n x) (fixed_digits n y) = (x ?= y).
Proof.
  revert x y. induction n as [|n IH]; intros x y Hx Hy.
  - simpl in *. assert (x = 0) as -> by lia. by assert (y = 0) as -> by lia.
  - rewrite Nat2Z.inj_succ, Z.pow_succ_r in Hx, Hy by lia.
    set (p := 10 ^ Z.of_nat n) in *.
    assert (Hp : 0 < p) by (apply Z.pow_pos_nonneg; lia).
    pose proof (Z.div_mod x p ltac:(lia)) as Hdx.
    pose proof (Z.div_mod y p ltac:(lia)) as Hdy.
    pose proof (Z.mod_pos_bound x p Hp) as Hrx.
    pose proof (Z.mod_pos_bound y p Hp) as Hry.
    assert (0 <= x / p <= 9) by (split; [apply Z.div_pos; lia|];
      assert (x / p < 10) by (apply Z.div_lt_upper_bound; lia); lia).
    assert (0 <= y / p <= 9) by (split; [apply Z.div_pos; lia|];
      assert (y / p < 10) by (apply Z.div_lt_upper_bound; lia); lia).
    cbn [fixed_digits String.compare]. fold p.
    rewrite digit_char_compare by done.
    rewrite (IH (x mod p) (y mod p)) by done.
    destruct (Z.compare_spec (x / p) (y / p)) as [Heq|Hlt|Hgt].
    + rewrite Hdx, Hdy at 2. rewrite Heq. symmetry. apply Z.add_compare_mono_l.
    + symmetry. apply Z.compare_lt_iff. nia.
    + symmetry. apply Z.compare_gt_iff. nia.
Qed.

Lemma compare_app_same_length (a a' b b' : string) :
  String.length a = String.length a' →
  String.compare (a +:+ b) (a' +:+ b')
  = match String.compare a a' with
    | Eq => String.compare b b'
    | r => r
    end.
Proof.
  revert a'. induction a as [|c a IH]; intros [|c' a']; try done.
  intros [= Hlen]. simpl. destruct (Ascii.compare c c'); [|done..].
  by apply IH.
Qed.

Lemma pretty_four_digits (y : Z) :
  1000 <= y <= 9999 → pretty y = fixed_digits 4 y.
Proof.
  intros Hy.
  assert (Hall : forallb (λ z, String.eqb (pretty z) (fixed_digits 4 z))
                   (seqZ 1000 9000) = true) by (vm_compute; reflexivity).
  rewrite forallb_forall in Hall. apply String.eqb_eq, Hall.
  apply list_elem_of_In, elem_of_seqZ. lia.
Qed.

Lemma pad2_two_digits (m : Z) :
  0 <= m <= 99 → pad2 (pretty m) = fixed_digits 2 m.
Proof.
  intros Hm.
  assert (Hall : forallb (λ z, String.eqb (pad2 (pretty z)) (fixed_digits 2 z))
                   (seqZ 0 100) = true) by (vm_compute; reflexivity).
  rewrite forallb_forall in Hall. apply String.eqb_eq, Hall.
  apply list_elem_of_In, elem_of_seqZ. lia.
Qed.

(** Dates in the form of [toISODate] compare as strings the way their
    years, months and days compare. *)
Lemma toISODate_compare (y m d y' m' d' : Z) :
  1000 <= y <= 9999 → 0 <= m <= 99 → 0 <= d <= 99 →
  1000 <= y' <= 9999 → 0 <= m' <= 99 → 0 <= d' <= 99 →
  String.compare (toISODate y m d) (toISODate y' m' d')
  = match y ?= y' with
    | Eq => match m ?= m' with Eq => d ?= d' | r => r end
    | r => r
    end.
Proof.
  intros Hy Hm Hd Hy' Hm' Hd'. unfold toISODate.
  rewrite (pretty_four_digits y), (pretty_four_digits y') by done.
  rewrite (pad2_two_digits m), (pad2_two_digits m'), (pad2_two_digits d),
    (pad2_two_digits d') by done.
  rewrite compare_app_same_length by (by rewrite !fixed_digits_length).
  rewrite fixed_digits_compare by (simpl; lia).
  destruct (y ?= y'); [|done..].
  change (String.compare ("-" +:+ ?a) ("-" +:+ ?b)) with (String.compare a b).
  rewrite compare_app_same_length by (by rewrite !fixed_digits_length).
  rewrite fixed_digits_compare by (simpl; lia).
  destruct (m ?= m'); [|done..].
  change (String.compare ("-" +:+ ?a) ("-" +:+ ?b)) with (String.compare a b).
  apply fixed_digits_compare; simpl; lia.
Qed.

Lemma days_in_month_bounds (y : Z) (m : nat) : 28 <= days_in_month y m <= 31.
Proof.
  unfold days_in_month.
  repeat (destruct m as [|m]; [try destruct (is_leap y); lia|]). lia.
Qed.

(** The period from [startOfMonthISO] to [endOfMonthISO] holds the dates of
    the month of the clock and no other date, for dates written by
    [toISODate] and years of four digits. *)
Lemma in_period_calendar_month (ck : Clock) (y m d : Z) :
  1000 <= year ck <= 9999 → (month ck < 12)%nat →
  1000 <= y <= 9999 → 1 <= m <= 12 →
  1 <= d <= days_in_month y (Z.to_nat (m - 1)) →
  Spec.in_period (startOfMonthISO ck) (endOfMonthISO ck) (Some (toISODate y m d))
  = true
  ↔ y = year ck ∧ m = Z.of_nat (month ck) + 1.
Proof.
  intros Hyear Hmonth Hy Hm Hd.
  pose proof (days_in_month_bounds y (Z.to_nat (m - 1))).
  pose proof (days_in_month_bounds (year ck) (month ck)).
  assert (Hstart : startOfMonthISO ck
                   = toISODate (year ck) (Z.of_nat (month ck) + 1) 1) by done.
  assert (Hend : endOfMonthISO ck
                 = toISODate (year ck) (Z.of_nat (month ck) + 1)
                     (days_in_month (year ck) (month ck))).
  { unfold endOfMonthISO. by rewrite bool_decide_eq_false_2 by lia. }
  assert (Hne : String.eqb (toISODate y m d) "" = false).
  { apply String.eqb_neq. unfold toISODate.
    rewrite (pretty_four_digits y) by done. discriminate. }
  unfold Spec.in_period. rewrite Hne, Hstart, Hend. cbn [negb andb].
  unfold str_le, String.leb. rewrite !toISODate_compare by lia.
  rewrite andb_true_iff. split.
  - destruct (Z.compare_spec (year ck) y), (Z.compare_spec y (year ck));
      try lia; [|by intros [? ?]..].
    destruct (Z.compare_spec (Z.of_nat (month ck) + 1) m),
      (Z.compare_spec m (Z.of_nat (month ck) + 1)); try lia;
      by intros [? ?].
  - intros [-> ->]. rewrite !Z.compare_refl.
    replace (Z.to_nat (Z.of_nat (month ck) + 1 - 1)) with (month ck) in Hd by lia.
    split.
    + destruct (Z.compare_spec 1 d); [done|done|lia].
    + destruct (Z.compare_spec d (days_in_month (year ck) (month ck)));
        [done|done|lia].
Qed.

(** ** [computeMonthlyPnl] *)

Lemma str_lt_not_le (a b : string) : str_lt a b = negb (str_le b a).
Proof.
  unfold str_lt, str_le, String.ltb, String.leb.
  rewrite (String.compare_antisym a b). by destruct (String.compare b a).
Qed.

Lemma or0_not_nan (x : option num) : or0 x ≠ NaN.
Proof.
  destruct x as [[q| | |]|]; simpl; try done.
  by destruct (negb _).
Qed.

Lemma num_lt_0_not_ge (a : num) :
  a ≠ NaN → num_ge a (Fin 0%Qc) = false ↔ num_lt a (Fin 0%Qc) = true.
Proof.
  destruct a as [q| | |]; simpl; try done. intros _.
  rewrite bool_decide_eq_false, bool_decide_eq_true. split.
  - apply Qcnot_le_lt.
  - apply Qclt_not_le.
Qed.

Lemma pnl_counted_row (ck : Clock) (t : Transaction) :
  pnl_counted (startOfMonthISO ck) (endOfMonthISO ck) t = true ↔ Spec.pnl_row ck t.
Proof.
  unfold pnl_counted, Spec.pnl_row, Spec.in_period, str_truthy, str_or_empty, nullish.
  destruct (tx_date t) as [s|]; simpl.
  - rewrite !str_lt_not_le, negb_orb, !negb_involutive, !andb_true_iff.
    rewrite !negb_true_iff, !String.eqb_neq. tauto.
  - split; [done|]. by intros [? _].
Qed.

Lemma pnl_step_counted (s e : string) (acc : num * num) (t : Transaction) :
  pnl_step s e acc t
  = if pnl_counted s e t
    then (if num_ge (or0 (tx_amount t)) (Fin 0%Qc)
          then (num_add acc.1 (or0 (tx_amount t)), acc.2)
          else (acc.1, num_add acc.2 (num_abs (or0 (tx_amount t)))))
    else acc.
Proof.
  destruct acc as [i x]. unfold pnl_step, pnl_counted.
  destruct (str_truthy (tx_date t)); simpl; [|done].
  destruct (_ || _); simpl; [done|].
  by destruct (String.eqb (tx_type t) "transfer").
Qed.

Lemma pnl_foldl (ck : Clock) (txs : list Transaction) (i x : num) :
  foldl (pnl_step (startOfMonthISO ck) (endOfMonthISO ck)) (i, x) txs
  = (num_add i
       (sum_num ((λ t, or0 (tx_amount t)) <$>
          filter (λ t, Spec.pnl_row ck t
                       ∧ num_ge (or0 (tx_amount t)) (Fin 0%Qc) = true) txs)),
     num_add x
       (sum_num ((λ t, num_abs (or0 (tx_amount t))) <$>
          filter (λ t, Spec.pnl_row ck t
                       ∧ num_lt (or0 (tx_amount t)) (Fin 0%Qc) = true) txs))).
Proof.
  revert i x; induction txs as [|t txs IH]; intros i x.
  - simpl. by rewrite !num_add_0_r.
  - cbn [foldl]. rewrite pnl_step_counted. cbn [fst snd].
    destruct (pnl_counted _ _ t) eqn:Hc.
    + apply pnl_counted_row in Hc.
      destruct (num_ge (or0 (tx_amount t)) (Fin 0%Qc)) eqn:Hge.
      * rewrite IH. rewrite (filter_cons_True _ t) by done.
        rewrite (filter_cons_False _ t).
        -- rewrite fmap_cons. cbn [sum_num foldr]. by rewrite num_add_assoc.
        -- intros [_ Hlt]. apply num_lt_0_not_ge in Hlt; [congruence|].
           apply or0_not_nan.
      * rewrite IH. rewrite (filter_cons_False _ t) by (intros [_ ?]; congruence).
        rewrite (filter_cons_True _ t).
        -- rewrite fmap_cons. cbn [sum_num foldr]. by rewrite num_add_assoc.
        -- split; [done|]. apply num_lt_0_not_ge; [apply or0_not_nan|done].
    + rewrite IH.
      rewrite !(filter_cons_False _ t); [done|..];
        intros [Hr _]; apply pnl_counted_row in Hr; congruence.
Qed.



(** ** [parseAmount] *)

Lemma space_not_amount_char (c : ascii) : is_space c = true → amount_char c = false.
Proof.
  destruct c as [[] [] [] [] [] [] [] []]; vm_compute; congruence.
Qed.

Lemma str_filter_trim_start (p : ascii → bool) (s : string) :
  (∀ c, is_space c = true → p c = false) →
  str_filter p (trim_start s) = str_filter p s.
Proof.
  intros Hp. induction s as [|c s IH]; [done|]. simpl.
  destruct (is_space c) eqn:Hc; [|done]. by rewrite (Hp c Hc).
Qed.

Lemma str_filter_trim_end (p : ascii → bool) (s : string) :
  (∀ c, is_space c = true → p c = false) →
  str_filter p (trim_end s) = str_filter p s.
Proof.
  intros Hp. induction s as [|c s IH]; [done|]. simpl.
  rewrite <- IH. destruct (trim_end s) as [|c' r]; [|done].
  destruct (is_space c) eqn:Hc; [|done]. simpl. by rewrite (Hp c Hc).
Qed.

Lemma str_filter_trim (s : string) :
  str_filter amount_char (js_trim s) = str_filter amount_char s.
Proof.
  unfold js_trim.
  rewrite str_filter_trim_end, str_filter_trim_start;
    auto using space_not_amount_char.
Qed.

Lemma str_filter_id (p : ascii → bool) (s : string) :
  str_forallb p s = true → str_filter p s = s.
Proof.
  induction s as [|c s IH]; [done|]. simpl.
  intros [Hc Hs]%andb_true_iff. by rewrite Hc, IH.
Qed.

Lemma str_filter_app (p : ascii → bool) (s1 s2 : string) :
  str_filter p (s1 +:+ s2) = str_filter p s1 +:+ str_filter p s2.
Proof.
  induction s1 as [|c s1 IH]; [done|]. simpl.
  destruct (p c); simpl; by rewrite IH.
Qed.

Lemma str_filter_filter (p q : ascii → bool) (s : string) :
  str_filter p (str_filter q s) = str_filter (λ c, q c && p c) s.
Proof.
  induction s as [|c s IH]; [done|]. simpl.
  destruct (q c); simpl; [destruct (p c)|]; by rewrite IH.
Qed.

Lemma str_filter_ext (p q : ascii → bool) (s : string) :
  (∀ c, p c = q c) → str_filter p s = str_filter q s.
Proof.
  intros Hpq. induction s as [|c s IH]; [done|]. simpl. by rewrite Hpq, IH.
Qed.

(** The two classes of characters of the specification are those of the
    regular expressions of [parseAmount]. *)
Lemma kept_amount_char (c : ascii) : Spec.kept c = amount_char c.
Proof. destruct c as [[] [] [] [] [] [] [] []]; vm_compute; reflexivity. Qed.

Lemma separator_is_sep (c : ascii) : Spec.separator c = is_sep c.
Proof. destruct c as [[] [] [] [] [] [] [] []]; vm_compute; reflexivity. Qed.

Lemma str_filter_kept (s : string) :
  str_filter Spec.kept s = str_filter amount_char s.
Proof. apply str_filter_ext, kept_amount_char. Qed.

Lemma drop_seps_code (s : string) :
  Spec.drop_seps s = str_filter (λ x, negb (is_sep x)) s.
Proof. apply str_filter_ext. intros c. by rewrite separator_is_sep. Qed.

Lemma split_last_sep_cons (c : ascii) (t : string) :
  Spec.split_last_sep (String c t)
  = match Spec.split_last_sep t with
    | Some (b, a) => Some (String c b, a)
    | None => if is_sep c then Some (EmptyString, t) else None
    end.
Proof. cbn [Spec.split_last_sep]. by rewrite separator_is_sep. Qed.

Lemma split_last_sep_Some (t b a : string) :
  Spec.split_last_sep t = Some (b, a) →
  ∃ c, is_sep c = true ∧ t = b +:+ String c a
       ∧ str_forallb (λ x, negb (is_sep x)) a = true.
Proof.
  revert b. induction t as [|x t IH]; intros b; [done|].
  rewrite split_last_sep_cons.
  destruct (Spec.split_last_sep t) as [[b' a']|] eqn:Ht.
  - intros [= <- <-]. destruct (IH b' eq_refl) as (c & Hc & -> & Ha).
    by exists c.
  - destruct (is_sep x) eqn:Hx; [|done]. intros [= <- <-].
    exists x. repeat split; [done|].
    clear IH Hx. induction t as [|y t IH]; [done|].
    rewrite split_last_sep_cons in Ht. cbn [str_forallb].
    destruct (Spec.split_last_sep t) as [[? ?]|]; [done|].
    destruct (is_sep y); [done|]. by apply IH.
Qed.

Lemma split_last_sep_None (t : string) :
  Spec.split_last_sep t = None → str_forallb (λ x, negb (is_sep x)) t = true.
Proof.
  induction t as [|y t IH]; [done|]. rewrite split_last_sep_cons.
  cbn [str_forallb].
  destruct (Spec.split_last_sep t) as [[? ?]|]; [done|].
  destruct (is_sep y); [done|]. intros _. by apply IH.
Qed.

Lemma no_sep_no_char (c : ascii) (s : string) :
  is_sep c = true →
  str_forallb (λ x, negb (is_sep x)) s = true →
  str_forallb (λ x, negb (Ascii.eqb x c)) s = true.
Proof.
  intros Hc. induction s as [|x s IH]; [done|]. simpl.
  intros [Hx Hs]%andb_true_iff. rewrite (IH Hs), andb_true_r.
  destruct (Ascii.eqb_spec x c) as [->|]; [|done]. by rewrite Hc in Hx.
Qed.

Lemma lastIndexOf_from_absent (c : ascii) (s : string) (i acc : Z) :
  str_forallb (λ x, negb (Ascii.eqb x c)) s = true →
  lastIndexOf_from c s i acc = acc.
Proof.
  revert i acc. induction s as [|x s IH]; intros i acc; [done|]. simpl.
  intros [Hx Hs]%andb_true_iff. rewrite IH by done.
  by destruct (Ascii.eqb x c).
Qed.

Lemma lastIndexOf_from_app (c : ascii) (s1 s2 : string) (i acc : Z) :
  lastIndexOf_from c (s1 +:+ s2) i acc
  = lastIndexOf_from c s2 (i + Z.of_nat (String.length s1))
      (lastIndexOf_from c s1 i acc).
Proof.
  revert i acc. induction s1 as [|x s1 IH]; intros i acc.
  - simpl. by rewrite Z.add_0_r.
  - simpl String.append. simpl lastIndexOf_from. rewrite IH.
    f_equal. simpl String.length. lia.
Qed.

Lemma lastIndexOf_from_bound (c : ascii) (s : string) (i acc : Z) :
  acc < i → lastIndexOf_from c s i acc < i + Z.of_nat (String.length s).
Proof.
  revert i acc. induction s as [|x s IH]; intros i acc Hacc.
  - simpl. lia.
  - simpl lastIndexOf_from. simpl String.length.
    specialize (IH (i + 1) (if Ascii.eqb x c then i else acc)).
    destruct (Ascii.eqb x c); lia.
Qed.

(** The last separator of [b ++ c :: a] is found by [lastIndexOf] at the
    length of [b], and the other separator before it or nowhere. *)
Lemma lastIndexOf_last_sep (c c' : ascii) (b a : string) :
  str_forallb (λ x, negb (Ascii.eqb x c)) a = true →
  str_forallb (λ x, negb (Ascii.eqb x c')) a = true →
  c ≠ c' →
  lastIndexOf c (b +:+ String c a) = Z.of_nat (String.length b)
  ∧ lastIndexOf c' (b +:+ String c a) < Z.of_nat (String.length b).
Proof.
  intros Ha Ha' Hne. unfold lastIndexOf. rewrite !lastIndexOf_from_app.
  cbn [lastIndexOf_from]. rewrite Ascii.eqb_refl.
  rewrite !lastIndexOf_from_absent by done.
  destruct (Ascii.eqb_spec c c') as [?|_]; [done|].
  split; [lia|]. pose proof (lastIndexOf_from_bound c' b 0 (-1)). lia.
Qed.

Lemma split_nonempty (c : ascii) (s : string) : split c s ≠ [].
Proof.
  destruct s as [|x s]; [done|]. simpl.
  destruct (Ascii.eqb x c); [done|]. by destruct (split c s).
Qed.

Lemma split_app_sep (c : ascii) (b a : string) :
  split c (b +:+ String c a) = split c b ++ split c a.
Proof.
  induction b as [|x b IH].
  - simpl. by rewrite Ascii.eqb_refl.
  - simpl String.append. simpl split. rewrite IH.
    destruct (Ascii.eqb x c); [done|].
    pose proof (split_nonempty c b). by destruct (split c b).
Qed.

Lemma split_absent (c : ascii) (s : string) :
  str_forallb (λ x, negb (Ascii.eqb x c)) s = true → split c s = [s].
Proof.
  induction s as [|x s IH]; [done|]. simpl.
  intros [Hx Hs]%andb_true_iff. rewrite (IH Hs).
  by destruct (Ascii.eqb x c).
Qed.

Lemma join_split (c : ascii) (s : string) :
  join_empty (split c s) = str_filter (λ x, negb (Ascii.eqb x c)) s.
Proof.
  induction s as [|x s IH]; [done|]. simpl.
  destruct (Ascii.eqb x c); simpl; [done|].
  pose proof (split_nonempty c s). destruct (split c s) as [|p ps]; [done|].
  unfold join_empty in *. simpl in *. by rewrite <- IH.
Qed.

Lemma drop_seps_after_char (c : ascii) (s : string) :
  is_sep c = true →
  str_filter (λ x, negb (is_sep x)) (str_filter (λ x, negb (Ascii.eqb x c)) s)
  = Spec.drop_seps s.
Proof.
  intros Hc. rewrite drop_seps_code, str_filter_filter.
  apply str_filter_ext. intros x.
  destruct (Ascii.eqb_spec x c) as [->|]; [|done]. by rewrite Hc.
Qed.

(** The text that [parseAmount] hands to [Number] is the normalized text of
    the specification. *)
Lemma parseAmount_string_spec (s : string) :
  parseAmount_string s = Spec.parseAmount s.
Proof.
  unfold parseAmount_string, Spec.parseAmount, Spec.normalize.
  destruct (String.eqb_spec s "") as [->|_]; [done|].
  rewrite str_filter_trim, str_filter_kept. set (t := str_filter amount_char s).
  destruct (Spec.split_last_sep t) as [[b a]|] eqn:Hsp.
  - apply split_last_sep_Some in Hsp as (c & Hc & Ht & Ha).
    assert (Hdot := no_sep_no_char "." a eq_refl Ha).
    assert (Hcomma := no_sep_no_char "," a eq_refl Ha).
    assert (Hcase : c = "."%char ∨ c = ","%char).
    { unfold is_sep in Hc. apply orb_true_iff in Hc as [Hc|Hc];
        apply Ascii.eqb_eq in Hc; auto. }
    assert (Hparts : ∀ sep, sep = c →
      (let '(frac, parts) := pop (split sep t) in
       str_filter (λ x, negb (is_sep x)) (join_empty parts)
       +:+ "." +:+ nullish frac "undefined")
      = Spec.drop_seps b +:+ "." +:+ Spec.drop_seps a).
    { intros sep ->. unfold pop. rewrite Ht, split_app_sep.
      rewrite (split_absent c a) by (destruct Hcase as [->| ->]; done).
      rewrite last_snoc, removelast_last, join_split. cbn [nullish].
      rewrite drop_seps_after_char by done.
      by rewrite (drop_seps_code a), (str_filter_id _ a). }
    destruct Hcase as [-> | ->].
    + destruct (lastIndexOf_last_sep "." "," b a) as [Hd Hc']; [done..|].
      rewrite <- Ht in Hd, Hc'.
      rewrite bool_decide_eq_true_2 by lia. by rewrite (Hparts "."%char).
    + destruct (lastIndexOf_last_sep "," "." b a) as [Hd Hc']; [done..|].
      rewrite <- Ht in Hd, Hc'.
      rewrite bool_decide_eq_false_2 by lia.
      rewrite bool_decide_eq_true_2 by lia. by rewrite (Hparts ","%char).
  - apply split_last_sep_None in Hsp.
    unfold lastIndexOf.
    rewrite !lastIndexOf_from_absent by (by apply no_sep_no_char).
    rewrite bool_decide_eq_false_2 by lia. cbn zeta.
    by rewrite (str_filter_id _ t).
Qed.

Lemma str_filter_idem (p : ascii → bool) (s : string) :
  str_filter p (str_filter p s) = str_filter p s.
Proof.
  rewrite str_filter_filter. apply str_filter_ext. intros c. by destruct (p c).
Qed.

(** C3.  On every string, [parseAmount] strips the characters other than
    the ten digits, ['.'], [','], ['+'] and ['-'], takes the last ['.'] or
    [','] of what is left as the decimal separator and drops every other
    occurrence of both, and parses the result (0 when that fails); the
    characters that are stripped do not count.  So
    [parseAmount("1.234,56")] and [parseAmount("1,234.56")] are 1234.56,
    [parseAmount("")] is 0 and [parseAmount("-12,50")] is -12.5; and a
    currency, a space between the groups or a letter among the digits
    changes nothing. *)
Theorem C3_parseAmount_last_separator :
  (∀ s, parseAmount (InString s) = Spec.parseAmount s)
  ∧ (∀ s, parseAmount (InString s)
          = parseAmount (InString (str_filter Spec.kept s)))
  ∧ parseAmount (InString "1.234,56") = numQ 123456 100
  ∧ parseAmount (InString "1,234.56") = numQ 123456 100
  ∧ parseAmount (InString "") = numZ 0
  ∧ parseAmount (InString "-12,50") = numQ (-125) 10
  ∧ parseAmount (InString "EUR 1.234,56") = numQ 123456 100
  ∧ parseAmount (InString " $1,234.56 ") = numQ 123456 100
  ∧ parseAmount (InString "1 234,5 TL") = numQ 12345 10
  ∧ parseAmount (InString "x1y2z") = numZ 12
  ∧ parseAmount (InString "abc") = numZ 0.
Proof.
  split; [apply parseAmount_string_spec|]. split.
  { intros s. cbn [parseAmount]. rewrite !parseAmount_string_spec.
    unfold Spec.parseAmount, Spec.normalize. by rewrite str_filter_idem. }
  repeat split; num_eval.
Qed.

Lemma str_forallb_filter (p : ascii → bool) (s : string) :
  str_forallb p (str_filter p s) = true.
Proof.
  induction s as [|c s IH]; [done|]. simpl.
  destruct (p c) eqn:Hc; [|done]. simpl. by rewrite Hc.
Qed.

Lemma str_forallb_app (p : ascii → bool) (s1 s2 : string) :
  str_forallb p (s1 +:+ s2) = str_forallb p s1 && str_forallb p s2.
Proof.
  induction s1 as [|c s1 IH]; [done|]. simpl. by rewrite IH, andb_assoc.
Qed.

Lemma str_forallb_filter_and (p q : ascii → bool) (s : string) :
  str_forallb p s = true →
  str_forallb (λ c, p c && q c) (str_filter q s) = true.
Proof.
  induction s as [|c s IH]; [done|]. simpl.
  intros [Hc Hs]%andb_true_iff. destruct (q c) eqn:Hq; [|by apply IH].
  simpl. by rewrite Hc, Hq, IH.
Qed.

Lemma str_forallb_impl (p q : ascii → bool) (s : string) :
  (∀ c, p c = true → q c = true) →
  str_forallb p s = true → str_forallb q s = true.
Proof.
  intros Hpq. induction s as [|c s IH]; [done|]. simpl.
  intros [Hc Hs]%andb_true_iff. by rewrite (Hpq c Hc), IH.
Qed.

(** [Number] is only ever applied by [parseAmount] to a string of digits,
    ['.'], ['+'] and ['-']. *)
Lemma parseAmount_Number_argument (s : string) :
  str_forallb literal_char (Spec.normalize s) = true.
Proof.
  unfold Spec.normalize. rewrite str_filter_kept.
  pose proof (str_forallb_filter amount_char s) as Ht.
  set (t := str_filter amount_char s) in *.
  assert (Hdrop : ∀ u, str_forallb amount_char u = true →
                       str_forallb literal_char (Spec.drop_seps u) = true).
  { intros u Hu. rewrite drop_seps_code. eapply str_forallb_impl;
      [|apply (str_forallb_filter_and amount_char), Hu].
    intros c. unfold amount_char, literal_char, is_sep. cbv beta.
    destruct (is_digit c), (Ascii.eqb c "."), (Ascii.eqb c ","),
      (Ascii.eqb c "-"), (Ascii.eqb c "+"); done. }
  destruct (Spec.split_last_sep t) as [[b a]|] eqn:Hsp.
  - apply split_last_sep_Some in Hsp as (c & Hc & Heq & Ha).
    rewrite Heq, str_forallb_app in Ht. simpl in Ht.
    apply andb_true_iff in Ht as [Hb [_ Ha']%andb_true_iff].
    rewrite !str_forallb_app. simpl. by rewrite !Hdrop.
  - apply split_last_sep_None in Hsp.
    rewrite <- (str_filter_id _ t Hsp), <- drop_seps_code. by apply Hdrop.
Qed.

(** C6, as amended.  On a string, and on a missing value, [parseAmount]
    returns a finite number: a text that [Number] does not read as a finite
    number (unparseable, or too large for a double) normalizes to 0.  A
    number is returned as it is. *)
Theorem C6_parseAmount_finite_on_strings :
  (∀ s, Number_isFinite (parseAmount (InString s)) = true)
  ∧ (∀ s, Number_isFinite (Number (Spec.normalize s)) = false →
          parseAmount (InString s) = numZ 0)
  ∧ parseAmount InMissing = numZ 0
  ∧ (∀ n, parseAmount (InNumber n) = n).
Proof.
  split; [|split; [|split]].
  - intros s. cbn [parseAmount]. rewrite parseAmount_string_spec.
    unfold Spec.parseAmount.
    by destruct (Number_isFinite (Number (Spec.normalize s))) eqn:Hf.
  - intros s Hf. cbn [parseAmount]. rewrite parseAmount_string_spec.
    unfold Spec.parseAmount. rewrite Hf. num_eval.
  - num_eval.
  - done.
Qed.

Lemma C6_witness :
  Number (Spec.normalize "1-2") = NaN ∧ parseAmount (InString "1-2") = numZ 0.
Proof.
  split; [num_eval|].
  apply (proj1 (proj2 C6_parseAmount_finite_on_strings) "1-2").
  vm_compute. reflexivity.
Defined.

(** A literal beyond the range of doubles: 1 followed by 309 zeros. *)
Example parseAmount_overflow :
  let s := String "1" (String.concat "" (replicate 309 "0")) in
  Number s = PInf ∧ parseAmount (InString s) = numZ 0.
Proof. split; num_eval. Qed.

(** C6, as stated, fails on a number: NaN is returned as it is, neither
    finite nor normalized to 0. *)
Lemma C6_counterexample :
  parseAmount (InNumber NaN) = NaN
  ∧ Number_isFinite (parseAmount (InNumber NaN)) = false
  ∧ parseAmount (InNumber PInf) = PInf
  ∧ Number_isFinite (parseAmount (InNumber PInf)) = false.
Proof. done. Qed.

(** ** Win rate and goal progress *)

Lemma num_of_nat_0 (n : nat) : num_of_nat n = Fin 0%Qc ↔ n = 0%nat.
Proof.
  unfold num_of_nat, numZ. rewrite <- Z2Qc_inj_0. split.
  - intros [= Hn]. lia.
  - by intros ->.
Qed.

Lemma goalProgress_zero_target (g : Goal) (b : BalanceReport)
    (m : MonthlyPnl) :
  goal_targetValue g = Some (numZ 0) →
  goalProgress g b m
  = if bool_decide (goal_type g ∈ Spec.goal_types) then Some (numZ 0) else None.
Proof.
  intros Ht. unfold goalProgress. rewrite Ht.
  change (num_truthy (numZ 0)) with false. cbv iota.
  unfold Spec.goal_types.
  repeat match goal with
  | |- context [String.eqb (goal_type g) ?s] =>
      destruct (String.eqb_spec (goal_type g) s) as [Heq|?];
      [rewrite Heq; reflexivity|]
  end.
  rewrite bool_decide_eq_false_2; [done|].
  rewrite !elem_of_cons, elem_of_nil. tauto.
Qed.

(** C7.  No division by zero escapes: [winRate] is [wins/total × 100] when
    there are trades and 0 when there is none, and is finite either way; on
    a goal whose target is zero, a percentage that [goalProgress] returns
    is 0, never NaN or an infinity, and it returns one for each of the five
    types of goal of the data model.  (For a type outside them it returns
    [null], as it does whatever the target.) *)
Theorem C7_no_division_by_zero `{Host} :
  (∀ ck trades,
     let s := tradeStats ck trades in
     (total s ≠ 0%nat →
      winRate s
      = num_mul (num_div (num_of_nat (wins s)) (num_of_nat (total s))) (numZ 100))
     ∧ (total s = 0%nat → winRate s = numZ 0)
     ∧ Number_isFinite (winRate s) = true)
  ∧ (∀ g b m,
       goal_targetValue g = Some (numZ 0) →
       (∀ pct, goalProgress g b m = Some pct → pct = numZ 0)
       ∧ (goal_type g ∈ Spec.goal_types → goalProgress g b m = Some (numZ 0))
       ∧ (goal_type g ∉ Spec.goal_types → goalProgress g b m = None)).
Proof.
  split.
  - intros ck trades s. unfold s, tradeStats. cbn [total wins winRate].
    set (month := filter _ trades).
    destruct (Nat.eqb_spec (length month) 0) as [H0|Hn]; cbn [negb].
    + repeat split; done.
    + repeat split; [done|].
      unfold num_div, num_of_nat at 2, numZ.
      rewrite bool_decide_eq_false_2; [done|].
      intros Hz. apply Hn. apply num_of_nat_0.
      unfold num_of_nat, numZ. by rewrite Hz.
  - intros g b m Ht. rewrite (goalProgress_zero_target g b m Ht).
    split; [|split].
    + intros pct. by destruct (bool_decide _); [intros [= <-]|].
    + intros Hin. by rewrite bool_decide_eq_true_2.
    + intros Hin. by rewrite bool_decide_eq_false_2.
Qed.

Lemma C7_witness :
  let trades := [Sample.trade "r1" "2024-03-04" "win" (numZ 2);
                 Sample.trade "r2" "2024-03-05" "loss" (numZ (-1))] in
  winRate (tradeStats (H := sample_host) Sample.clock trades) = numZ 50
  ∧ winRate (tradeStats (H := sample_host) Sample.clock []) = numZ 0
  ∧ ∀ b m,
      Forall (λ type, goalProgress (Sample.goal "g1" type (Some (numZ 0))
                                      "active" None) b m = Some (numZ 0))
        Spec.goal_types.
Proof.
  intros trades.
  destruct (C7_no_division_by_zero (H := sample_host)) as [Hw Hg].
  split; [|split].
  - destruct (Hw Sample.clock trades) as (Hr & _ & _).
    etrans; [apply Hr; vm_compute; discriminate|]. num_eval.
  - destruct (Hw Sample.clock []) as (_ & Hr & _). apply Hr. reflexivity.
  - intros b m. apply Forall_forall. intros type Hin.
    apply Hg; [reflexivity|exact Hin].
Defined.

(** A goal of a type that the data model does not have: [goalProgress] is
    [null], whatever the target. *)
Example goalProgress_unknown_type :
  let g := Sample.goal "g1" "savings" (Some (numZ 0)) "active" None in
  ∀ b m, goalProgress g b m = None.
Proof. intros g b m. done. Qed.

(** ** The alert pass *)

Lemma num_lt_negb_le (a b : num) :
  a ≠ NaN → b ≠ NaN → num_lt a b = negb (num_le b a).
Proof.
  destruct a as [x| | |], b as [y| | |]; simpl; try done. intros _ _.
  destruct (decide (x < y)%Qc) as [Hlt|Hnlt].
  - rewrite bool_decide_eq_true_2 by done.
    rewrite bool_decide_eq_false_2; [done|]. by apply Qclt_not_le.
  - rewrite bool_decide_eq_false_2 by done.
    rewrite bool_decide_eq_true_2; [done|]. by apply Qcnot_lt_le.
Qed.

Section alerts_facts.
Context `{Host}.

(** The test of the loop on the end date is the one of the
    specification. *)
Lemma ended_before_code (now_ : Z) (g : Goal) :
  str_truthy (goal_endDate g)
  && match Date_parse (str_or_empty (goal_endDate g)) with
     | Some ed => bool_decide (ed < now_)
     | None => false
     end
  = bool_decide (Spec.ended_before now_ g).
Proof.
  case_bool_decide as He; unfold Spec.ended_before in He;
    unfold str_truthy, str_or_empty, nullish;
    destruct (goal_endDate g) as [s|]; try done.
  - destruct He as [Hs Hd]. rewrite (proj2 (String.eqb_neq _ _) Hs).
    destruct (Date_parse s) as [ed|]; [|done].
    by rewrite bool_decide_eq_true_2.
  - destruct (String.eqb_spec s "") as [->|Hs]; [done|]. cbn [negb andb].
    destruct (Date_parse s) as [ed|]; [|done].
    apply bool_decide_eq_false. tauto.
Qed.

Lemma kind_of_cases (g : Goal) :
  (goal_type g = "monthlyExpenseCap"%string ∧ Spec.kind_of g = Warning)
  ∨ (goal_type g ≠ "monthlyExpenseCap"%string ∧ Spec.kind_of g = Notice).
Proof.
  unfold Spec.kind_of.
  destruct (decide (goal_type g = "monthlyExpenseCap"%string)); auto.
Qed.

Lemma alerts_step_alert_of (b : BalanceReport) (m : MonthlyPnl) (now_ : Z)
    (alerts : list Alert) (g : Goal) :
  alerts_step b m now_ alerts g
  = alerts ++ option_list (if decide (Spec.considered now_ g)
                           then Spec.alert_of b m g else None).
Proof.
  unfold alerts_step. rewrite ended_before_code.
  destruct (String.eqb_spec (goal_status g) "archived") as [Ha|Ha].
  { rewrite decide_False; [by rewrite app_nil_r|]. by intros [? _]. }
  destruct (decide (Spec.ended_before now_ g)) as [He|He].
  { rewrite bool_decide_eq_true_2 by done.
    rewrite decide_False; [by rewrite app_nil_r|]. by intros [_ ?]. }
  rewrite bool_decide_eq_false_2 by done.
  rewrite decide_True by done.
  unfold Spec.alert_of.
  destruct (goalProgress g b m) as [pct|]; [|by rewrite app_nil_r].
  destruct (kind_of_cases g) as [[Ht Hk]|[Ht Hk]].
  - rewrite (proj2 (String.eqb_eq _ _) Ht).
    destruct (decide (Spec.raises g pct)) as [Hr|Hr];
      unfold Spec.raises in Hr; rewrite Hk in Hr.
    + by rewrite Hr, Hk.
    + apply not_true_is_false in Hr. by rewrite Hr, app_nil_r.
  - rewrite (proj2 (String.eqb_neq _ _) Ht).
    destruct (decide (Spec.raises g pct)) as [Hr|Hr];
      unfold Spec.raises in Hr; rewrite Hk in Hr.
    + by rewrite Hr, Hk.
    + apply not_false_is_true in Hr. by rewrite Hr, app_nil_r.
Qed.

Lemma alerts_of_qualifying (b : BalanceReport) (m : MonthlyPnl) (now_ : Z)
    (gs : list Goal) :
  alerts_of b m now_ gs = Spec.qualifying b m now_ gs.
Proof.
  unfold alerts_of, Spec.qualifying.
  change (omap _ gs) with ([] ++ omap (λ g, if decide (Spec.considered now_ g)
                                 then Spec.alert_of b m g else None) gs).
  generalize (@nil Alert) as acc.
  induction gs as [|g gs IH]; intros acc.
  - simpl. by rewrite app_nil_r.
  - cbn [foldl]. rewrite alerts_step_alert_of, IH.
    rewrite <- app_assoc. f_equal. cbn [omap list_omap].
    by destruct (if decide (Spec.considered now_ g) then _ else _).
Qed.

Lemma alert_of_Some (b : BalanceReport) (m : MonthlyPnl) (g : Goal) (a : Alert) :
  Spec.alert_of b m g = Some a ↔
  ∃ pct, goalProgress g b m = Some pct ∧ Spec.raises g pct
         ∧ a = {| alert_kind_of := Spec.kind_of g; alert_goal := g;
                  alert_pct := pct |}.
Proof.
  unfold Spec.alert_of. destruct (goalProgress g b m) as [pct|].
  - destruct (decide (Spec.raises g pct)) as [Hr|Hr].
    + split; [intros [= <-]; by exists pct|].
      by intros (pct' & [= <-] & _ & ->).
    + split; [done|]. by intros (pct' & [= <-] & ? & _).
  - split; [done|]. by intros (pct' & ? & _).
Qed.

Lemma qualifying_goals_sublist (b : BalanceReport) (m : MonthlyPnl) (now_ : Z)
    (gs : list Goal) :
  alert_goal <$> Spec.qualifying b m now_ gs `sublist_of` gs.
Proof.
  unfold Spec.qualifying. induction gs as [|g gs IH]; [done|].
  cbn [omap list_omap].
  destruct (if decide (Spec.considered now_ g) then _ else _) as [a|] eqn:Ha.
  - assert (alert_goal a = g) as <-.
    { destruct (decide (Spec.considered now_ g)); [|done].
      apply alert_of_Some in Ha as (pct & _ & _ & ->). done. }
    rewrite fmap_cons. by apply sublist_skip.
  - by apply sublist_cons.
Qed.
End alerts_facts.

(** *** Percentages are numbers when the stored amounts are finite *)

Lemma reduce_sum_finite {A} (f : A → num) (l : list A) :
  Forall (λ x, Number_isFinite (f x) = true) l →
  Number_isFinite (reduce_sum f l) = true.
Proof.
  unfold reduce_sum. generalize (eq_refl : Number_isFinite (Fin 0%Qc) = true).
  generalize (Fin 0%Qc) as a. intros a Ha Hl. revert a Ha.
  induction Hl as [|x l Hx _ IH]; intros a Ha; [done|].
  cbn [foldl]. apply IH. by apply num_add_finite.
Qed.

Lemma idbGetAll_Forall {R} `{Keyed R} (P : R → Prop) (st : gmap string R) :
  map_Forall (λ _ r, P r) st → Forall P (idbGetAll st).
Proof.
  intros Hst. unfold idbGetAll. apply Forall_forall.
  intros r ((k & r') & -> & Hin)%list_elem_of_fmap.
  rewrite merge_sort_Permutation in Hin.
  apply elem_of_map_to_list in Hin. by apply (Hst k r').
Qed.

Lemma Forall_filter_weaken {A} (P : A → Prop) (Q : A → Prop)
    `{∀ x, Decision (Q x)} (l : list A) :
  Forall P l → Forall P (filter Q l).
Proof.
  rewrite !Forall_forall. intros Hl x [_ Hx]%list_elem_of_filter. by apply Hl.
Qed.

Lemma num_abs_finite (a : num) :
  Number_isFinite a = true → Number_isFinite (num_abs a) = true.
Proof. destruct a as [q| | |]; simpl; try done. by destruct (qc_neg q). Qed.

Lemma pnl_foldl_finite (s e : string) (txs : list Transaction) (acc : num * num) :
  Forall (λ t, Spec.finite_field (tx_amount t)) txs →
  Number_isFinite acc.1 = true → Number_isFinite acc.2 = true →
  Number_isFinite (foldl (pnl_step s e) acc txs).2 = true.
Proof.
  intros Htxs. revert acc.
  induction Htxs as [|t txs Ht _ IH]; intros acc H1 H2; [done|].
  cbn [foldl]. rewrite pnl_step_counted.
  destruct (pnl_counted s e t); [|by apply IH].
  destruct (num_ge _ _); apply IH; cbn [fst snd]; try done.
  - by apply num_add_finite.
  - by apply num_add_finite, num_abs_finite.
Qed.

Lemma percentage_number (cur target : num) :
  Number_isFinite cur = true →
  (if num_truthy target then num_mul (num_div cur target) (numZ 100) else numZ 0)
  ≠ NaN.
Proof.
  destruct cur as [x| | |]; try done. intros _.
  destruct target as [y| | |]; simpl; try done.
  unfold num_div. destruct (bool_decide (y = 0%Qc)); done.
Qed.

Lemma finite_store_percentages `{Host} (db : DB) (st : AppState) (ck : Clock) :
  Spec.finite_amounts db →
  Forall (λ g, goalProgress g (computeBalances db st ck) (computeMonthlyPnl db ck)
               ≠ Some NaN) (idbGetAll (goals db)).
Proof.
  intros (Ha & Ht & Hp & Hd).
  apply (idbGetAll_Forall (λ a, Spec.finite_field (acc_startingBalance a))) in Ha.
  apply (idbGetAll_Forall (λ t, Spec.finite_field (tx_amount t))) in Ht.
  apply (idbGetAll_Forall (λ p, Spec.finite_field (pos_currentValue p))) in Hp.
  apply (idbGetAll_Forall (λ d, Spec.finite_field (debt_amount d))) in Hd.
  set (b := computeBalances db st ck). set (m := computeMonthlyPnl db ck).
  assert (Hcash : Number_isFinite (actualCash b) = true).
  { apply num_add_finite; by apply reduce_sum_finite. }
  assert (Hbank : Number_isFinite (cashInBank b) = true).
  { apply num_add_finite; apply reduce_sum_finite;
      by apply Forall_filter_weaken. }
  assert (Hinv : Number_isFinite (investmentsCurrent b) = true).
  { by apply reduce_sum_finite. }
  assert (Hnet : Number_isFinite (netWorth b) = true).
  { apply num_sub_finite; [by apply num_add_finite|].
    apply reduce_sum_finite. by apply Forall_filter_weaken. }
  assert (Hexp : Number_isFinite (expense m) = true).
  { unfold m, computeMonthlyPnl, monthlyPnl.
    pose proof (pnl_foldl_finite (startOfMonthISO ck) (endOfMonthISO ck)
                  (idbGetAll (transactions db)) (Fin 0%Qc, Fin 0%Qc) Ht
                  eq_refl eq_refl) as Hf.
    by destruct (foldl _ _ _). }
  apply Forall_forall. intros g _. unfold goalProgress.
  destruct (goal_targetValue g) as [target|]; [|done].
  repeat match goal with
  | |- context [String.eqb (goal_type g) ?s] =>
      destruct (String.eqb (goal_type g) s) eqn:?
  end; try done;
    intros [= Hnan]; by eapply percentage_number in Hnan.
Qed.




(** A percentage that is not a number: when the balance is NaN (an infinite
    starting balance and an infinite outflow), the percentage of a goal on
    it is NaN and the test [pct < 80] of the notice branch does not skip
    the goal. *)
Example notice_on_nan_percentage :
  let b := balances (H := sample_host) initial_state Sample.clock
             [{| acc_id := "a1"; acc_name := ""; acc_type := "Banka";
                 acc_currency := "EUR"; acc_startingBalance := Some PInf;
                 acc_note := "" |}]
             [Sample.tx "t1" "normal" "2024-03-02" "a1" NInf] [] [] in
  let m := monthlyPnl Sample.clock [] in
  let g := Sample.goal "g1" "actualCash" (Some (numZ 100)) "active" None in
  actualCash b = NaN
  ∧ goalProgress g b m = Some NaN
  ∧ alert_kind_of <$> alerts_of (H := sample_host) b m (now Sample.clock) [g]
    = [Notice].
Proof. repeat split. Qed.

Example sample_db_finite_amounts : Spec.finite_amounts Sample.db.
Proof.
  unfold Spec.finite_amounts, Sample.db.
  cbn [accounts transactions positions debts].
  repeat split;
    repeat (apply map_Forall_insert_2 || apply map_Forall_empty); done.
Qed.

(** ** [Array.prototype.sort] with a consistent comparator *)

Lemma filter_none {A} (P : A → Prop) `{∀ x, Decision (P x)} (l : list A) :
  Forall (λ x, ¬ P x) l → filter P l = [].
Proof.
  induction 1 as [|x l Hx _ IH]; [done|]. by rewrite filter_cons_False.
Qed.

Section sorting.
Context {A : Type} (cmp : A → A → Z).

Lemma sort_insert_split (x : A) (l : list A) :
  ∃ l1 l2, l = l1 ++ l2 ∧ sort_insert cmp x l = l1 ++ x :: l2
           ∧ Forall (λ y, 0 < cmp x y) l1.
Proof.
  induction l as [|y l IH].
  - by exists [], [].
  - destruct IH as (l1 & l2 & Hl & Hi & Hl1).
    simpl. destruct (decide (cmp x y <= 0)) as [Hle|Hgt].
    + rewrite bool_decide_eq_true_2 by done. by exists [], (y :: l).
    + rewrite bool_decide_eq_false_2 by done.
      exists (y :: l1), l2. rewrite Hi, Hl. split; [done|]. split; [done|].
      constructor; [lia|done].
Qed.

Lemma sort_insert_perm (x : A) (l : list A) : sort_insert cmp x l ≡ₚ x :: l.
Proof.
  destruct (sort_insert_split x l) as (l1 & l2 & -> & -> & _).
  by rewrite Permutation_middle.
Qed.

Lemma js_sort_perm (l : list A) : js_sort cmp l ≡ₚ l.
Proof.
  induction l as [|x l IH]; [done|]. unfold js_sort in *. cbn [foldr].
  by rewrite sort_insert_perm, IH.
Qed.

Hypothesis cmp_sgn : ∀ a b, Z.sgn (cmp a b) = - Z.sgn (cmp b a).
Hypothesis cmp_trans : ∀ a b c, cmp a b <= 0 → cmp b c <= 0 → cmp a c <= 0.

Lemma cmp_gt_le (a b : A) : 0 < cmp a b → cmp b a <= 0.
Proof. pose proof (cmp_sgn a b). lia. Qed.

Lemma cmp_tie_trans (x a b : A) : cmp x a = 0 → cmp x b = 0 → cmp a b = 0.
Proof.
  intros Ha Hb.
  assert (cmp a x <= 0) by (pose proof (cmp_sgn a x); lia).
  assert (cmp b x <= 0) by (pose proof (cmp_sgn b x); lia).
  assert (cmp a b <= 0) by (apply (cmp_trans a x b); lia).
  assert (cmp b a <= 0) by (apply (cmp_trans b x a); lia).
  pose proof (cmp_sgn a b). lia.
Qed.

Lemma sort_insert_sorted (x : A) (l : list A) :
  StronglySorted (λ a b, cmp a b <= 0) l →
  StronglySorted (λ a b, cmp a b <= 0) (sort_insert cmp x l).
Proof.
  induction 1 as [|y l Hs IH Hy]; simpl.
  - repeat constructor.
  - destruct (decide (cmp x y <= 0)) as [Hle|Hgt].
    + rewrite bool_decide_eq_true_2 by done.
      constructor; [by constructor|]. constructor; [done|].
      eapply Forall_impl; [exact Hy|]. intros z Hz. by apply (cmp_trans x y z).
    + rewrite bool_decide_eq_false_2 by done. constructor; [done|].
      rewrite sort_insert_perm. constructor; [|done].
      apply cmp_gt_le. lia.
Qed.

Lemma js_sort_sorted (l : list A) :
  StronglySorted (λ a b, cmp a b <= 0) (js_sort cmp l).
Proof.
  induction l as [|x l IH]; [constructor|].
  unfold js_sort in *. cbn [foldr]. by apply sort_insert_sorted.
Qed.

(** Stability: the elements that tie with [t] keep their order. *)
Lemma sort_insert_stable (t x : A) (l : list A) :
  filter (λ u, cmp t u = 0) (sort_insert cmp x l)
  = filter (λ u, cmp t u = 0) (x :: l).
Proof.
  destruct (sort_insert_split x l) as (l1 & l2 & -> & -> & Hl1).
  rewrite filter_app, !filter_cons, filter_app.
  destruct (decide (cmp t x = 0)) as [Hx|Hx]; [|done].
  assert (filter (λ u, cmp t u = 0) l1 = []) as ->; [|done].
  apply filter_none. eapply Forall_impl; [exact Hl1|].
  intros y Hy Hty. cbv beta in Hy.
  pose proof (cmp_tie_trans t x y Hx Hty). lia.
Qed.

Lemma js_sort_stable (t : A) (l : list A) :
  filter (λ u, cmp t u = 0) (js_sort cmp l) = filter (λ u, cmp t u = 0) l.
Proof.
  induction l as [|x l IH]; [done|]. unfold js_sort in *. cbn [foldr].
  by rewrite sort_insert_stable, !filter_cons, IH.
Qed.
End sorting.

(** ** [computeTradeStats]: the drawdown loop *)

Lemma num_le_trans (a b c : num) :
  num_le a b = true → num_le b c = true → num_le a c = true.
Proof.
  destruct a as [x| | |], b as [y| | |], c as [z| | |]; simpl; try done.
  rewrite !bool_decide_eq_true. apply Qcle_trans.
Qed.

Lemma num_le_refl_finite (a : num) : Number_isFinite a = true → num_le a a = true.
Proof.
  destruct a as [x| | |]; simpl; try done. intros _.
  rewrite bool_decide_eq_true. apply Qcle_refl.
Qed.

Lemma Math_min_le_l (a b : num) :
  Number_isFinite a = true → Number_isFinite b = true →
  num_le (Math_min a b) a = true ∧ Number_isFinite (Math_min a b) = true.
Proof.
  destruct a as [x| | |], b as [y| | |]; simpl; try done. intros _ _.
  destruct (decide (x <= y)%Qc) as [Hle|Hnle].
  - rewrite (bool_decide_eq_true_2 _ Hle). simpl. split; [|done].
    rewrite bool_decide_eq_true. apply Qcle_refl.
  - rewrite (bool_decide_eq_false_2 _ Hnle). simpl. split; [|done].
    rewrite bool_decide_eq_true. by apply Qclt_le_weak, Qcnot_le_lt.
Qed.

(** On finite numbers [if (cum > peak) peak = cum] is the maximum. *)
Lemma peak_update_max (c p : num) :
  Number_isFinite c = true → Number_isFinite p = true →
  (if num_gt c p then c else p) = Math_max p c
  ∧ Number_isFinite (Math_max p c) = true.
Proof.
  destruct c as [x| | |], p as [y| | |]; simpl; try done. intros _ _.
  destruct (decide (y < x)%Qc) as [Hlt|Hnlt].
  - rewrite (bool_decide_eq_true_2 _ Hlt).
    rewrite bool_decide_eq_false_2; [done|]. by apply Qclt_not_le.
  - rewrite (bool_decide_eq_false_2 _ Hnlt).
    rewrite bool_decide_eq_true_2; [done|]. by apply Qcnot_lt_le.
Qed.

Lemma drawdown_step_spec (s : Drawdown) (t : Trade) :
  drawdown_finite s → Spec.finite_R t →
  let c := num_add (cum s) (or0 (trade_rMultiple t)) in
  drawdown_step s t
  = {| peak := Math_max (peak s) c;
       dd := Math_min (dd s) (num_sub c (Math_max (peak s) c));
       cum := c |}
  ∧ drawdown_finite (drawdown_step s t)
  ∧ num_le (dd (drawdown_step s t)) (dd s) = true.
Proof.
  intros (Hp & Hd & Hc) Ht c.
  assert (Hfc : Number_isFinite c = true) by by apply num_add_finite.
  destruct (peak_update_max c (peak s) Hfc Hp) as [Hmax Hfm].
  assert (Hstep : drawdown_step s t
    = {| peak := Math_max (peak s) c;
         dd := Math_min (dd s) (num_sub c (Math_max (peak s) c));
         cum := c |}).
  { unfold drawdown_step. fold c. by rewrite Hmax. }
  rewrite Hstep. cbn [peak dd cum].
  destruct (Math_min_le_l (dd s) (num_sub c (Math_max (peak s) c)))
    as [Hle Hfd]; [done|by apply num_sub_finite|].
  repeat split; done.
Qed.

Lemma drawdown_foldl_finite (s : Drawdown) (ts : list Trade) :
  drawdown_finite s → Forall Spec.finite_R ts →
  drawdown_finite (foldl drawdown_step s ts)
  ∧ num_le (dd (foldl drawdown_step s ts)) (dd s) = true.
Proof.
  revert s. induction ts as [|t ts IH]; intros s Hs Hts.
  - split; [done|]. apply num_le_refl_finite, Hs.
  - apply Forall_cons in Hts as [Ht Hts]. cbn [foldl].
    destruct (drawdown_step_spec s t Hs Ht) as (_ & Hf & Hle).
    destruct (IH _ Hf Hts) as [Hf' Hle'].
    split; [done|]. by eapply num_le_trans.
Qed.

Lemma drawdown_foldl_spec (s : Drawdown) (ts : list Trade) :
  drawdown_finite s → Forall Spec.finite_R ts →
  let rs := (λ t, or0 (trade_rMultiple t)) <$> ts in
  let cums := Spec.scan num_add (cum s) rs in
  foldl drawdown_step s ts
  = {| peak := foldl Math_max (peak s) cums;
       dd := foldl Math_min (dd s)
               (zip_with num_sub cums (Spec.scan Math_max (peak s) cums));
       cum := foldl num_add (cum s) rs |}.
Proof.
  revert s. induction ts as [|t ts IH]; intros s Hs Hts; [by destruct s|].
  apply Forall_cons in Hts as [Ht Hts]. cbn [foldl].
  destruct (drawdown_step_spec s t Hs Ht) as (Hstep & Hf & _).
  cbv zeta. rewrite (IH _ Hf Hts). rewrite Hstep. reflexivity.
Qed.

Lemma drawdown_pass_spec (ts : list Trade) :
  Forall Spec.finite_R ts →
  let rs := (λ t, or0 (trade_rMultiple t)) <$> ts in
  foldl drawdown_step drawdown_init ts
  = {| peak := Spec.peak rs; dd := Spec.maxDrawdownR rs; cum := Spec.cum rs |}.
Proof. intros Hts. by rewrite (drawdown_foldl_spec drawdown_init ts). Qed.

Lemma in_month_in_period (start_ end_ : string) (t : Trade) :
  in_month start_ end_ t = Spec.in_period start_ end_ (trade_date t).
Proof.
  unfold in_month, Spec.in_period, str_truthy, str_or_empty, nullish.
  by destruct (trade_date t).
Qed.

(** *** The loop on any numbers *)

Lemma Qclt_irrefl (x : Qc) : ¬ (x < x)%Qc.
Proof. intros Hlt. exact (Qclt_not_le _ _ Hlt (Qcle_refl _)). Qed.

Lemma num_lt_irrefl (a : num) : num_lt a a = false.
Proof.
  destruct a as [x| | |]; simpl; try done.
  apply bool_decide_eq_false, Qclt_irrefl.
Qed.

Lemma num_lt_asym (a b : num) : num_lt a b = true → num_lt b a = false.
Proof.
  destruct a as [x| | |], b as [y| | |]; simpl; try done.
  rewrite bool_decide_eq_true, bool_decide_eq_false.
  intros Hlt Hgt. apply (Qclt_irrefl x). by apply (Qclt_trans _ y).
Qed.

(** On numbers other than NaN, "not above" is transitive; the value that
    is compared with them may be NaN. *)
Lemma num_gt_false_trans (c p q : num) :
  p ≠ NaN → q ≠ NaN →
  num_gt c p = false → num_gt p q = false → num_gt c q = false.
Proof.
  unfold num_gt.
  destruct c as [x| | |], p as [y| | |], q as [z| | |]; simpl; try done.
  intros _ _. rewrite !bool_decide_eq_false. intros Hyx Hzy Hzx.
  apply Qcnot_lt_le in Hyx, Hzy.
  apply (Qclt_irrefl z). apply (Qclt_le_trans _ x); [done|].
  by apply (Qcle_trans _ y).
Qed.

Lemma num_gt_Math_min (a b : num) : num_gt (Math_min a b) a = false.
Proof.
  unfold num_gt.
  destruct a as [x| | |], b as [y| | |]; simpl; try done;
    try (apply bool_decide_eq_false, Qclt_irrefl).
  destruct (decide (x <= y)%Qc) as [Hle|Hnle].
  - rewrite (bool_decide_eq_true_2 _ Hle). simpl.
    apply bool_decide_eq_false, Qclt_irrefl.
  - rewrite (bool_decide_eq_false_2 _ Hnle). simpl.
    apply bool_decide_eq_false. intros Hlt. apply Hnle. by apply Qclt_le_weak.
Qed.

(** One iteration: [cum] takes the R multiple, [peak] becomes the greater
    of [peak] and [cum], [dd] the smaller of [dd] and [cum - peak]. *)
Lemma drawdown_step_facts (s : Drawdown) (t : Trade) :
  peak s ≠ NaN →
  cum (drawdown_step s t) = num_add (cum s) (or0 (trade_rMultiple t))
  ∧ (peak (drawdown_step s t) = peak s
     ∨ peak (drawdown_step s t) = cum (drawdown_step s t))
  ∧ num_gt (peak s) (peak (drawdown_step s t)) = false
  ∧ num_gt (cum (drawdown_step s t)) (peak (drawdown_step s t)) = false
  ∧ peak (drawdown_step s t) ≠ NaN
  ∧ dd (drawdown_step s t)
    = Math_min (dd s) (num_sub (cum (drawdown_step s t))
                               (peak (drawdown_step s t)))
  ∧ num_gt (dd (drawdown_step s t)) (dd s) = false.
Proof.
  intros Hp. unfold drawdown_step. cbn [cum peak dd].
  set (c := num_add (cum s) (or0 (trade_rMultiple t))).
  split; [done|].
  destruct (num_gt c (peak s)) eqn:Hgt.
  - split; [by right|]. split; [by apply num_lt_asym|].
    split; [apply num_lt_irrefl|]. split.
    + intros Hc. rewrite Hc in Hgt. unfold num_gt in Hgt.
      by destruct (peak s).
    + split; [done|]. apply num_gt_Math_min.
  - split; [by left|]. split; [apply num_lt_irrefl|].
    split; [done|]. split; [done|]. split; [done|]. apply num_gt_Math_min.
Qed.

Lemma drawdown_foldl_cum (s : Drawdown) (ts : list Trade) :
  cum (foldl drawdown_step s ts)
  = foldl num_add (cum s) ((λ t, or0 (trade_rMultiple t)) <$> ts).
Proof.
  revert s. induction ts as [|t ts IH]; intros s; [done|].
  cbn [foldl fmap list_fmap]. by rewrite IH.
Qed.

Lemma drawdown_take_S (ts : list Trade) (n : nat) (t : Trade) :
  ts !! n = Some t →
  foldl drawdown_step drawdown_init (take (S n) ts)
  = drawdown_step (foldl drawdown_step drawdown_init (take n ts)) t.
Proof. intros Ht. by rewrite (take_S_r _ _ _ Ht), foldl_app. Qed.

Lemma drawdown_take_beyond (ts : list Trade) (n : nat) :
  ts !! n = None →
  foldl drawdown_step drawdown_init (take (S n) ts)
  = foldl drawdown_step drawdown_init (take n ts).
Proof. intros Hn%lookup_ge_None. by rewrite !take_ge by lia. Qed.

(** After every prefix, [peak] is a number, is one of the values that [cum]
    has had, the initial 0 included, and none of these is above it: it is
    their maximum. *)
Lemma drawdown_peak_maximum (ts : list Trade) (n : nat) :
  peak (foldl drawdown_step drawdown_init (take n ts)) ≠ NaN
  ∧ (∃ k, (k ≤ n)%nat
          ∧ peak (foldl drawdown_step drawdown_init (take n ts))
            = cum (foldl drawdown_step drawdown_init (take k ts)))
  ∧ ∀ k, (k ≤ n)%nat →
      num_gt (cum (foldl drawdown_step drawdown_init (take k ts)))
             (peak (foldl drawdown_step drawdown_init (take n ts))) = false.
Proof.
  induction n as [|n (Hnan & (k0 & Hk0 & Hpk) & Hmax)].
  - rewrite take_0. cbn [foldl]. split; [done|]. split.
    + exists 0%nat. by rewrite take_0.
    + intros k Hk. replace k with 0%nat by lia. by rewrite take_0.
  - destruct (ts !! n) as [t|] eqn:Ht.
    + rewrite (drawdown_take_S ts n t Ht).
      destruct (drawdown_step_facts _ t Hnan)
        as (_ & Hpeak & Hup & Hcum & Hnan' & _).
      split; [done|]. split.
      * destruct Hpeak as [Hsame|Hnew].
        -- exists k0. split; [lia|]. by rewrite Hsame.
        -- exists (S n). split; [lia|].
           by rewrite Hnew, (drawdown_take_S ts n t Ht).
      * intros k Hk. destruct (decide (k = S n)) as [->|Hne].
        -- by rewrite (drawdown_take_S ts n t Ht).
        -- eapply num_gt_false_trans; [exact Hnan|exact Hnan'| |exact Hup].
           apply Hmax. lia.
    + rewrite (drawdown_take_beyond ts n Ht).
      split; [done|]. split.
      * exists k0. split; [lia|done].
      * intros k Hk. destruct (decide (k = S n)) as [->|Hne].
        -- rewrite (drawdown_take_beyond ts n Ht). by apply Hmax.
        -- apply Hmax. lia.
Qed.

(** *** The order of the sorted trades *)

Lemma StronglySorted_lookup_lt {A} (R : A → A → Prop) (l : list A)
    (i j : nat) (a b : A) :
  StronglySorted R l → (i < j)%nat → l !! i = Some a → l !! j = Some b → R a b.
Proof.
  intros Hl. revert i j. induction Hl as [|x l Hl IH Hx]; intros i j Hij Hi Hj.
  - done.
  - destruct j as [|j]; [lia|]. cbn in Hj. destruct i as [|i].
    + cbn in Hi. injection Hi as <-. rewrite Forall_forall in Hx.
      apply Hx. by eapply list_elem_of_lookup_2.
    + cbn in Hi. apply (IH i j); [lia|done..].
Qed.

Lemma collation_refl `{Host} `{!ConsistentCollation H} (a : string) :
  localeCompare a a = 0.
Proof. pose proof (collation_sgn a a). lia. Qed.

(** The trades of one date keep the order that they have in the store. *)
Lemma js_sort_by_date_stable `{Host} `{!ConsistentCollation H}
    (l : list Trade) (s : string) :
  filter (λ t, trade_date t = Some s) (js_sort by_date l)
  = filter (λ t, trade_date t = Some s) l.
Proof.
  destruct (filter (λ t, trade_date t = Some s) l) as [|t0 rest] eqn:Hl.
  - apply Permutation_nil_r. rewrite <- Hl. by rewrite js_sort_perm.
  - rewrite <- Hl.
    assert (Ht0 : trade_date t0 = Some s).
    { assert (Hin : t0 ∈ filter (λ t, trade_date t = Some s) l)
        by (rewrite Hl; left).
      by apply list_elem_of_filter in Hin as [? _]. }
    assert (Hfil : ∀ l' : list Trade,
      filter (λ t, trade_date t = Some s) l'
      = filter (λ t, trade_date t = Some s)
          (filter (λ u, by_date t0 u = 0) l')).
    { intros l'. rewrite list_filter_filter. apply list_filter_iff.
      intros u. split; [|tauto]. intros Hu. split; [done|].
      unfold by_date. rewrite Ht0, Hu. apply collation_refl. }
    rewrite (Hfil (js_sort by_date l)), (Hfil l). f_equal.
    apply js_sort_stable.
    + intros a b. apply collation_sgn.
    + intros a b c. apply collation_trans.
Qed.

(** C2.  [computeTradeStats] keeps the trades dated within the current
    calendar month, those whose date has the year and the month of the
    clock, and sorts them by date:
    the sorted trades are those of the month, their dates ascend under the
    collation of the host, which on dates in the form of [toISODate] is the
    order of the calendar, and the trades of one date keep the order of
    the store.  It then computes [maxDrawdownR] in one pass over them,
    which starts with [cum], [peak] and [dd] at 0: [cum] is the running sum
    of the R multiples; [peak] is the maximum of the values that [cum] has
    had so far, the initial 0 included (not the first value of [cum]);
    [dd] becomes at each trade the minimum of [dd] and [cum - peak], and so
    never goes up; [maxDrawdownR] is [dd] after the last trade.  On the R
    multiples -1, -1, +3 in date order, [cum] runs through -1, -2, 1,
    [peak] through 0, 0, 1, [cum - peak] through -1, -2, 0, and
    [maxDrawdownR] is -2. *)
Theorem C2_trade_stats_drawdown `{Host} `{!ConsistentCollation H}
    `{!DateCollation H} (ck : Clock) (trades : list Trade) :
  let this_month := Z.of_nat (month ck) + 1 in
  let month :=
    filter (λ t, Spec.in_period (startOfMonthISO ck) (endOfMonthISO ck)
                   (trade_date t) = true) trades in
  let sorted := js_sort by_date month in
  let rs := (λ t, or0 (trade_rMultiple t)) <$> sorted in
  let pass n := foldl drawdown_step drawdown_init (take n sorted) in
  sorted ≡ₚ month
  ∧ total (tradeStats ck trades) = length month
  ∧ (1000 <= year ck <= 9999 → this_month <= 12 →
     ∀ t y m d, 1000 <= y <= 9999 → 1 <= m <= 12 →
       1 <= d <= days_in_month y (Z.to_nat (m - 1)) →
       trade_date t = Some (toISODate y m d) →
       t ∈ month ↔ t ∈ trades ∧ y = year ck ∧ m = this_month)
  ∧ (∀ i j a b da db, (i < j)%nat →
       sorted !! i = Some a → sorted !! j = Some b →
       trade_date a = Some da → trade_date b = Some db →
       localeCompare da db <= 0)
  ∧ (∀ i j a b y m d y' m' d', (i < j)%nat →
       sorted !! i = Some a → sorted !! j = Some b →
       trade_date a = Some (toISODate y m d) →
       trade_date b = Some (toISODate y' m' d') →
       1000 <= y <= 9999 → 1 <= m <= 12 → 1 <= d <= 31 →
       1000 <= y' <= 9999 → 1 <= m' <= 12 → 1 <= d' <= 31 →
       calendar_le (y, m, d) (y', m', d'))
  ∧ (∀ s, filter (λ t, trade_date t = Some s) sorted
          = filter (λ t, trade_date t = Some s) month)
  ∧ maxDrawdownR (tradeStats ck trades) = dd (pass (length sorted))
  ∧ pass 0%nat = {| peak := numZ 0; dd := numZ 0; cum := numZ 0 |}
  ∧ (∀ n, cum (pass n) = Spec.cum (take n rs))
  ∧ (∀ n, peak (pass n) ≠ NaN
          ∧ (∃ k, (k ≤ n)%nat ∧ peak (pass n) = cum (pass k))
          ∧ ∀ k, (k ≤ n)%nat → num_gt (cum (pass k)) (peak (pass n)) = false)
  ∧ (∀ n, (n < length sorted)%nat →
       dd (pass (S n))
       = Math_min (dd (pass n)) (num_sub (cum (pass (S n))) (peak (pass (S n)))))
  ∧ (∀ n, num_gt (dd (pass (S n))) (dd (pass n)) = false)
  ∧ (rs = [numZ (-1)] → maxDrawdownR (tradeStats ck trades) = numZ (-1))
  ∧ (rs = [numZ (-1); numZ (-1); numZ 3] →
     cum ∘ pass <$> [1; 2; 3]%nat = [numZ (-1); numZ (-2); numZ 1]
     ∧ peak ∘ pass <$> [1; 2; 3]%nat = [numZ 0; numZ 0; numZ 1]
     ∧ (λ n, num_sub (cum (pass n)) (peak (pass n))) <$> [1; 2; 3]%nat
       = [numZ (-1); numZ (-2); numZ 0]
     ∧ dd ∘ pass <$> [1; 2; 3]%nat = [numZ (-1); numZ (-2); numZ (-2)]
     ∧ maxDrawdownR (tradeStats ck trades) = numZ (-2)).
Proof.
  intros this_month month sorted rs pass.
  assert (Hmonth : filter (λ t, in_month (startOfMonthISO ck) (endOfMonthISO ck) t
                               = true) trades = month).
  { apply list_filter_iff. intros t. by rewrite in_month_in_period. }
  assert (Hperm : sorted ≡ₚ month) by apply js_sort_perm.
  assert (Hsorted : StronglySorted (λ a b, by_date a b <= 0) sorted).
  { apply js_sort_sorted.
    - intros a b. apply collation_sgn.
    - intros a b c. apply collation_trans. }
  assert (Horder : ∀ i j a b da db, (i < j)%nat →
            sorted !! i = Some a → sorted !! j = Some b →
            trade_date a = Some da → trade_date b = Some db →
            localeCompare da db <= 0).
  { intros i j a b da db Hij Hi Hj Ha Hb.
    pose proof (StronglySorted_lookup_lt _ _ i j a b Hsorted Hij Hi Hj) as Hle.
    unfold by_date in Hle. by rewrite Ha, Hb in Hle. }
  assert (Hdd : maxDrawdownR (tradeStats ck trades) = dd (pass (length sorted))).
  { unfold pass. rewrite firstn_all. unfold tradeStats. cbn [maxDrawdownR].
    by rewrite Hmonth. }
  assert (Hclosed : Forall (λ r, Number_isFinite r = true) rs →
            ∀ n, pass n = {| peak := Spec.peak (take n rs);
                             dd := Spec.maxDrawdownR (take n rs);
                             cum := Spec.cum (take n rs) |}).
  { intros Hrs n. unfold pass, rs. rewrite <- fmap_take.
    apply drawdown_pass_spec. apply Forall_take.
    unfold rs in Hrs. by rewrite Forall_fmap in Hrs. }
  split; [done|]. split.
  { unfold tradeStats. cbn [total]. by rewrite Hmonth. }
  split.
  { intros Hyear Hmon t y m d Hy Hm Hd Ht. unfold month.
    rewrite list_elem_of_filter, Ht.
    rewrite (in_period_calendar_month ck y m d) by (done || unfold this_month in Hmon; lia).
    unfold this_month. tauto. }
  split; [exact Horder|]. split.
  { intros i j a b y m d y' m' d' Hij Hi Hj Ha Hb Hy Hm Hd Hy' Hm' Hd'.
    apply collation_dates; try done. by apply (Horder i j a b). }
  split; [intros s; apply js_sort_by_date_stable|].
  split; [exact Hdd|]. split.
  { unfold pass. rewrite take_0. cbn [foldl]. unfold drawdown_init.
    f_equal; num_eval. }
  split.
  { intros n. unfold pass, rs. rewrite drawdown_foldl_cum.
    by rewrite fmap_take. }
  split; [intros n; apply drawdown_peak_maximum|]. split.
  { intros n Hn. unfold pass.
    destruct (lookup_lt_is_Some_2 sorted n Hn) as [t Ht].
    rewrite (drawdown_take_S sorted n t Ht).
    apply drawdown_step_facts, drawdown_peak_maximum. }
  split.
  { intros n. unfold pass. destruct (sorted !! n) as [t|] eqn:Ht.
    - rewrite (drawdown_take_S sorted n t Ht).
      apply drawdown_step_facts, drawdown_peak_maximum.
    - rewrite (drawdown_take_beyond sorted n Ht). apply num_lt_irrefl. }
  split.
  { intros Hrs. rewrite Hdd.
    assert (Hlen : length sorted = 1%nat).
    { apply (f_equal length) in Hrs. unfold rs in Hrs.
      by rewrite length_fmap in Hrs. }
    rewrite Hlen, Hclosed by (rewrite Hrs; repeat constructor).
    rewrite Hrs. num_eval. }
  intros Hrs.
  assert (Hlen : length sorted = 3%nat).
  { apply (f_equal length) in Hrs. unfold rs in Hrs.
    by rewrite length_fmap in Hrs. }
  assert (Hfin : Forall (λ r, Number_isFinite r = true) rs)
    by (rewrite Hrs; repeat constructor).
  rewrite Hdd, Hlen. cbn [fmap list_fmap compose].
  rewrite !(Hclosed Hfin), Hrs. cbn [peak dd cum].
  repeat split; num_eval.
Qed.

(** Outside the data model: after an infinite gain [cum - peak] is
    Infinity - Infinity, and [maxDrawdownR] is NaN. *)
Example drawdown_on_infinite_R :
  maxDrawdownR (tradeStats (H := sample_host) Sample.clock
                  [Sample.trade "r1" "2024-03-04" "win" PInf]) = NaN.
Proof. reflexivity. Qed.

Lemma code_unit_compare_le (a b : string) :
  code_unit_compare a b <= 0 ↔ (a ≤ b)%string.
Proof.
  unfold code_unit_compare, String.le, String.leb.
  destruct (String.compare a b); simpl; split; (done || lia).
Qed.

Lemma sample_host_consistent : ConsistentCollation sample_host.
Proof.
  split; cbn [localeCompare sample_host].
  - intros a b. unfold code_unit_compare.
    rewrite (String.compare_antisym a b). by destruct (String.compare b a).
  - intros a b c. rewrite !code_unit_compare_le. apply transitivity.
Qed.

Lemma sample_host_dates : DateCollation sample_host.
Proof.
  intros y m d y' m' d' Hy Hm Hd Hy' Hm' Hd'.
  cbn [localeCompare sample_host]. unfold code_unit_compare, calendar_le.
  rewrite toISODate_compare by lia.
  destruct (Z.compare_spec y y') as [?|?|?]; [|split; [lia|done]|split; lia].
  destruct (Z.compare_spec m m') as [?|?|?]; [|split; [lia|done]|split; lia].
  destruct (Z.compare_spec d d') as [?|?|?]; split; (lia || done).
Qed.

(** Three trades of March 2024 that the store lists out of order, and one
    of February: in date order the R multiples are -1, -1, +3 and the
    drawdown is -2; in the order of the store, -1, +3, -1, it would be
    -1. *)
Lemma C2_witness :
  let trades := [Sample.trade "r1" "2024-03-04" "loss" (numZ (-1));
                 Sample.trade "r3" "2024-03-07" "win" (numZ 3);
                 Sample.trade "r0" "2024-02-28" "win" (numZ 5);
                 Sample.trade "r2" "2024-03-05" "loss" (numZ (-1))] in
  total (tradeStats (H := sample_host) Sample.clock trades) = 3%nat
  ∧ maxDrawdownR (tradeStats (H := sample_host) Sample.clock trades) = numZ (-2)
  ∧ dd (foldl drawdown_step drawdown_init
          (filter (λ t, Spec.in_period "2024-03-01" "2024-03-31" (trade_date t)
                        = true) trades)) = numZ (-1).
Proof.
  intros trades.
  destruct (C2_trade_stats_drawdown (H := sample_host)
              (ConsistentCollation0 := sample_host_consistent)
              (DateCollation0 := sample_host_dates)
              Sample.clock trades)
    as (_ & Ht & _ & _ & _ & _ & _ & _ & _ & _ & _ & _ & _ & Hex).
  split; [by rewrite Ht|]. split.
  - apply Hex. vm_compute. reflexivity.
  - num_eval.
Defined.

(** ** Export and import *)

Section store_facts.
Context {R : Type} `{Keyed R}.

Lemma idbGetAll_entries (st : gmap string R) :
  store_wf st →
  (λ r, (key_of r, r)) <$> idbGetAll st = merge_sort entry_le (map_to_list st).
Proof.
  intros Hwf. unfold idbGetAll.
  assert (Hall : Forall (λ e : string * R, key_of e.2 = e.1)
                   (merge_sort entry_le (map_to_list st))).
  { rewrite merge_sort_Permutation. apply Forall_forall.
    intros [k r] Hin%elem_of_map_to_list. by apply Hwf in Hin. }
  induction Hall as [|[k r] l Hkr _ IH]; [done|].
  rewrite !fmap_cons, IH. simpl in *. by rewrite Hkr.
Qed.

Lemma foldl_idbPut (st : gmap string R) (l : list R) :
  foldl idbPut st l
  = list_to_map (reverse ((λ r, (key_of r, r)) <$> l)) ∪ st.
Proof.
  revert st. induction l as [|r l IH]; intros st.
  - simpl. by rewrite (left_id_L ∅ (∪)).
  - cbn [foldl]. rewrite IH, fmap_cons, reverse_cons.
    unfold idbPut. rewrite list_to_map_app. simpl.
    rewrite <- (assoc_L (∪)). f_equal.
    by rewrite insert_empty, <- insert_union_singleton_l.
Qed.

(** Clearing a store and putting back what [getAll] returned restores it. *)
Lemma import_store_getAll (st st0 : gmap string R) :
  store_wf st → import_store st0 (Some (idbGetAll st)) = st.
Proof.
  intros Hwf. unfold import_store, idbClear. cbn [nullish].
  rewrite foldl_idbPut, (right_id_L ∅ (∪)), idbGetAll_entries by done.
  rewrite <- (list_to_map_to_list st) at 2.
  apply list_to_map_proper.
  - rewrite fmap_reverse, reverse_Permutation, merge_sort_Permutation.
    apply NoDup_fst_map_to_list.
  - by rewrite reverse_Permutation, merge_sort_Permutation.
Qed.

Lemma store_wf_empty : store_wf (∅ : gmap string R).
Proof. apply map_Forall_empty. Qed.

Lemma store_wf_put (st : gmap string R) (r : R) :
  store_wf st → store_wf (idbPut st r).
Proof. intros Hwf. by apply map_Forall_insert_2. Qed.

Lemma store_wf_delete (st : gmap string R) (k : string) :
  store_wf st → store_wf (idbDelete st k).
Proof. intros Hwf. by apply map_Forall_delete. Qed.
End store_facts.

Lemma computeBalances_loadCurrency `{Host} (db db' : DB) (st : AppState)
    (ck : Clock) :
  computeBalances db (loadCurrency db' st) ck = computeBalances db st ck.
Proof.
  unfold loadCurrency. destruct (idbGet (meta db') "baseCurrency") as [cur|];
    [|done].
  by destruct (meta_truthy (meta_val cur)).
Qed.

(** C9.  Exporting every collection of a store and importing the dump as it
    is (each collection is cleared, then every record of the dump is put
    back) gives the same store again, whatever the importing store held, and
    so the same [computeBalances] report, field for field, at the same
    instant and with the same settings. *)
Theorem C9_export_import_roundtrip `{Host} (db db0 : DB) (st : AppState)
    (ck_export ck : Clock) :
  db_wf db →
  (importAll (exportAll db ck_export) db0 st).1 = db
  ∧ computeBalances (importAll (exportAll db ck_export) db0 st).1
      (importAll (exportAll db ck_export) db0 st).2 ck
    = computeBalances db st ck.
Proof.
  intros (? & ? & ? & ? & ? & ? & ? & ? & ? & ?).
  assert (Hdb : (importAll (exportAll db ck_export) db0 st).1 = db).
  { unfold importAll, exportAll.
    cbn [fst d_accounts d_transactions d_categories d_instruments d_positions
         d_debts d_trades d_goals d_snapshots d_meta].
    rewrite !import_store_getAll by done. by destruct db. }
  split; [exact Hdb|]. rewrite Hdb.
  unfold importAll. cbn [snd]. apply computeBalances_loadCurrency.
Qed.

Lemma C9_witness :
  (importAll (exportAll Sample.db Sample.clock) Sample.empty_db initial_state).1
  = Sample.db
  ∧ ∀ ck, computeBalances (H := sample_host)
            (importAll (exportAll Sample.db Sample.clock) Sample.empty_db
               initial_state).1
            (importAll (exportAll Sample.db Sample.clock) Sample.empty_db
               initial_state).2 ck
          = computeBalances (H := sample_host) Sample.db initial_state ck.
Proof.
  assert (Hwf : db_wf Sample.db).
  { unfold db_wf, store_wf. apply (bool_decide_unpack _). vm_compute. exact I. }
  split.
  - by apply (C9_export_import_roundtrip (H := sample_host) _ _ _ _ Sample.clock).
  - intros ck.
    by apply (C9_export_import_roundtrip (H := sample_host)).
Defined.

(** * Around the engine *)

(** ** [escapeHtml] *)

Lemma str_length_app (a b : string) :
  String.length (a +:+ b) = (String.length a + String.length b)%nat.
Proof. induction a as [|c a IH]; [done|]. simpl. by rewrite IH. Qed.

Lemma escape_char_special (c : ascii) :
  html_special c = true →
  ∃ c2 r, escape_char c = String "&" (String c2 r)
          ∧ str_forallb (λ x, negb (markup_char x)) (escape_char c) = true.
Proof.
  unfold html_special, escape_char, markup_char.
  destruct (Ascii.eqb c "&"); [by eexists _, _|].
  destruct (Ascii.eqb c "<"); [by eexists _, _|].
  destruct (Ascii.eqb c ">"); [by eexists _, _|].
  destruct (Ascii.eqb c dquote); [by eexists _, _|].
  destruct (Ascii.eqb c "'"); [by eexists _, _|]. done.
Qed.

Lemma escape_char_plain (c : ascii) :
  html_special c = false → escape_char c = String c EmptyString.
Proof.
  unfold html_special, escape_char.
  destruct (Ascii.eqb c "&"); [done|]. destruct (Ascii.eqb c "<"); [done|].
  destruct (Ascii.eqb c ">"); [done|]. destruct (Ascii.eqb c dquote); [done|].
  by destruct (Ascii.eqb c "'").
Qed.

Lemma markup_char_special (c : ascii) : markup_char c = true → html_special c = true.
Proof.
  unfold markup_char, html_special.
  destruct (Ascii.eqb c "&"), (Ascii.eqb c "<"), (Ascii.eqb c ">"),
    (Ascii.eqb c dquote), (Ascii.eqb c "'"); done.
Qed.

Lemma escapeHtml_length (s : string) :
  (String.length s <= String.length (escapeHtml s))%nat.
Proof.
  induction s as [|x s IH]; [done|]. cbn [escapeHtml].
  rewrite str_length_app. simpl.
  destruct (html_special x) eqn:Hx.
  - destruct (escape_char_special x Hx) as (? & ? & -> & _). simpl. lia.
  - rewrite (escape_char_plain x Hx). simpl. lia.
Qed.

(** X1.  The text returned by [escapeHtml] contains none of the characters
    [<], [>], ["] and ['], whatever the input, and a text without [&], [<],
    [>], ["] and ['] is returned as it is. *)
Theorem X1_escapeHtml_no_markup :
  (∀ s, str_forallb (λ c, negb (markup_char c)) (escapeHtml s) = true)
  ∧ (∀ s, str_forallb (λ c, negb (html_special c)) s = true ↔ escapeHtml s = s).
Proof.
  split.
  - induction s as [|c s IH]; [done|]. cbn [escapeHtml].
    rewrite str_forallb_app, IH, andb_true_r.
    destruct (html_special c) eqn:Hc.
    + by destruct (escape_char_special c Hc) as (? & ? & _ & ?).
    + rewrite (escape_char_plain c Hc). simpl. rewrite andb_true_r.
      destruct (markup_char c) eqn:Hm; [|done].
      apply markup_char_special in Hm. congruence.
  - induction s as [|c s IH]; [done|]. cbn [escapeHtml str_forallb].
    destruct (html_special c) eqn:Hc; cbn [negb andb].
    + split; [done|]. intros Heq.
      destruct (escape_char_special c Hc) as (c2 & r & Hesc & _).
      rewrite Hesc in Heq. apply (f_equal String.length) in Heq.
      pose proof (escapeHtml_length s) as Hs.
      simpl in Heq. rewrite str_length_app in Heq. lia.
    + rewrite (escape_char_plain c Hc). simpl. rewrite IH.
      split; [by intros ->|]. intros Heq. by injection Heq.
Qed.

Lemma escapeHtml_cons_inj (c1 c2 : ascii) (r1 r2 : string) :
  escape_char c1 +:+ r1 = escape_char c2 +:+ r2 → c1 = c2 ∧ r1 = r2.
Proof.
  unfold escape_char.
  repeat match goal with
  | |- context [Ascii.eqb ?a ?b] => destruct (Ascii.eqb_spec a b); subst
  end; simpl; intros Heq; try done; try (by simplify_eq).
Qed.

(** X2.  [escapeHtml] is injective: two texts with the same escaped form are
    the same text. *)
Theorem X2_escapeHtml_injective (s1 s2 : string) :
  escapeHtml s1 = escapeHtml s2 ↔ s1 = s2.
Proof.
  split; [|by intros ->].
  revert s2. induction s1 as [|c1 s1 IH]; intros [|c2 s2]; cbn [escapeHtml].
  - done.
  - intros Heq. apply (f_equal String.length) in Heq.
    rewrite str_length_app in Heq. simpl in Heq.
    assert (0 < String.length (escape_char c2))%nat; [|lia].
    unfold escape_char.
    repeat match goal with
    | |- context [Ascii.eqb ?a ?b] => destruct (Ascii.eqb a b)
    end; simpl; lia.
  - intros Heq. apply (f_equal String.length) in Heq.
    rewrite str_length_app in Heq. simpl in Heq.
    assert (0 < String.length (escape_char c1))%nat; [|lia].
    unfold escape_char.
    repeat match goal with
    | |- context [Ascii.eqb ?a ?b] => destruct (Ascii.eqb a b)
    end; simpl; lia.
  - intros [-> Heq]%escapeHtml_cons_inj. by rewrite (IH _ Heq).
Qed.

(** ** [csvSplitLine] *)

Lemma str_app_cons (x : ascii) (a b : string) :
  String x a +:+ b = String x (a +:+ b).
Proof. done. Qed.

Lemma str_app_nil (b : string) : "" +:+ b = b.
Proof. done. Qed.

Lemma str_app_assoc (a b c : string) : (a +:+ b) +:+ c = a +:+ (b +:+ c).
Proof. induction a as [|x a IH]; [done|]. rewrite !str_app_cons. by f_equal. Qed.

Lemma str_app_empty_r (a : string) : a +:+ "" = a.
Proof. induction a as [|x a IH]; [done|]. rewrite str_app_cons. by f_equal. Qed.

Ltac str_app := rewrite ?str_app_assoc, ?str_app_cons, ?str_app_nil.

Lemma csv_scan_unquoted (d : ascii) (line cur : string) (out : list string) :
  count_char dquote line = 0%nat →
  csv_scan d line false cur out
  = out ++ match split d line with
           | p :: ps => (cur +:+ p) :: ps
           | [] => [cur]
           end.
Proof.
  revert cur out. induction line as [|ch line IH]; intros cur out Hq.
  - simpl. by rewrite str_app_empty_r.
  - simpl in Hq. destruct (Ascii.eqb ch dquote) eqn:Hch; [done|].
    cbn [csv_scan split]. rewrite Hch. cbn [negb andb].
    destruct (Ascii.eqb ch d).
    + rewrite IH by done. rewrite <- app_assoc. simpl.
      rewrite str_app_empty_r.
      pose proof (split_nonempty d line). by destruct (split d line).
    + rewrite IH by done.
      pose proof (split_nonempty d line).
      destruct (split d line) as [|p ps]; [done|].
      by rewrite str_app_assoc.
Qed.

(** X3.  On a line without quotes, [csvSplitLine] cuts at every delimiter
    and trims each field: it returns the trimmed parts of
    [line.split(delim)], one more than the line has delimiters. *)
Theorem X3_csvSplitLine_unquoted (line : string) (delim : ascii) :
  count_char dquote line = 0%nat →
  csvSplitLine line delim = js_trim <$> split delim line
  ∧ length (csvSplitLine line delim) = S (count_char delim line).
Proof.
  intros Hq.
  assert (Heq : csvSplitLine line delim = js_trim <$> split delim line).
  { unfold csvSplitLine. rewrite csv_scan_unquoted by done. simpl.
    pose proof (split_nonempty delim line).
    by destruct (split delim line). }
  split; [exact Heq|]. rewrite Heq, length_fmap.
  clear. induction line as [|c line IH]; [done|]. simpl.
  destruct (Ascii.eqb c delim); simpl; [by rewrite IH|].
  pose proof (split_nonempty delim line).
  destruct (split delim line); [done|]. simpl in *. lia.
Qed.

Lemma X3_witness :
  csvSplitLine "2024-03-02; market ;-12,50" ";" = ["2024-03-02"; "market"; "-12,50"]
  ∧ length (csvSplitLine "2024-03-02; market ;-12,50" ";") = 3%nat.
Proof.
  destruct (X3_csvSplitLine_unquoted "2024-03-02; market ;-12,50" ";") as [H1 H2].
  - reflexivity.
  - split; [by rewrite H1|by rewrite H2].
Defined.

Lemma csv_scan_open_quote (d : ascii) (rest cur : string) (out : list string) :
  csv_scan d (String dquote rest) false cur out = csv_scan d rest true cur out.
Proof. by destruct rest. Qed.

(** Inside quotes, up to the closing quote. *)
Lemma csv_scan_quoted (d : ascii) (f rest cur : string) (out : list string) :
  match rest with String c _ => c ≠ dquote | EmptyString => True end →
  csv_scan d (double_quotes f +:+ String dquote rest) true cur out
  = csv_scan d rest false (cur +:+ f) out.
Proof.
  intros Hrest. revert cur. induction f as [|c f IH]; intros cur.
  - rewrite str_app_empty_r. cbn [double_quotes]. rewrite str_app_nil.
    cbn [csv_scan]. rewrite Ascii.eqb_refl.
    destruct rest as [|c2 rest2]; [done|].
    by destruct (Ascii.eqb_spec c2 dquote).
  - cbn [double_quotes]. destruct (Ascii.eqb_spec c dquote) as [->|Hc].
    + rewrite !str_app_cons. cbn [csv_scan]. rewrite Ascii.eqb_refl.
      cbn [andb]. rewrite IH. by rewrite str_app_assoc.
    + rewrite str_app_cons. cbn [csv_scan].
      destruct (Ascii.eqb_spec c dquote); [done|]. cbn [negb andb].
      rewrite IH. by rewrite str_app_assoc.
Qed.

Lemma csv_scan_quoted_fields (d : ascii) (f : string) (fs out : list string) :
  d ≠ dquote →
  csv_scan d (join_with d (csv_quote <$> (f :: fs))) false "" out
  = out ++ f :: fs.
Proof.
  intros Hd. revert f out. induction fs as [|g fs IH]; intros f out.
  - cbn [fmap list_fmap join_with]. unfold csv_quote.
    rewrite csv_scan_open_quote, csv_scan_quoted by done.
    by rewrite str_app_nil.
  - change (join_with d (csv_quote <$> f :: g :: fs))
      with (csv_quote f +:+ String d (join_with d (csv_quote <$> g :: fs))).
    unfold csv_quote at 1. rewrite str_app_cons.
    rewrite csv_scan_open_quote, str_app_assoc, str_app_cons.
    rewrite csv_scan_quoted by done. rewrite !str_app_nil.
    cbn [csv_scan]. destruct (Ascii.eqb_spec d dquote); [done|].
    rewrite Ascii.eqb_refl. cbn [negb andb].
    rewrite IH. by rewrite <- app_assoc.
Qed.

(** X4.  Quoted fields are read back: when every field is written between
    quotes with its own quotes doubled, and the fields are joined by a
    delimiter that is not the quote, [csvSplitLine] returns the fields
    (trimmed), whatever delimiters and quotes they contain. *)
Theorem X4_csvSplitLine_quoted_fields (fields : list string) (delim : ascii) :
  delim ≠ dquote → fields ≠ [] →
  csvSplitLine (join_with delim (csv_quote <$> fields)) delim = js_trim <$> fields.
Proof.
  intros Hd Hf. destruct fields as [|f fs]; [done|].
  unfold csvSplitLine. by rewrite csv_scan_quoted_fields.
Qed.

Lemma X4_witness :
  csvSplitLine (join_with "," (csv_quote <$> ["a,b"; String dquote "x"; " c "])) ","
  = ["a,b"; String dquote "x"; "c"].
Proof.
  by rewrite (X4_csvSplitLine_quoted_fields
                ["a,b"; String dquote "x"; " c "] ",").
Defined.

(** ** [detectDelimiter] *)

Lemma count_char_app (d : ascii) (a b : string) :
  count_char d (a +:+ b) = (count_char d a + count_char d b)%nat.
Proof. induction a as [|c a IH]; [done|]. simpl. rewrite IH. lia. Qed.

Lemma count_char_join (d sep : ascii) (ls : list string) :
  d ≠ sep →
  count_char d (join_with sep ls) = sum_list (count_char d <$> ls).
Proof.
  intros Hd. induction ls as [|l ls IH]; [done|].
  destruct ls as [|l' ls].
  - simpl. lia.
  - change (join_with sep (l :: l' :: ls))
      with (l +:+ String sep (join_with sep (l' :: ls))).
    rewrite count_char_app. cbn [count_char].
    destruct (Ascii.eqb_spec sep d); [by subst|].
    rewrite IH. simpl. lia.
Qed.

(** X5.  [detectDelimiter] returns the one of comma, semicolon and tab that
    occurs most often in the first ten lines of the text, the earlier one in
    that order when two occur as often (so the comma when none occurs);
    what follows the tenth line is not looked at. *)
Theorem X5_detectDelimiter_most_frequent (text : string) :
  let n d := sum_list (count_char d <$> take 10 (split_lines text)) in
  detectDelimiter text
  = if bool_decide (n ";"%char <= n ","%char ∧ n tab_char <= n ","%char)%nat
    then ","%char
    else if bool_decide (n tab_char <= n ";"%char)%nat then ";"%char
    else tab_char.
Proof.
  intros n. unfold detectDelimiter, delimiter_candidates.
  assert (Hn : ∀ d, d ≠ newline → count_char d (delimiter_sample text) = n d).
  { intros d Hd. unfold delimiter_sample. by apply count_char_join. }
  cbn [fmap list_fmap]. rewrite !Hn by done.
  generalize (n ","%char) (n ";"%char) (n tab_char). intros a b c.
  unfold js_sort. cbn [foldr sort_insert snd].
  repeat (case_bool_decide; cbn [sort_insert snd]);
    repeat match goal with
    | |- context [Nat.eqb ?x 0] => destruct (Nat.eqb_spec x 0)
    end; cbn [negb]; try done; lia.
Qed.

(** ** [clamp] *)

(** Linear arithmetic on the order of [Qc], through that of [Q]. *)
Ltac qc_order :=
  repeat match goal with
  | H : bool_decide _ = true |- _ => apply bool_decide_eq_true in H
  | H : bool_decide _ = false |- _ => apply bool_decide_eq_false in H
  | H : ¬ (_ <= _)%Qc |- _ => apply Qcnot_le_lt in H
  | H : ¬ (_ < _)%Qc |- _ => apply Qcnot_lt_le in H
  | |- bool_decide _ = true => apply bool_decide_eq_true
  | |- bool_decide _ = false => apply bool_decide_eq_false; intros ?
  | |- Fin _ = Fin _ => f_equal
  | |- @eq Qc _ _ => apply Qc_is_canon
  end;
  unfold Qcle, Qclt, Qcminus, Qcplus, Qcopp, Qcmult, Q2Qc in *; cbn [this] in *;
  repeat match goal with
  | |- context [Qred ?q] =>
      let r := fresh "r" in
      pose proof (Qred_correct q); set (r := Qred q) in *; clearbody r
  | H : context [Qred ?q] |- _ =>
      let r := fresh "r" in
      pose proof (Qred_correct q); set (r := Qred q) in *; clearbody r
  end;
  lra.

Lemma clamp_spec (a b n : num) :
  num_le a b = true → n ≠ NaN →
  num_le a (clamp n a b) = true ∧ num_le (clamp n a b) b = true
  ∧ (num_le a n = true → num_le n b = true → clamp n a b = n).
Proof.
  intros Hab Hn.
  destruct a as [a| | |], b as [b| | |], n as [n| | |]; try done;
    unfold clamp, Math_min, Math_max, num_le in *;
    repeat (case_bool_decide; try done);
    (split; [|split]); try done; try intros ? ?; try done; qc_order.
Qed.

(** X6.  [clamp(n, a, b)] with [a <= b] lies between [a] and [b] for every
    number [n] that is not NaN, and is [n] itself when [n] lies between
    them; a NaN is not clamped: [clamp(NaN, a, b)] is NaN. *)
Theorem X6_clamp_between_bounds (a b : num) :
  clamp NaN a b = NaN
  ∧ ∀ n, num_le a b = true → n ≠ NaN →
      num_le a (clamp n a b) = true ∧ num_le (clamp n a b) b = true
      ∧ (num_le a n = true → num_le n b = true → clamp n a b = n).
Proof.
  split; [by destruct a, b|]. intros n. apply clamp_spec.
Qed.

Lemma X6_witness :
  clamp (numQ 17 10) (numZ 0) (numZ 1) = numZ 1
  ∧ clamp (numQ 7 10) (numZ 0) (numZ 1) = numQ 7 10.
Proof.
  destruct (X6_clamp_between_bounds (numZ 0) (numZ 1)) as [_ Hc].
  destruct (Hc (numQ 7 10)) as (_ & _ & Hid); [num_eval|done|].
  split; [num_eval|]. apply Hid; num_eval.
Defined.

(** ** Signs and counters of the monthly figures *)

Lemma num_add_nonneg (a b : num) :
  num_le (Fin 0%Qc) a = true → num_le (Fin 0%Qc) b = true →
  num_le (Fin 0%Qc) (num_add a b) = true.
Proof.
  destruct a as [x| | |], b as [y| | |]; try done.
  unfold num_add, num_le. intros Hx Hy. qc_order.
Qed.

Lemma num_abs_nonneg (a : num) :
  a ≠ NaN → num_le (Fin 0%Qc) (num_abs a) = true.
Proof.
  destruct a as [x| | |]; try done. intros _. unfold num_abs, qc_neg.
  case_bool_decide; unfold num_le; qc_order.
Qed.

Lemma pnl_foldl_nonneg (s e : string) (txs : list Transaction) (acc : num * num) :
  num_le (Fin 0%Qc) acc.1 = true → num_le (Fin 0%Qc) acc.2 = true →
  num_le (Fin 0%Qc) (foldl (pnl_step s e) acc txs).1 = true
  ∧ num_le (Fin 0%Qc) (foldl (pnl_step s e) acc txs).2 = true.
Proof.
  revert acc. induction txs as [|t txs IH]; intros acc H1 H2; [done|].
  cbn [foldl]. apply IH; rewrite pnl_step_counted;
    destruct (pnl_counted s e t); try done;
    destruct (num_ge (or0 (tx_amount t)) (Fin 0%Qc)) eqn:Hge; cbn [fst snd];
    try done.
  - by apply num_add_nonneg.
  - apply num_add_nonneg; [done|]. apply num_abs_nonneg, or0_not_nan.
Qed.

(** X7.  Whatever the transactions hold, the [income] and the [expense] of
    [computeMonthlyPnl] are numbers that are not negative (neither is NaN):
    a sum of amounts that passed [amt >= 0], and a sum of absolute
    values. *)
Theorem X7_monthly_pnl_never_negative (db : DB) (ck : Clock) :
  num_ge (income (computeMonthlyPnl db ck)) (Fin 0%Qc) = true
  ∧ num_ge (expense (computeMonthlyPnl db ck)) (Fin 0%Qc) = true.
Proof.
  unfold computeMonthlyPnl, monthlyPnl, num_ge.
  pose proof (pnl_foldl_nonneg (startOfMonthISO ck) (endOfMonthISO ck)
                (idbGetAll (transactions db)) (Fin 0%Qc, Fin 0%Qc)) as Hn.
  destruct (foldl _ _ _) as [i x]. cbn [income expense].
  apply Hn; num_eval.
Qed.

Lemma filter_three_exclusive {A} (P Q R : A → Prop)
    `{∀ x, Decision (P x)} `{∀ x, Decision (Q x)} `{∀ x, Decision (R x)}
    (l : list A) :
  (∀ x, P x → Q x → False) → (∀ x, P x → R x → False) →
  (∀ x, Q x → R x → False) →
  (length (filter P l) + length (filter R l) + length (filter Q l)
   ≤ length l)%nat.
Proof.
  intros HPQ HPR HQR. induction l as [|x l IH]; [done|].
  rewrite !filter_cons.
  destruct (decide (P x)), (decide (Q x)), (decide (R x)); simpl;
    try lia; exfalso; eauto.
Qed.

Lemma Qc_of_Z_nonneg (z : Z) : 0 <= z → (0 <= Qc_of_Z z)%Qc.
Proof. intros Hz. rewrite <- Z2Qc_inj_0. by apply (proj1 (Z2Qc_inj_le _ _)). Qed.

Lemma Qc_of_Z_pos (z : Z) : 0 < z → (0 < Qc_of_Z z)%Qc.
Proof. intros Hz. rewrite <- Z2Qc_inj_0. by apply (proj1 (Z2Qc_inj_lt _ _)). Qed.

Lemma win_rate_bounds (w t : nat) :
  (w ≤ t)%nat → t ≠ 0%nat →
  ∃ q, num_mul (num_div (num_of_nat w) (num_of_nat t)) (numZ 100) = Fin q
       ∧ (0 <= q)%Qc ∧ (q <= Qc_of_Z 100)%Qc.
Proof.
  intros Hwt Ht. unfold num_of_nat, numZ, num_div, num_mul.
  assert (HT : (0 < Qc_of_Z (Z.of_nat t))%Qc) by (apply Qc_of_Z_pos; lia).
  assert (HW : (0 <= Qc_of_Z (Z.of_nat w))%Qc) by (apply Qc_of_Z_nonneg; lia).
  assert (HWT : (Qc_of_Z (Z.of_nat w) <= Qc_of_Z (Z.of_nat t))%Qc).
  { apply (proj1 (Z2Qc_inj_le _ _)). lia. }
  assert (HTne : Qc_of_Z (Z.of_nat t) ≠ 0%Qc).
  { intros Heq. rewrite Heq in HT. by apply Qclt_not_eq in HT. }
  rewrite bool_decide_eq_false_2 by done.
  eexists. split; [done|].
  set (W := Qc_of_Z (Z.of_nat w)) in *. set (T := Qc_of_Z (Z.of_nat t)) in *.
  assert (Hinv : (0 < / T)%Qc) by by apply Qcinv_pos.
  assert (H0 : (0 <= W / T)%Qc).
  { unfold Qcdiv. apply Qcmult_nonneg_nonneg; [done|by apply Qclt_le_weak]. }
  assert (H1 : (W / T <= 1)%Qc).
  { unfold Qcdiv. rewrite <- (Qcmult_inv_r T) by done.
    apply Qcmult_le_compat_r; [done|by apply Qclt_le_weak]. }
  assert (H100 : (0 <= Qc_of_Z 100)%Qc) by by apply Qc_of_Z_nonneg.
  split.
  - by apply Qcmult_nonneg_nonneg.
  - rewrite <- (Qcmult_1_l (Qc_of_Z 100)) at 2.
    by apply Qcmult_le_compat_r.
Qed.

(** X8.  The counters of [computeTradeStats]: the wins, losses and
    break-evens are disjoint parts of the trades of the month, so their sum
    never exceeds [total] (a trade with another [result] is in [total]
    only); [winRate] lies between 0 and 100; and with no trade in the month
    every figure is 0, [winRate] included (no division by zero). *)
Theorem X8_trade_stats_counters `{Host} (db : DB) (ck : Clock) :
  let s := computeTradeStats db ck in
  (wins s + losses s + bes s ≤ total s)%nat
  ∧ (total s ≤ length (idbGetAll (trades db)))%nat
  ∧ num_le (numZ 0) (winRate s) = true
  ∧ num_le (winRate s) (numZ 100) = true
  ∧ (total s = 0%nat →
     winRate s = numZ 0 ∧ totalR s = Fin 0%Qc ∧ maxDrawdownR s = Fin 0%Qc).
Proof.
  unfold computeTradeStats, tradeStats.
  cbn [total wins losses bes winRate totalR maxDrawdownR].
  set (month := filter _ (idbGetAll (trades db))).
  assert (Hcount :
    (length (filter (λ t, String.eqb (trade_result t) "win" = true) month)
     + length (filter (λ t, String.eqb (trade_result t) "loss" = true) month)
     + length (filter (λ t, String.eqb (trade_result t) "be" = true) month)
     ≤ length month)%nat).
  { apply filter_three_exclusive; intros t H1%String.eqb_eq H2%String.eqb_eq;
      congruence. }
  split; [exact Hcount|]. split; [apply length_filter|].
  destruct (Nat.eqb_spec (length month) 0) as [H0|H0]; cbn [negb].
  - split; [num_eval|]. split; [num_eval|]. intros _.
    apply nil_length_inv in H0. by rewrite H0.
  - destruct (win_rate_bounds
               (length (filter (λ t, String.eqb (trade_result t) "win" = true) month))
               (length month)) as (q & -> & Hq0 & Hq1); [lia|done|].
    unfold num_le, numZ. split; [|split]; [| |done].
    + apply bool_decide_eq_true. by rewrite Z2Qc_inj_0.
    + by apply bool_decide_eq_true.
Qed.

(** ** The window of the month *)

(** X9.  For a clock in a year of four digits, the window from
    [startOfMonthISO()] to [endOfMonthISO()] that [computeTradeStats] and
    [computeMonthlyPnl] test with [<] and [<=] on strings holds the dates of
    the current calendar month and no other: a trade, or a transaction that
    is no transfer, dated [toISODate] of a day of a year of four digits is
    counted exactly when that day is in the year and month of the clock. *)
Theorem X9_month_window_is_calendar_month (ck : Clock) (y m d : Z)
    (t : Trade) (x : Transaction) :
  1000 <= year ck <= 9999 → (month ck < 12)%nat →
  1000 <= y <= 9999 → 1 <= m <= 12 →
  1 <= d <= days_in_month y (Z.to_nat (m - 1)) →
  trade_date t = Some (toISODate y m d) →
  tx_date x = Some (toISODate y m d) → tx_type x ≠ "transfer"%string →
  (in_month (startOfMonthISO ck) (endOfMonthISO ck) t = true
   ↔ y = year ck ∧ m = Z.of_nat (month ck) + 1)
  ∧ (pnl_counted (startOfMonthISO ck) (endOfMonthISO ck) x = true
     ↔ y = year ck ∧ m = Z.of_nat (month ck) + 1).
Proof.
  intros Hyear Hmonth Hy Hm Hd Ht Hx Htype.
  pose proof (in_period_calendar_month ck y m d Hyear Hmonth Hy Hm Hd) as Hp.
  split.
  - by rewrite in_month_in_period, Ht.
  - rewrite pnl_counted_row. unfold Spec.pnl_row. rewrite Hx. tauto.
Qed.

Lemma X9_witness :
  in_month (startOfMonthISO Sample.clock) (endOfMonthISO Sample.clock)
    (Sample.trade "r1" (toISODate 2024 3 31) "win" (numZ 1)) = true
  ∧ pnl_counted (startOfMonthISO Sample.clock) (endOfMonthISO Sample.clock)
      (Sample.tx "t1" "normal" (toISODate 2024 3 31) "a1" (numZ 5)) = true.
Proof.
  destruct (X9_month_window_is_calendar_month Sample.clock 2024 3 31
              (Sample.trade "r1" (toISODate 2024 3 31) "win" (numZ 1))
              (Sample.tx "t1" "normal" (toISODate 2024 3 31) "a1" (numZ 5)))
    as [Ht Hx];
    [cbn; lia|cbn; lia|lia|lia|by vm_compute|done|done|done|].
  split; [apply Ht|apply Hx]; done.
Defined.

(** ** The projections and the cash *)

Lemma finite_le_refl (q : Qc) : finite_le (Fin q) (Fin q).
Proof. unfold finite_le, num_le. repeat split. qc_order. Qed.

Lemma finite_le_trans (a b c : num) :
  finite_le a b → finite_le b c → finite_le a c.
Proof.
  intros (Ha & Hb & Hab) (_ & Hc & Hbc).
  destruct a, b, c; try done. unfold finite_le, num_le in *.
  repeat split. qc_order.
Qed.

Lemma finite_le_add (a b c d : num) :
  finite_le a b → finite_le c d → finite_le (num_add a c) (num_add b d).
Proof.
  intros (Ha & Hb & Hab) (Hc & Hd & Hcd).
  destruct a, b, c, d; try done. unfold finite_le, num_le, num_add in *.
  repeat split. qc_order.
Qed.

Lemma foldl_sum_le {A} (f g : A → num) (l : list A) (a b : num) :
  finite_le a b → Forall (λ x, finite_le (g x) (f x)) l →
  finite_le (foldl (λ s x, num_add s (g x)) a l)
            (foldl (λ s x, num_add s (f x)) b l).
Proof.
  intros Hab Hl. revert a b Hab.
  induction Hl as [|x l Hx _ IH]; intros a b Hab; [done|].
  cbn [foldl]. apply IH. by apply finite_le_add.
Qed.

Lemma reduce_sum_zero {A} (l : list A) :
  reduce_sum (λ _ : A, Fin 0%Qc) l = Fin 0%Qc.
Proof.
  unfold reduce_sum. induction l as [|x l IH]; [done|].
  cbn [foldl]. by rewrite num_add_0_r.
Qed.

Lemma reduce_sum_filter {A} (f : A → num) (P : A → Prop)
    `{∀ x, Decision (P x)} (l : list A) :
  reduce_sum f (filter P l)
  = reduce_sum (λ x, if decide (P x) then f x else Fin 0%Qc) l.
Proof.
  unfold reduce_sum. generalize (Fin 0%Qc) at 1 3.
  induction l as [|x l IH]; intros a; [done|].
  rewrite filter_cons. cbn [foldl]. destruct (decide (P x)).
  - cbn [foldl]. apply IH.
  - rewrite num_add_0_r. apply IH.
Qed.

Lemma reduce_sum_le {A} (f g : A → num) (l : list A) :
  Forall (λ x, finite_le (g x) (f x)) l →
  finite_le (reduce_sum g l) (reduce_sum f l).
Proof. apply foldl_sum_le, finite_le_refl. Qed.

Lemma reduce_sum_filter_le {A} (f : A → num) (P : A → Prop)
    `{∀ x, Decision (P x)} (l : list A) :
  Forall (λ x, finite_le (Fin 0%Qc) (f x)) l →
  finite_le (Fin 0%Qc) (reduce_sum f (filter P l))
  ∧ finite_le (reduce_sum f (filter P l)) (reduce_sum f l).
Proof.
  intros Hl. rewrite reduce_sum_filter. split.
  - pose proof (reduce_sum_le
                  (λ x, if decide (P x) then f x else Fin 0%Qc)
                  (λ _, Fin 0%Qc) l) as Hle.
    rewrite reduce_sum_zero in Hle. apply Hle.
    eapply Forall_impl; [exact Hl|]. intros x Hx. simpl.
    destruct (decide (P x)); [done|apply finite_le_refl].
  - apply reduce_sum_le. eapply Forall_impl; [exact Hl|]. intros x Hx. simpl.
    destruct (decide (P x)); [|done].
    destruct Hx as (_ & Hf & _). destruct (f x); try done. apply finite_le_refl.
Qed.

Lemma risk_weight_bounds (c : option num) :
  c ≠ Some NaN →
  ∃ p, clamp (num_div (nullish c (numZ 60)) (numZ 100)) (numZ 0) (numZ 1) = Fin p
       ∧ (0 <= p)%Qc ∧ (p <= 1)%Qc.
Proof.
  intros Hc.
  assert (Hn : num_div (nullish c (numZ 60)) (numZ 100) ≠ NaN).
  { destruct c as [[q| | |]|]; try done; unfold nullish, num_div, numZ;
      by rewrite bool_decide_eq_false_2 by (by intros ?%(Z2Qc_inj 100 0)). }
  destruct (clamp_spec (numZ 0) (numZ 1) _ ltac:(num_eval) Hn) as (H0 & H1 & _).
  destruct (clamp _ _ _) as [p| | |]; try done.
  exists p. split; [done|]. unfold numZ, num_le in *.
  rewrite Z2Qc_inj_0 in H0. rewrite Z2Qc_inj_1 in H1.
  by apply bool_decide_eq_true in H0, H1.
Qed.

Lemma weighted_between (d : Debt) :
  plain_receivable d →
  finite_le (Fin 0%Qc) (Spec.weighted d) ∧ finite_le (Spec.weighted d) (Spec.amount d).
Proof.
  intros [(_ & Hf & Ha) Hc]. unfold Spec.weighted, Spec.amount, Spec.confidence.
  destruct (risk_weight_bounds _ Hc) as (p & -> & Hp0 & Hp1).
  destruct (or0 (debt_amount d)) as [a| | |]; try done.
  unfold num_le in Ha. apply bool_decide_eq_true in Ha.
  unfold num_mul, finite_le, num_le. split; (split; [done|split; [done|]]);
    apply bool_decide_eq_true.
  - by apply Qcmult_nonneg_nonneg.
  - rewrite <- (Qcmult_1_r a) at 2. by apply Qcmult_le_mono_nonneg_l.
Qed.

(** X10.  When the cash is a finite number and every open receivable has a
    finite amount that is not negative and a confidence that is not NaN,
    the two projections lie between the cash and the cash plus all the open
    receivables:
    actualCash <= riskAdjustedCash <= actualCash + openReceivablesTotal and
    actualCash <= expectedCash <= actualCash + openReceivablesTotal. *)
Theorem X10_projections_between_cash_and_receivables `{Host}
    (db : DB) (st : AppState) (ck : Clock) :
  Number_isFinite (actualCash (computeBalances db st ck)) = true →
  map_Forall (λ _ d, is_open_receivable d = true → plain_receivable d) (debts db) →
  let r := computeBalances db st ck in
  num_le (actualCash r) (riskAdjustedCash r) = true
  ∧ num_le (riskAdjustedCash r)
           (num_add (actualCash r) (openReceivablesTotal r)) = true
  ∧ num_le (actualCash r) (expectedCash r) = true
  ∧ num_le (expectedCash r)
           (num_add (actualCash r) (openReceivablesTotal r)) = true.
Proof.
  intros Hcash Hdebts r.
  apply idbGetAll_Forall in Hdebts.
  unfold r, computeBalances, balances in *.
  cbn [actualCash riskAdjustedCash expectedCash openReceivablesTotal] in *.
  set (cash := num_add _ _) in *.
  set (ds := idbGetAll (debts db)) in *.
  assert (Hopen : Forall plain_receivable (openReceivables ds)).
  { apply Forall_forall. intros d [Hd Hin]%list_elem_of_filter.
    rewrite Forall_forall in Hdebts. by apply Hdebts. }
  assert (Hamt : ∀ l, Forall plain_receivable l →
            Forall (λ d, finite_le (Fin 0%Qc) (or0 (debt_amount d))) l).
  { intros l Hl. eapply Forall_impl; [exact Hl|]. by intros d [? _]. }
  assert (Hdue : Forall plain_receivable (dueWithin st ck ds)).
  { unfold dueWithin. apply Forall_forall.
    intros d [_ Hin]%list_elem_of_filter.
    rewrite Forall_forall in Hopen. by apply Hopen. }
  destruct (reduce_sum_filter_le (λ d, or0 (debt_amount d))
              (λ d, due_within (now ck + horizonDays st * ms_per_day) d = true)
              (openReceivables ds) (Hamt _ Hopen)) as [Hdue0 Hdue1].
  fold (dueWithin st ck ds) in Hdue0, Hdue1.
  destruct (reduce_sum_filter_le (λ d, or0 (debt_amount d))
              (λ d, num_ge (nullish (debt_confidence d) (numZ 60))
                      (includeConfidenceMin st) = true)
              (dueWithin st ck ds) (Hamt _ Hdue)) as [Hexp0 Hexp1].
  fold (expectedIncluded st ck ds) in Hexp0, Hexp1.
  assert (Hrisk0 : finite_le (Fin 0%Qc)
            (reduce_sum (λ d, Spec.weighted d) (dueWithin st ck ds))).
  { pose proof (reduce_sum_le (λ d, Spec.weighted d) (λ _, Fin 0%Qc)
                  (dueWithin st ck ds)) as Hle.
    rewrite reduce_sum_zero in Hle. apply Hle.
    eapply Forall_impl; [exact Hdue|]. intros d Hd. by apply weighted_between. }
  assert (Hrisk1 : finite_le
            (reduce_sum (λ d, Spec.weighted d) (dueWithin st ck ds))
            (reduce_sum (λ d, or0 (debt_amount d)) (dueWithin st ck ds))).
  { apply reduce_sum_le.
    eapply Forall_impl; [exact Hdue|]. intros d Hd. by apply weighted_between. }
  assert (Hcash' : finite_le cash cash).
  { destruct cash; try done. apply finite_le_refl. }
  assert (Hadd : ∀ a b, finite_le a b →
            num_le (num_add cash a) (num_add cash b) = true).
  { intros a b Hab. by apply (finite_le_add cash cash a b). }
  rewrite <- (num_add_0_r cash) at 1 5.
  split; [|split; [|split]]; apply Hadd; try done.
  - by eapply finite_le_trans.
  - by eapply finite_le_trans.
Qed.

Lemma X10_witness :
  let r := computeBalances (H := sample_host) Sample.db initial_state Sample.clock in
  num_le (actualCash r) (riskAdjustedCash r) = true
  ∧ num_le (riskAdjustedCash r)
           (num_add (actualCash r) (openReceivablesTotal r)) = true
  ∧ num_le (actualCash r) (expectedCash r) = true
  ∧ num_le (expectedCash r)
           (num_add (actualCash r) (openReceivablesTotal r)) = true.
Proof.
  apply (X10_projections_between_cash_and_receivables (H := sample_host)
           Sample.db initial_state Sample.clock).
  - by vm_compute.
  - unfold Sample.db. cbn [debts]. unfold idbPut.
    apply map_Forall_insert_2; [|apply map_Forall_empty].
    intros _. split; [|done]. unfold finite_le. repeat split; num_eval.
Defined.

(** ** The order of [getAll] *)

Section store_order.
Context {R : Type} `{Keyed R}.

Lemma entry_le_trans : Transitive (@entry_le R).
Proof. intros a b c. unfold entry_le, str_le. apply (transitivity (R := String.le)). Qed.

Lemma entry_le_total : Total (@entry_le R).
Proof. intros a b. unfold entry_le, str_le. apply (stdpp.base.total String.le). Qed.

Lemma entry_le_antisym (a b : string * R) :
  entry_le a b → entry_le b a → a.1 = b.1.
Proof. unfold entry_le, str_le. apply (anti_symm String.le). Qed.

Lemma sorted_entries (st : gmap string R) :
  StronglySorted entry_le (merge_sort entry_le (map_to_list st)).
Proof.
  apply (StronglySorted_merge_sort _ (Transitive0 := entry_le_trans)
           (Total0 := entry_le_total)).
Qed.

(** The entries of a store in the order of their keys are the only sorted
    list of them. *)
Lemma sorted_entries_unique (st : gmap string R) (l : list (string * R)) :
  StronglySorted entry_le l → l ≡ₚ map_to_list st →
  merge_sort entry_le (map_to_list st) = l.
Proof.
  intros Hl Hp. apply (StronglySorted_unique_strong entry_le).
  - intros [k1 r1] [k2 r2] H1 H2 Hle1 Hle2.
    pose proof (entry_le_antisym _ _ Hle1 Hle2) as Hk. simpl in Hk. subst k2.
    rewrite merge_sort_Permutation in H1. rewrite Hp in H2.
    apply elem_of_map_to_list in H1, H2. congruence.
  - apply sorted_entries.
  - done.
  - by rewrite merge_sort_Permutation.
Qed.

Lemma sorted_entries_without (l1 l2 : list (string * R)) (e : string * R) :
  StronglySorted entry_le (l1 ++ e :: l2) → StronglySorted entry_le (l1 ++ l2).
Proof.
  rewrite !StronglySorted_app, StronglySorted_cons.
  intros (H12 & H1 & _ & H2). split; [|done].
  intros x1 x2 Hx1 Hx2. apply H12; [done|by right].
Qed.

Lemma sorted_entries_replace (l1 l2 : list (string * R)) (k : string) (r r' : R) :
  StronglySorted entry_le (l1 ++ (k, r) :: l2) →
  StronglySorted entry_le (l1 ++ (k, r') :: l2).
Proof.
  rewrite !StronglySorted_app, !StronglySorted_cons.
  intros (H12 & H1 & Hk & H2). split; [|done].
  intros x1 x2 Hx1 [->|Hx2]%elem_of_cons.
  - apply (H12 x1 (k, r)); [done|by left].
  - apply H12; [done|by right].
Qed.

(** [put] in a store, seen by [getAll]: the record goes to the place of its
    key; a record that was under that key is replaced. *)
Lemma idbGetAll_put (st : gmap string R) (r : R) :
  ∃ l1 l2,
    idbGetAll (idbPut st r) = l1 ++ r :: l2
    ∧ idbGetAll st
      = l1 ++ match st !! key_of r with Some r0 => r0 :: l2 | None => l2 end.
Proof.
  unfold idbGetAll, idbPut. set (k := key_of r).
  pose proof (sorted_entries (<[k:=r]> st)) as Hs.
  assert (Hin : (k, r) ∈ merge_sort entry_le (map_to_list (<[k:=r]> st))).
  { rewrite merge_sort_Permutation. apply elem_of_map_to_list, lookup_insert_eq. }
  apply list_elem_of_split in Hin as (m1 & m2 & Hm).
  pose proof (merge_sort_Permutation entry_le (map_to_list (<[k:=r]> st))) as Hp.
  rewrite Hm in Hs, Hp.
  assert (Hdel : m1 ++ m2 ≡ₚ map_to_list (delete k st)).
  { apply (Permutation_cons_inv (a := (k, r))).
    rewrite Permutation_middle, Hp.
    rewrite <- (insert_delete_eq st) at 1.
    apply map_to_list_insert, lookup_delete_eq. }
  exists m1.*2, m2.*2. split; [by rewrite Hm, fmap_app|].
  destruct (st !! k) as [r0|] eqn:Hk.
  - rewrite (sorted_entries_unique st (m1 ++ (k, r0) :: m2)).
    + by rewrite fmap_app.
    + by eapply sorted_entries_replace.
    + rewrite <- Permutation_middle, Hdel.
      by apply map_to_list_delete.
  - rewrite (sorted_entries_unique st (m1 ++ m2)).
    + by rewrite fmap_app.
    + by eapply sorted_entries_without.
    + by rewrite Hdel, delete_id.
Qed.

Lemma idbGetAll_put_fresh (st : gmap string R) (r : R) :
  st !! key_of r = None →
  ∃ l1 l2, idbGetAll (idbPut st r) = l1 ++ r :: l2 ∧ idbGetAll st = l1 ++ l2.
Proof.
  intros Hk. destruct (idbGetAll_put st r) as (l1 & l2 & H1 & H2).
  rewrite Hk in H2. by exists l1, l2.
Qed.
End store_order.

(** ** Account balances and transfers *)

Lemma or0_finite (n : num) : Number_isFinite n = true → or0 (Some n) = n.
Proof.
  destruct n as [q| | |]; try done. intros _. simpl.
  case_bool_decide; simpl; [by subst|done].
Qed.

Lemma parseAmount_string_finite (s : string) :
  Number_isFinite (parseAmount (InString s)) = true.
Proof.
  unfold parseAmount, parseAmount_string.
  destruct (String.eqb s ""); [done|].
  match goal with |- context [Number_isFinite ?n] => by destruct n end.
Qed.

Lemma pnl_step_transfer (s e : string) (acc : num * num) (t : Transaction) :
  tx_type t = "transfer"%string → pnl_step s e acc t = acc.
Proof.
  intros Ht. rewrite pnl_step_counted. unfold pnl_counted.
  by rewrite Ht, andb_false_r.
Qed.

Lemma monthlyPnl_put_transfer (ck : Clock) (st : gmap string Transaction)
    (t : Transaction) :
  tx_type t = "transfer"%string → st !! tx_id t = None →
  monthlyPnl ck (idbGetAll (idbPut st t)) = monthlyPnl ck (idbGetAll st).
Proof.
  intros Ht Hid.
  destruct (idbGetAll_put_fresh (H := Transaction_keyed) st t Hid)
    as (l1 & l2 & -> & ->).
  unfold monthlyPnl. rewrite !foldl_app. cbn [foldl].
  by rewrite pnl_step_transfer.
Qed.

(** X12.  A transfer is no income and no expense: saving one, with fresh
    ids for its two records, leaves the income, the expense and the net of
    [computeMonthlyPnl] as they were, whatever its amount and date. *)
Theorem X12_transfer_outside_monthly_pnl (db db' : DB) (st : AppState)
    (date_text today amt_text from to note : string)
    (id_from id_to hash_from hash_to : string) (ck : Clock) :
  transactions db !! id_from = None → transactions db !! id_to = None →
  transfer_save db st date_text today amt_text from to note
    id_from id_to hash_from hash_to = Some db' →
  computeMonthlyPnl db' ck = computeMonthlyPnl db ck.
Proof.
  intros Hfrom Hto. unfold transfer_save.
  destruct (negb _ || _); [done|]. intros [= <-].
  unfold computeMonthlyPnl. cbn [transactions set_transactions].
  destruct (decide (id_to = id_from)) as [->|Hne].
  - unfold idbPut at 1 2. cbn [key_of Transaction_keyed tx_id].
    unfold key_of. cbn [tx_id]. rewrite insert_insert_eq.
    by apply (monthlyPnl_put_transfer ck (transactions db) {| tx_id := id_from |}).
  - rewrite monthlyPnl_put_transfer; [|done|].
    + by apply monthlyPnl_put_transfer.
    + unfold idbPut, key_of, Transaction_keyed. cbn [tx_id].
      by rewrite lookup_insert_ne.
Qed.

Lemma X12_witness :
  ∃ db',
    transfer_save Sample.db initial_state "2024-03-04" "2024-03-01" "250"
      "a1" "a2" "" "t2" "t3" "" "" = Some db'
    ∧ computeMonthlyPnl db' Sample.clock = computeMonthlyPnl Sample.db Sample.clock.
Proof.
  eexists. split; [by vm_compute|].
  apply (X12_transfer_outside_monthly_pnl Sample.db _ initial_state
           "2024-03-04" "2024-03-01" "250" "a1" "a2" "" "t2" "t3" "" "");
    by vm_compute.
Defined.

Lemma num_neg_finite (a : num) :
  Number_isFinite a = true → Number_isFinite (num_neg a) = true.
Proof. by destruct a. Qed.

Lemma num_abs_positive (x : num) :
  Number_isFinite x = true → num_truthy (num_abs x) = true →
  num_gt (num_abs x) (numZ 0) = true.
Proof.
  replace (numZ 0) with (Fin 0%Qc) by num_eval.
  destruct x as [q| | |]; try done. intros _.
  unfold num_abs, qc_neg, num_gt.
  case_bool_decide as Hneg; cbn [num_truthy num_lt]; intros Hnz;
    apply negb_true_iff, bool_decide_eq_false in Hnz.
  - clear Hnz. qc_order.
  - apply bool_decide_eq_true. apply Qcnot_lt_le in Hneg.
    destruct (Qcle_lt_or_eq _ _ Hneg) as [Hlt|Heq]; [exact Hlt|].
    by destruct Hnz.
Qed.

(** X13.  A transfer that is saved stores a pair of records with opposite
    amounts and touches nothing else.  With two fresh and distinct ids, the
    transactions afterwards are those before, in their order, and two new
    records of type "transfer" with the same date: one on the sending
    account with the amount negated, one on the receiving account with the
    amount, which is the absolute value of what was typed, a finite number
    above 0.  The two accounts differ; the transactions of every other
    account, hence its balance, the accounts, the debts and the positions
    are what they were. *)
Theorem X13_transfer_stores_an_opposite_pair (db db' : DB) (st : AppState)
    (date_text today amt_text from to note : string)
    (id_from id_to hash_from hash_to : string) :
  transactions db !! id_from = None → transactions db !! id_to = None →
  id_from ≠ id_to →
  transfer_save db st date_text today amt_text from to note
    id_from id_to hash_from hash_to = Some db' →
  let a := num_abs (parseAmount (InString amt_text)) in
  let before := idbGetAll (transactions db) in
  let after := idbGetAll (transactions db') in
  from ≠ to
  ∧ Number_isFinite a = true ∧ num_gt a (numZ 0) = true
  ∧ (∃ fromTx toTx,
       after ≡ₚ fromTx :: toTx :: before
       ∧ before `sublist_of` after
       ∧ tx_id fromTx = id_from ∧ tx_id toTx = id_to
       ∧ tx_type fromTx = "transfer"%string ∧ tx_type toTx = "transfer"%string
       ∧ tx_accountId fromTx = from ∧ tx_accountId toTx = to
       ∧ tx_amount fromTx = Some (num_neg a) ∧ tx_amount toTx = Some a
       ∧ tx_date fromTx = tx_date toTx
       ∧ tx_date toTx
         = Some (if String.eqb date_text "" then today else date_text))
  ∧ (∀ other, other ≠ from → other ≠ to →
       filter (λ t, String.eqb (tx_accountId t) other = true) after
       = filter (λ t, String.eqb (tx_accountId t) other = true) before)
  ∧ (∀ start other, other ≠ from → other ≠ to →
       account_balance start other after = account_balance start other before)
  ∧ accounts db' = accounts db ∧ debts db' = debts db
  ∧ positions db' = positions db.
Proof.
  intros Hfrom Hto Hne. unfold transfer_save.
  set (amt := num_abs (parseAmount (InString amt_text))).
  destruct (num_truthy amt) eqn:Htruthy; [|done]. cbn [negb orb].
  destruct (String.eqb_spec from to) as [|Hft]; [done|]. intros [= <-].
  assert (Hamt : Number_isFinite amt = true).
  { apply num_abs_finite, parseAmount_string_finite. }
  assert (Hpos : num_gt amt (numZ 0) = true).
  { apply num_abs_positive; [apply parseAmount_string_finite|done]. }
  set (fromTx := {| tx_id := id_from |}). set (toTx := {| tx_id := id_to |}).
  cbn [transactions set_transactions accounts debts positions].
  destruct (idbGetAll_put_fresh (H := Transaction_keyed) (transactions db)
              fromTx Hfrom)
    as (l1 & l2 & Hput1 & Hget1).
  destruct (idbGetAll_put_fresh (H := Transaction_keyed)
              (idbPut (transactions db) fromTx) toTx)
    as (m1 & m2 & Hput2 & Hget2).
  { unfold idbPut, key_of, Transaction_keyed. cbn [fromTx toTx tx_id].
    by rewrite lookup_insert_ne. }
  cbv zeta. rewrite Hput2, Hget1.
  assert (Hfilter : ∀ other, other ≠ from → other ≠ to →
    filter (λ t, String.eqb (tx_accountId t) other = true) (m1 ++ toTx :: m2)
    = filter (λ t, String.eqb (tx_accountId t) other = true) (l1 ++ l2)).
  { intros other H1 H2. rewrite filter_app, filter_cons_False.
    - rewrite <- filter_app, <- Hget2, Hput1.
      rewrite filter_app, filter_cons_False; [by rewrite <- filter_app|].
      cbn [fromTx tx_accountId].
      by rewrite (proj2 (String.eqb_neq from other)).
    - cbn [toTx tx_accountId]. by rewrite (proj2 (String.eqb_neq to other)). }
  split; [done|]. split; [done|]. split; [done|]. split.
  { exists fromTx, toTx. split; [|split].
    - rewrite <- Permutation_middle, <- Hget2, Hput1, <- Permutation_middle.
      apply perm_swap.
    - transitivity (m1 ++ m2).
      + rewrite <- Hget2, Hput1. apply sublist_app; [done|].
        by apply sublist_cons.
      + apply sublist_app; [done|]. by apply sublist_cons.
    - repeat split. }
  split; [exact Hfilter|]. split; [|done].
  intros start other H1 H2. unfold account_balance. by rewrite Hfilter.
Qed.

Lemma X13_witness :
  ∃ db',
    transfer_save Sample.db initial_state "2024-03-04" "2024-03-01" "-250"
      "a1" "a2" "" "t2" "t3" "" "" = Some db'
    ∧ (tx_id <$> idbGetAll (transactions db') = ["t1"; "t2"; "t3"]%string)
    ∧ (tx_amount <$> idbGetAll (transactions db')
       = [Some (numZ (-850)); Some (numZ (-250)); Some (numZ 250)])
    ∧ num_gt (num_abs (parseAmount (InString "-250"))) (numZ 0) = true.
Proof.
  eexists. split; [by vm_compute|].
  split; [vm_compute; reflexivity|]. split; [num_eval|].
  refine (proj1 (proj2 (proj2 (X13_transfer_stores_an_opposite_pair
       Sample.db _ initial_state
       "2024-03-04" "2024-03-01" "-250" "a1" "a2" "" "t2" "t3" "" "" _ _ _ _)))).
  - by vm_compute.
  - by vm_compute.
  - done.
  - by vm_compute.
Defined.

(** ** Debts: confidence and closing *)

Lemma numZ_le (a b : Z) : num_le (numZ a) (numZ b) = bool_decide (a <= b).
Proof.
  unfold num_le, numZ. apply bool_decide_ext. symmetry. apply Z2Qc_inj_le.
Qed.

Lemma clamp_numZ (z a b : Z) :
  a <= b → clamp (numZ z) (numZ a) (numZ b) = numZ (Z.max a (Z.min b z)).
Proof.
  intros Hab. unfold clamp, Math_min.
  change (match numZ b with NaN => NaN | _ =>
            match numZ z with NaN => NaN | _ =>
              if num_le (numZ b) (numZ z) then numZ b else numZ z end end)
    with (if num_le (numZ b) (numZ z) then numZ b else numZ z).
  rewrite numZ_le. case_bool_decide.
  - unfold Math_max.
    change (match numZ a with NaN => NaN | _ =>
              match numZ b with NaN => NaN | _ =>
                if num_le (numZ b) (numZ a) then numZ a else numZ b end end)
      with (if num_le (numZ b) (numZ a) then numZ a else numZ b).
    rewrite numZ_le. case_bool_decide; f_equal; lia.
  - unfold Math_max.
    change (match numZ a with NaN => NaN | _ =>
              match numZ z with NaN => NaN | _ =>
                if num_le (numZ z) (numZ a) then numZ a else numZ z end end)
      with (if num_le (numZ z) (numZ a) then numZ a else numZ z).
    rewrite numZ_le. case_bool_decide; f_equal; lia.
Qed.

Lemma parseInt10_cases (s : string) :
  parseInt10 s = NaN ∨ parseInt10 s = PInf ∨ parseInt10 s = NInf
  ∨ ∃ z, parseInt10 s = numZ z.
Proof.
  unfold parseInt10.
  destruct (match trim_start s with
            | String c r =>
                if Ascii.eqb c "-" then (true, r)
                else if Ascii.eqb c "+" then (false, r) else (false, trim_start s)
            | EmptyString => (false, trim_start s)
            end) as [negative body].
  destruct (span_digits body) as [z r].
  destruct (String.eqb z ""); [by left|].
  unfold num_of_literal. case_bool_decide.
  - destruct negative; auto.
  - do 3 right. destruct negative.
    + exists (- digits_value z). unfold numZ. by rewrite Z2Qc_inj_opp.
    + by exists (digits_value z).
Qed.

Lemma confidencePresetToValue_range (p : string) :
  ∃ z, confidencePresetToValue p = numZ z ∧ 0 <= z <= 100.
Proof.
  unfold confidencePresetToValue.
  destruct (String.eqb p preset_Kesin); [by exists 95|].
  destruct (String.eqb p preset_Muhtemel); [by exists 70|].
  destruct (String.eqb p preset_Supheli); [by exists 40|].
  destruct (String.eqb p preset_Umutsuz); [by exists 10|].
  destruct (parseInt10_cases p) as [->|[->|[->|[z ->]]]];
    try by exists 60.
  cbn [Number_isFinite numZ]. rewrite clamp_numZ by done.
  eexists. split; [done|lia].
Qed.

(** X14.  The confidence presets: [confidencePresetToValue] returns an
    integer from 0 to 100 for every string (95, 70, 40 and 10 for the four
    presets, a number typed instead clamped, 60 for anything else), and the
    value of a preset falls in the band that [confidenceValueToPreset] maps
    back to it, so converting a value to its preset is stable: the preset
    of the value of the preset of [v] is the preset of [v], for every
    number [v], NaN included. *)
Theorem X14_confidence_presets :
  (∀ p, ∃ z, confidencePresetToValue p = numZ z ∧ 0 <= z <= 100)
  ∧ (∀ p, p ∈ [preset_Kesin; preset_Muhtemel; preset_Supheli; preset_Umutsuz] →
          confidenceValueToPreset (confidencePresetToValue p) = p)
  ∧ (∀ v, confidenceValueToPreset
            (confidencePresetToValue (confidenceValueToPreset v))
          = confidenceValueToPreset v).
Proof.
  split; [apply confidencePresetToValue_range|].
  assert (Hfour : ∀ p,
    p ∈ [preset_Kesin; preset_Muhtemel; preset_Supheli; preset_Umutsuz] →
    confidenceValueToPreset (confidencePresetToValue p) = p).
  { intros p Hp. repeat (apply elem_of_cons in Hp as [->|Hp]; [by vm_compute|]).
    by apply elem_of_nil in Hp. }
  split; [exact Hfour|]. intros v. apply Hfour.
  unfold confidenceValueToPreset.
  repeat (match goal with |- context [num_ge ?a ?b] => destruct (num_ge a b) end;
          [set_solver|]).
  set_solver.
Qed.

Lemma preset_text_parsed :
  forallb (λ z, bool_decide (parseInt10 <$> Number_toString (numZ z) = Some (numZ z)))
    (seqZ 0 101) = true.
Proof. by vm_compute. Qed.

Lemma preset_value_text (z : Z) :
  0 <= z <= 100 →
  ∃ text, Number_toString (numZ z) = Some text ∧ parseInt10 text = numZ z.
Proof.
  intros Hz. pose proof preset_text_parsed as Hall.
  rewrite forallb_forall in Hall.
  specialize (Hall z). rewrite <- list_elem_of_In, elem_of_seqZ in Hall.
  specialize (Hall ltac:(lia)). apply bool_decide_eq_true in Hall.
  destruct (Number_toString (numZ z)) as [text|]; [|done].
  exists text. split; [done|]. by injection Hall.
Qed.

Lemma debt_form_confidence_range (conf_text preset : string) :
  ∃ z, debt_form_confidence conf_text preset = Some (numZ z) ∧ 0 <= z <= 100.
Proof.
  unfold debt_form_confidence.
  destruct (confidencePresetToValue_range preset) as (f & -> & Hf).
  assert (Hclamp : ∀ n,
    n = NaN ∨ n = PInf ∨ n = NInf ∨ (∃ z, n = numZ z) →
    ∃ z, clamp (if num_truthy n then n else numZ f) (numZ 0) (numZ 100) = numZ z
         ∧ 0 <= z <= 100).
  { intros n [->|[->|[->|[z ->]]]].
    - cbn [num_truthy]. rewrite clamp_numZ by done. eexists. split; [done|lia].
    - exists 100. split; [num_eval|lia].
    - exists 0. split; [num_eval|lia].
    - destruct (num_truthy (numZ z)); rewrite clamp_numZ by done;
        (eexists; split; [done|lia]). }
  destruct (String.eqb conf_text "").
  - destruct (preset_value_text f Hf) as (text & -> & Hn). cbn [mbind option_bind].
    destruct (Hclamp (parseInt10 text)) as (z & -> & Hz); [|by exists z].
    rewrite Hn. do 3 right. by exists f.
  - cbn [mbind option_bind].
    destruct (Hclamp (parseInt10 conf_text) (parseInt10_cases conf_text))
      as (z & -> & Hz). by exists z.
Qed.

(** X15.  Whatever is typed in the debt form, the record that is stored has
    a confidence that is an integer from 0 to 100 and an amount that is a
    finite number and not negative: it is a receivable as
    [X10_projections_between_cash_and_receivables] asks for.  A confidence
    typed as 0, or as a text that is no number, is replaced by the value of
    the selected preset ([parseInt(...) || preset]). *)
Theorem X15_debt_form_stores_sound_numbers (existing : option Debt)
    (dir status person amt_text due conf_text preset note id : string) :
  (∃ d z,
     debt_form_record existing dir status person amt_text due conf_text preset
       note id = Some d
     ∧ debt_confidence d = Some (numZ z) ∧ 0 <= z <= 100
     ∧ plain_receivable d)
  ∧ (num_truthy (parseInt10 conf_text) = false → conf_text ≠ ""%string →
     debt_form_confidence conf_text preset = Some (confidencePresetToValue preset)).
Proof.
  split.
  - unfold debt_form_record.
    destruct (debt_form_confidence_range conf_text preset) as (z & -> & Hz).
    cbn [mbind option_bind]. eexists _, z. split; [done|].
    split; [done|]. split; [done|]. split; [|done].
    cbn [debt_amount].
    pose proof (parseAmount_string_finite amt_text) as Hfin.
    destruct (parseAmount (InString amt_text)) as [q| | |]; try done.
    assert (Habs : Number_isFinite (num_abs (Fin q)) = true) by by apply num_abs_finite.
    rewrite or0_finite by done.
    split; [done|]. split; [done|]. by apply num_abs_nonneg.
  - intros Hn Htext. unfold debt_form_confidence.
    rewrite (proj2 (String.eqb_neq _ _)) by done. cbn [mbind option_bind].
    rewrite Hn. destruct (confidencePresetToValue_range preset) as (f & -> & Hf).
    rewrite clamp_numZ by done. do 2 f_equal. lia.
Qed.

Lemma X15_witness :
  debt_form_confidence "0" preset_Supheli = Some (numZ 40).
Proof.
  refine (eq_trans
    (proj2 (X15_debt_form_stores_sound_numbers None "" "" "" "" "" "0"
              preset_Supheli "" "") _ _) _); by vm_compute.
Defined.

Lemma filter_all {A} (P : A → Prop) `{∀ x, Decision (P x)} (l : list A) :
  Forall P l → filter P l = l.
Proof.
  induction 1 as [|x l Hx _ IH]; [done|]. by rewrite filter_cons_True, IH.
Qed.

Section store_keys.
Context {R : Type} `{Keyed R}.

Lemma idbGetAll_NoDup_keys (st : gmap string R) :
  store_wf st → NoDup (key_of <$> idbGetAll st).
Proof.
  intros Hwf.
  assert (Heq : key_of <$> idbGetAll st
                = (merge_sort entry_le (map_to_list st)).*1).
  { rewrite <- idbGetAll_entries by done. rewrite <- list_fmap_compose.
    by apply list_fmap_ext. }
  rewrite Heq, merge_sort_Permutation. apply NoDup_fst_map_to_list.
Qed.

Lemma idbGetAll_lookup (st : gmap string R) (r : R) :
  store_wf st → r ∈ idbGetAll st ↔ st !! key_of r = Some r.
Proof.
  intros Hwf. unfold idbGetAll. rewrite list_elem_of_fmap. split.
  - intros ([k r'] & -> & Hin). rewrite merge_sort_Permutation in Hin.
    apply elem_of_map_to_list in Hin. simpl.
    by rewrite (Hwf k r' Hin).
  - intros Hr. exists (key_of r, r). split; [done|].
    rewrite merge_sort_Permutation. by apply elem_of_map_to_list.
Qed.

(** Replacing the record of a key, seen by a filter that the new record
    does not pass. *)
Lemma filter_put_out (P : R → Prop) `{∀ x, Decision (P x)}
    (st : gmap string R) (r0 r : R) :
  store_wf st → st !! key_of r = Some r0 → ¬ P r →
  filter P (idbGetAll (idbPut st r))
  = filter (λ x, key_of x ≠ key_of r) (filter P (idbGetAll st)).
Proof.
  intros Hwf Hr0 HP.
  pose proof (idbGetAll_NoDup_keys st Hwf) as Hnd.
  destruct (idbGetAll_put st r) as (l1 & l2 & -> & Hget).
  rewrite Hr0 in Hget. rewrite Hget in Hnd |- *.
  assert (Hk0 : key_of r0 = key_of r) by by apply Hwf in Hr0.
  rewrite fmap_app, fmap_cons, Hk0 in Hnd.
  apply NoDup_app in Hnd as (_ & Hl1 & [Hl2 _]%NoDup_cons).
  assert (Hid : ∀ l : list R, key_of r ∉ key_of <$> l →
            filter (λ x, key_of x ≠ key_of r) (filter P l) = filter P l).
  { intros l Hl. apply filter_all, Forall_forall.
    intros x [_ Hx]%list_elem_of_filter Hkx. apply Hl.
    rewrite <- Hkx. by apply list_elem_of_fmap_2. }
  rewrite !filter_app, !filter_cons.
  rewrite (decide_False (P := P r)) by done.
  rewrite (Hid l1) by (intros Hin; by apply (Hl1 (key_of r)); [|left]).
  f_equal. destruct (decide (P r0)).
  - rewrite filter_cons, decide_False by (by intros ?). symmetry. by apply Hid.
  - symmetry. by apply Hid.
Qed.
End store_keys.

(** X16.  [markDebtClosed(id)] takes the debt out of the open ones and
    touches nothing else: in a store whose records sit under their ids, the
    open receivables and the open payables afterwards are those of before
    without the debt of that id, in the same order; when no debt has the
    id, the store is left as it is. *)
Theorem X16_markDebtClosed_leaves_the_open_debts (db : DB) (id : string) :
  store_wf (debts db) →
  let before := idbGetAll (debts db) in
  let after := idbGetAll (debts (markDebtClosed db id)) in
  openReceivables after = filter (λ d, debt_id d ≠ id) (openReceivables before)
  ∧ openPayables after = filter (λ d, debt_id d ≠ id) (openPayables before)
  ∧ (debts db !! id = None → markDebtClosed db id = db).
Proof.
  intros Hwf. cbv zeta. unfold markDebtClosed, idbGet.
  destruct (debts db !! id) as [d|] eqn:Hd.
  - assert (Hkey : debt_id d = id) by by apply Hwf in Hd.
    cbn [debts set_debts]. set (d' := {| debt_id := debt_id d |}).
    assert (Hd' : debts db !! key_of d' = Some d).
    { unfold key_of, Debt_keyed. cbn [d' debt_id]. by rewrite Hkey. }
    assert (Hclosed : is_open_receivable d' ≠ true ∧ is_open_payable d' ≠ true).
    { unfold is_open_receivable, is_open_payable. cbn [d' debt_status].
      by rewrite !andb_false_r. }
    destruct Hclosed as [Hrec Hpay].
    unfold openReceivables, openPayables. split; [|split; [|done]].
    + rewrite (filter_put_out (H := Debt_keyed) _ (debts db) d d' Hwf Hd' Hrec).
      apply list_filter_iff. intros x. unfold key_of, Debt_keyed.
      cbn [d' debt_id]. by rewrite Hkey.
    + rewrite (filter_put_out (H := Debt_keyed) _ (debts db) d d' Hwf Hd' Hpay).
      apply list_filter_iff. intros x. unfold key_of, Debt_keyed.
      cbn [d' debt_id]. by rewrite Hkey.
  - assert (Hall : ∀ P `{∀ x, Decision (P x)},
      filter (λ d : Debt, debt_id d ≠ id) (filter P (idbGetAll (debts db)))
      = filter P (idbGetAll (debts db))).
    { intros P ?. apply filter_all, Forall_forall.
      intros x [_ Hx]%list_elem_of_filter Hid.
      apply (idbGetAll_lookup (H := Debt_keyed)) in Hx; [|done].
      unfold key_of, Debt_keyed in Hx. congruence. }
    unfold openReceivables, openPayables. by rewrite !Hall.
Qed.

Lemma X16_witness :
  openReceivables (idbGetAll (debts (markDebtClosed Sample.db "d1"))) = [].
Proof.
  by rewrite (proj1 (X16_markDebtClosed_leaves_the_open_debts Sample.db "d1"
                       ltac:(by apply (bool_decide_unpack _); vm_compute))).
Defined.

(** ** The cash and the balances of the accounts *)

Lemma sum_num_cons (x : num) (l : list num) :
  sum_num (x :: l) = num_add x (sum_num l).
Proof. done. Qed.

Lemma filter_split_perm {A} (P Q : A → Prop)
    `{∀ x, Decision (P x)} `{∀ x, Decision (Q x)} (l : list A) :
  filter Q l ≡ₚ filter (λ x, Q x ∧ P x) l ++ filter (λ x, Q x ∧ ¬ P x) l.
Proof.
  induction l as [|x l IH]; [done|].
  rewrite !filter_cons.
  destruct (decide (Q x)) as [HQ|HQ], (decide (P x)) as [HP|HP].
  - rewrite (decide_True (P := Q x ∧ P x)), (decide_False (P := Q x ∧ ¬ P x))
      by tauto.
    cbn [app]. by rewrite IH.
  - rewrite (decide_False (P := Q x ∧ P x)), (decide_True (P := Q x ∧ ¬ P x))
      by tauto.
    by rewrite <- Permutation_middle, IH.
  - by rewrite (decide_False (P := Q x ∧ P x)),
      (decide_False (P := Q x ∧ ¬ P x)) by tauto.
  - by rewrite (decide_False (P := Q x ∧ P x)),
      (decide_False (P := Q x ∧ ¬ P x)) by tauto.
Qed.

Lemma in_bank_account_cons (a : Account) (accs : list Account) (t : Transaction) :
  in_bank_account (a :: accs) t
  = if String.eqb (acc_id a) (tx_accountId t) then String.eqb (acc_type a) "Banka"
    else in_bank_account accs t.
Proof.
  unfold in_bank_account, js_find. cbn [find].
  by destruct (String.eqb (acc_id a) (tx_accountId t)).
Qed.

(** Every transaction is in the row of one account, or is of no account. *)
Lemma rows_partition (accs : list Account) (txs : list Transaction) :
  NoDup (acc_id <$> accs) →
  txs ≡ₚ mjoin ((λ a, filter (λ t, String.eqb (tx_accountId t) (acc_id a) = true)
                        txs) <$> accs)
         ++ filter (dangling accs) txs.
Proof.
  induction accs as [|a accs IH]; intros Hnd.
  - cbn [fmap list_fmap mjoin list_join app].
    rewrite filter_all; [done|]. apply Forall_forall. intros t _. constructor.
  - rewrite fmap_cons, NoDup_cons in Hnd. destruct Hnd as [Ha Hnd].
    rewrite fmap_cons. cbn [mjoin list_join].
    rewrite (IH Hnd) at 1.
    rewrite (filter_split_perm
               (λ t, String.eqb (tx_accountId t) (acc_id a) = true)
               (dangling accs) txs).
    assert (H1 :
      filter (λ t, dangling accs t
                   ∧ String.eqb (tx_accountId t) (acc_id a) = true) txs
      = filter (λ t, String.eqb (tx_accountId t) (acc_id a) = true) txs).
    { apply list_filter_iff. intros t. split; [by intros [_ ?]|].
      intros Ht. split; [|done]. apply Forall_forall. intros a' Ha' Heq.
      apply Ha. apply String.eqb_eq in Ht. rewrite <- Ht, <- Heq.
      by apply list_elem_of_fmap_2. }
    assert (H2 :
      filter (λ t, dangling accs t
                   ∧ ¬ String.eqb (tx_accountId t) (acc_id a) = true) txs
      = filter (dangling (a :: accs)) txs).
    { apply list_filter_iff. intros t. unfold dangling.
      rewrite Forall_cons, not_true_iff_false, String.eqb_neq. split.
      - intros [? Hne]. split; [|done]. by intros Heq.
      - intros [Hne ?]. split; [done|]. by intros Heq. }
    rewrite H1, H2, !app_assoc. apply Permutation_app_tail, Permutation_app_comm.
Qed.

(** The transactions of the bank accounts are those of the rows of the
    accounts of type "Banka". *)
Lemma bank_rows_partition (accs : list Account) (txs : list Transaction) :
  NoDup (acc_id <$> accs) →
  filter (λ t, in_bank_account accs t = true) txs
  ≡ₚ mjoin ((λ a, filter (λ t, String.eqb (tx_accountId t) (acc_id a) = true)
                    txs)
            <$> filter (λ a, String.eqb (acc_type a) "Banka" = true) accs).
Proof.
  induction accs as [|a accs IH]; intros Hnd.
  - rewrite filter_none; [done|]. by apply Forall_forall.
  - rewrite fmap_cons, NoDup_cons in Hnd. destruct Hnd as [Ha Hnd].
    rewrite (filter_split_perm
               (λ t, String.eqb (tx_accountId t) (acc_id a) = true)
               (λ t, in_bank_account (a :: accs) t = true) txs).
    assert (Hrest :
      filter (λ t, in_bank_account (a :: accs) t = true
                   ∧ ¬ String.eqb (tx_accountId t) (acc_id a) = true) txs
      = filter (λ t, in_bank_account accs t = true) txs).
    { apply list_filter_iff. intros t. rewrite in_bank_account_cons.
      rewrite (String.eqb_sym (tx_accountId t)).
      destruct (String.eqb_spec (acc_id a) (tx_accountId t)) as [Heq|Hne].
      - split; [by intros [_ ?]|]. intros Hb.
        apply in_bank_account_resolves in Hb as (a' & Ha' & Hid & _).
        destruct Ha. rewrite Heq, <- Hid. by apply list_elem_of_fmap_2.
      - split; [by intros [? _]|]. by intros ?. }
    rewrite Hrest, (IH Hnd). rewrite filter_cons.
    destruct (String.eqb (acc_type a) "Banka") eqn:Hty.
    + rewrite decide_True by done. rewrite fmap_cons. cbn [mjoin list_join].
      apply Permutation_app_tail.
      assert (Hrow :
        filter (λ t, in_bank_account (a :: accs) t = true
                     ∧ String.eqb (tx_accountId t) (acc_id a) = true) txs
        = filter (λ t, String.eqb (tx_accountId t) (acc_id a) = true) txs);
        [|by rewrite Hrow].
      apply list_filter_iff. intros t.
      rewrite in_bank_account_cons, (String.eqb_sym (tx_accountId t)).
      destruct (String.eqb (acc_id a) (tx_accountId t)); [|by split; [intros [? ?]|]].
      rewrite Hty. tauto.
    + rewrite decide_False by done.
      rewrite filter_none; [done|].
      apply Forall_forall. intros t _. rewrite in_bank_account_cons.
      rewrite (String.eqb_sym (tx_accountId t)).
      destruct (String.eqb (acc_id a) (tx_accountId t)); [|by intros [_ ?]].
      rewrite Hty. by intros [? _].
Qed.

(** X17.  [computeBalances] and [viewAccounts] count the same transactions.
    The balance of a row of [viewAccounts] is the starting balance of the
    account plus the amounts of the transactions with its id, [actualCash]
    adds to all the starting balances the amounts of all the transactions,
    and [cashInBank] adds to the starting balances of the accounts of type
    "Banka" the amounts of the transactions that [in_bank_account] keeps.
    In a store whose accounts sit under their ids, the transactions are,
    each as many times as it occurs, those of the rows of the accounts
    together with those of no account; and those that [cashInBank] keeps
    are those of the rows of the accounts of type "Banka". *)
Theorem X17_rows_and_cash_count_the_same_transactions `{Host}
    (db : DB) (st : AppState) (ck : Clock) :
  store_wf (accounts db) →
  let accs := idbGetAll (accounts db) in
  let txs := idbGetAll (transactions db) in
  let row a := filter (λ t, String.eqb (tx_accountId t) (acc_id a) = true) txs in
  let amounts := reduce_sum (λ t, or0 (tx_amount t)) in
  let banks := filter (λ a, String.eqb (acc_type a) "Banka" = true) accs in
  let r := computeBalances db st ck in
  viewAccounts db
  = (λ a, (a, num_add (or0 (acc_startingBalance a)) (amounts (row a)))) <$> accs
  ∧ actualCash r
    = num_add (reduce_sum (λ a, or0 (acc_startingBalance a)) accs) (amounts txs)
  ∧ cashInBank r
    = num_add (reduce_sum (λ a, or0 (acc_startingBalance a)) banks)
        (amounts (filter (λ t, in_bank_account accs t = true) txs))
  ∧ txs ≡ₚ mjoin (row <$> accs) ++ filter (dangling accs) txs
  ∧ filter (λ t, in_bank_account accs t = true) txs ≡ₚ mjoin (row <$> banks).
Proof.
  intros Hwf. cbv zeta.
  pose proof (idbGetAll_NoDup_keys (H := Account_keyed) (accounts db) Hwf) as Hnd.
  change (key_of <$> idbGetAll (accounts db))
    with (acc_id <$> idbGetAll (accounts db)) in Hnd.
  split; [done|]. split; [done|]. split; [done|]. split.
  - by apply rows_partition.
  - by apply bank_rows_partition.
Qed.

Lemma X17_witness :
  let txs := idbGetAll (transactions Sample.db) in
  let accs := idbGetAll (accounts Sample.db) in
  tx_id <$> filter (λ t, in_bank_account accs t = true) txs = ["t1"]%string
  ∧ filter (λ t, in_bank_account accs t = true) txs
    ≡ₚ mjoin ((λ a, filter (λ t, String.eqb (tx_accountId t) (acc_id a) = true)
                      txs)
              <$> filter (λ a, String.eqb (acc_type a) "Banka" = true) accs).
Proof.
  intros txs accs. split; [vm_compute; reflexivity|].
  refine (proj2 (proj2 (proj2 (proj2
    (X17_rows_and_cash_count_the_same_transactions (H := sample_host)
       Sample.db initial_state Sample.clock _))))).
  apply (bool_decide_unpack _). by vm_compute.
Defined.

(** ** Seeding, reset and the base currency *)

Lemma seed_categories (db : DB) (cats : list Category) :
  foldl (λ d c, set_categories d (idbPut (categories d) c)) db cats
  = set_categories db (foldl idbPut (categories db) cats).
Proof.
  revert db. induction cats as [|c cats IH]; intros db; [by destruct db|].
  cbn [foldl]. by rewrite IH.
Qed.

Lemma seedIfNeeded_seeded (db : DB) (uid : nat → string) :
  from_option (λ m, meta_truthy (meta_val m)) false
    (idbGetMeta (seedIfNeeded db uid) "seeded") = true.
Proof.
  unfold seedIfNeeded.
  destruct (from_option _ false (idbGetMeta db "seeded")) eqn:Hs; [done|].
  unfold idbGetMeta, idbSetMeta, idbGet, idbPut. cbn [meta set_meta].
  unfold key_of, Meta_keyed. cbn [meta_key]. by rewrite lookup_insert_eq.
Qed.

(** X18.  [seedIfNeeded] seeds once: run again on its own result, with
    whatever ids, it changes nothing; it never touches the transactions,
    the debts, the positions, the trades or the goals; and the accounts it
    finds stay as they are, unless one sits under an id that [uid()] returns
    for a seeded account. *)
Theorem X18_seedIfNeeded_seeds_once (db : DB) (uid uid' : nat → string) :
  let db1 := seedIfNeeded db uid in
  seedIfNeeded db1 uid' = db1
  ∧ transactions db1 = transactions db ∧ debts db1 = debts db
  ∧ positions db1 = positions db ∧ trades db1 = trades db
  ∧ goals db1 = goals db
  ∧ ∀ k, k ≠ uid 10%nat → k ≠ uid 11%nat →
      idbGet (accounts db1) k = idbGet (accounts db) k.
Proof.
  cbv zeta. split.
  - pose proof (seedIfNeeded_seeded db uid) as Hs.
    unfold seedIfNeeded at 1. by rewrite Hs.
  - unfold seedIfNeeded.
    destruct (from_option _ false (idbGetMeta db "seeded")); [done|].
    rewrite seed_categories. repeat split.
    intros k H10 H11. unfold idbGet, idbPut, key_of, Account_keyed.
    cbn [accounts set_accounts set_categories set_meta idbSetMeta acc_id].
    by rewrite !lookup_insert_ne.
Qed.

Lemma idbGetAll_empty {R} `{Keyed R} : idbGetAll (∅ : gmap string R) = [].
Proof. unfold idbGetAll. by rewrite map_to_list_empty. Qed.

Lemma reduce_sum_all_zero {A} (f : A → num) (l : list A) :
  Forall (λ x, f x = Fin 0%Qc) l → reduce_sum f l = Fin 0%Qc.
Proof.
  intros Hl. rewrite reduce_sum_sum.
  induction Hl as [|x l Hx _ IH]; [done|].
  by rewrite fmap_cons, sum_num_cons, Hx, IH, num_add_0_l.
Qed.

(** X19.  After [resetAll] every figure of [computeBalances] is 0 and the
    monthly income and expense are 0, whatever the store held and whatever
    ids [uid()] returns; the state is left as it was, so a base currency
    chosen before the reset is still the one of the state, though the store
    no longer holds it: the next start of the application is back on the
    state of the source text. *)
Theorem X19_resetAll_zeroes_the_figures `{Host} (db : DB) (st : AppState)
    (uid uid' : nat → string) (ck : Clock) :
  let db' := (resetAll db st uid).1 in
  let r := computeBalances db' st ck in
  (resetAll db st uid).2 = st
  ∧ (init db' uid').2 = initial_state
  ∧ actualCash r = Fin 0%Qc ∧ cashInBank r = Fin 0%Qc
  ∧ expectedCash r = Fin 0%Qc ∧ riskAdjustedCash r = Fin 0%Qc
  ∧ investmentsCurrent r = Fin 0%Qc ∧ debtTotal r = Fin 0%Qc
  ∧ netWorth r = Fin 0%Qc
  ∧ income (computeMonthlyPnl db' ck) = Fin 0%Qc
  ∧ expense (computeMonthlyPnl db' ck) = Fin 0%Qc.
Proof.
  cbv zeta. unfold resetAll, idbClear. cbn [fst snd].
  set (db0 := {| accounts := ∅ |}).
  assert (Hseed : seedIfNeeded db0 uid
    = idbSetMeta
        (set_accounts
           (set_categories db0
              (foldl idbPut ∅
                 (imap (λ i name, {| cat_id := uid i; cat_name := name |})
                    defaultCats)))
           (idbPut (idbPut ∅
              {| acc_id := uid 10%nat; acc_name := "Ana Banka"; acc_type := "Banka";
                 acc_currency := "EUR"; acc_startingBalance := Some (numZ 0);
                 acc_note := "" |})
              {| acc_id := uid 11%nat; acc_name := "Nakit"; acc_type := "Nakit";
                 acc_currency := "EUR"; acc_startingBalance := Some (numZ 0);
                 acc_note := "" |}))
        "seeded" (MBool true)).
  { unfold seedIfNeeded. unfold idbGetMeta at 1, idbGet. cbn [meta db0].
    rewrite lookup_empty. cbn [from_option]. by rewrite seed_categories. }
  rewrite Hseed. clear Hseed.
  set (accs := idbPut (idbPut ∅ _) _).
  assert (Hcur : ∀ s, loadCurrency
            (idbSetMeta (set_accounts (set_categories db0
               (foldl idbPut ∅
                  (imap (λ i name, {| cat_id := uid i; cat_name := name |})
                     defaultCats))) accs) "seeded" (MBool true)) s = s).
  { intros s. unfold loadCurrency, idbGet, idbSetMeta, idbPut, key_of, Meta_keyed.
    cbn [meta set_meta set_accounts set_categories db0 meta_key].
    by rewrite lookup_insert_ne, lookup_empty. }
  split; [apply Hcur|]. split.
  { unfold init. cbn [snd].
    unfold seedIfNeeded at 1.
    match goal with |- context [from_option ?f false ?o] =>
      assert (Hs : from_option f false o = true) end.
    { unfold idbGetMeta, idbSetMeta, idbGet, idbPut, key_of, Meta_keyed.
      cbn [meta set_meta meta_key]. by rewrite lookup_insert_eq. }
    rewrite Hs. apply Hcur. }
  assert (Hzero : Forall (λ a, or0 (acc_startingBalance a) = Fin 0%Qc)
                    (idbGetAll accs)).
  { apply (idbGetAll_Forall (H := Account_keyed)
             (λ a, or0 (acc_startingBalance a) = Fin 0%Qc)).
    unfold accs, idbPut.
    repeat (apply map_Forall_insert_2; [num_eval|]). apply map_Forall_empty. }
  unfold computeBalances, balances, computeMonthlyPnl, monthlyPnl.
  cbn [accounts transactions debts positions set_accounts set_categories
       set_meta idbSetMeta db0
       actualCash cashInBank expectedCash riskAdjustedCash investmentsCurrent
       debtTotal netWorth].
  rewrite !idbGetAll_empty.
  unfold expectedIncluded, dueWithin, openReceivables, openPayables.
  rewrite !filter_nil. cbn [foldl income expense].
  rewrite (reduce_sum_all_zero _ (idbGetAll accs) Hzero).
  rewrite (reduce_sum_all_zero _ (filter _ (idbGetAll accs)))
    by by apply Forall_filter_weaken.
  repeat split; num_eval.
Qed.

Section import_facts.
Context {R : Type} `{Keyed R}.

Lemma ascending_keys_entries (l : list R) :
  ascending_keys l →
  StronglySorted entry_le ((λ r, (key_of r, r)) <$> l)
  ∧ NoDup (key_of <$> l).
Proof.
  induction 1 as [|r l Hl [IHs IHn] Hr]; [split; constructor|].
  rewrite !fmap_cons. split.
  - constructor; [done|]. apply Forall_fmap.
    eapply Forall_impl; [exact Hr|]. intros x Hx. unfold entry_le, str_le.
    cbn [fst compose]. unfold str_lt, String.ltb in Hx. unfold String.leb.
    by destruct (String.compare (key_of r) (key_of x)).
  - constructor; [|done]. intros (x & Hk & Hx)%list_elem_of_fmap.
    rewrite Forall_forall in Hr. specialize (Hr x Hx).
    rewrite <- Hk in Hr. unfold str_lt, String.ltb in Hr.
    pose proof (String.compare_antisym (key_of r) (key_of r)) as Ha.
    by destruct (String.compare (key_of r) (key_of r)).
Qed.

(** Putting records whose keys go up strictly into a cleared store and
    listing the store gives the records back. *)
Lemma idbGetAll_import_store (st0 : gmap string R) (l : list R) :
  ascending_keys l → idbGetAll (import_store st0 (Some l)) = l.
Proof.
  intros [Hs Hn]%ascending_keys_entries.
  unfold import_store, idbClear, idbGetAll. cbn [nullish].
  rewrite foldl_idbPut, (right_id_L ∅ (∪)).
  rewrite (sorted_entries_unique _ ((λ r, (key_of r, r)) <$> l)).
  - rewrite <- list_fmap_compose. by apply list_fmap_id.
  - done.
  - rewrite map_to_list_to_map.
    + by rewrite reverse_Permutation.
    + by rewrite fmap_reverse, reverse_Permutation, <- list_fmap_compose.
Qed.
End import_facts.

(** X20.  Importing a dump and exporting again gives the dump back, when
    every collection of the dump is present and in the strict order of its
    keys (as every dump written by [exportAll] is): the ten collections
    of the export are those of the dump, whatever the store held before
    the import. *)
Theorem X20_import_then_export (d : Dump) (db0 : DB) (st : AppState) (ck : Clock) :
  sorted_dump d →
  exportAll (importAll d db0 st).1 ck
  = {| d_accounts := d_accounts d; d_transactions := d_transactions d;
       d_categories := d_categories d; d_instruments := d_instruments d;
       d_positions := d_positions d; d_debts := d_debts d;
       d_trades := d_trades d; d_goals := d_goals d;
       d_snapshots := d_snapshots d; d_meta := d_meta d;
       d_exportedAt := now ck; d_version := DB_VERSION |}.
Proof.
  intros (H1 & H2 & H3 & H4 & H5 & H6 & H7 & H8 & H9 & H10).
  unfold exportAll, importAll. cbn [fst accounts transactions categories
    instruments positions debts trades goals snapshots meta].
  destruct d as [a t c i p ds tr g s m ? ?].
  cbn [d_accounts d_transactions d_categories d_instruments d_positions
       d_debts d_trades d_goals d_snapshots d_meta] in *.
  destruct a as [a|], t as [t|], c as [c|], i as [i|], p as [p|],
    ds as [ds|], tr as [tr|], g as [g|], s as [s|], m as [m|]; try done.
  cbn [sorted_collection] in *.
  by rewrite !idbGetAll_import_store by done.
Qed.

Lemma X20_witness :
  exportAll
    (importAll (exportAll Sample.db Sample.clock) Sample.empty_db initial_state).1
    Sample.clock
  = exportAll Sample.db Sample.clock.
Proof.
  refine (eq_trans
    (X20_import_then_export (exportAll Sample.db Sample.clock) Sample.empty_db
       initial_state Sample.clock _) _).
  - unfold sorted_dump, sorted_collection, ascending_keys.
    repeat split; apply (bool_decide_unpack _); by vm_compute.
  - done.
Defined.

Lemma seedIfNeeded_meta_other (db : DB) (uid : nat → string) (k : string) :
  k ≠ "seeded"%string →
  idbGet (meta (seedIfNeeded db uid)) k = idbGet (meta db) k.
Proof.
  intros Hk. unfold seedIfNeeded.
  destruct (from_option _ false _); [done|].
  rewrite seed_categories.
  unfold idbSetMeta, idbGet, idbPut, key_of, Meta_keyed.
  cbn [meta set_meta set_accounts set_categories meta_key].
  by rewrite lookup_insert_ne.
Qed.

(** X21.  The base currency survives a restart: once [ensureCurrency] has
    stored a currency that is not empty, the start of the application
    ([seedIfNeeded], then [loadCurrency] on the state of the source text)
    ends with that currency in the state, the other settings being those of
    the source text; seeding does not disturb it. *)
Theorem X21_base_currency_survives_restart (db : DB) (st : AppState)
    (uid : nat → string) :
  meta_truthy (currency st) = true →
  (init (ensureCurrency db st) uid).2
  = {| tab := "dashboard"; currency := currency st; horizonDays := 30;
       includeConfidenceMin := numZ 60 |}.
Proof.
  intros Hcur. unfold init. cbn [snd].
  unfold loadCurrency. rewrite seedIfNeeded_meta_other by done.
  unfold ensureCurrency, idbSetMeta, idbGet, idbPut, key_of, Meta_keyed.
  cbn [meta set_meta meta_key]. rewrite lookup_insert_eq. cbn [meta_val].
  by rewrite Hcur.
Qed.

Lemma X21_witness :
  currency
    (init (ensureCurrency Sample.db
             (set_includeConfidenceMin initial_state (numZ 80))) (λ _, "u")).2
  = MString "EUR".
Proof.
  by rewrite (X21_base_currency_survives_restart Sample.db
                (set_includeConfidenceMin initial_state (numZ 80)) (λ _, "u")
                eq_refl).
Defined.

(** ** The cards of [viewGoals] *)

Lemma goal_current_known (g : Goal) (b : BalanceReport) (m : MonthlyPnl) :
  goal_type g ∈ Spec.goal_types →
  ∀ target, goal_targetValue g = Some target →
    goalProgress g b m
    = Some (if num_truthy target
            then num_mul (num_div (goal_current g b m) target) (numZ 100)
            else numZ 0).
Proof.
  intros Hty target Ht. unfold goalProgress, goal_current. rewrite Ht.
  unfold Spec.goal_types in Hty.
  repeat (apply elem_of_cons in Hty as [->|Hty]; [done|]).
  by apply elem_of_nil in Hty.
Qed.

(** X22.  On a card of [viewGoals] the percentage of the line of progress
    and the one of the bar are the same for a goal of a known type with a
    target that is neither 0 nor NaN.  With a target of 0 (or none) they
    part: the progress is 0 ([goalProgress] guards the division), while the
    bar divides by the zero target: a positive current value gives a bar of
    999, a full width and the tag of a goal that is reached (or of a cap
    that is exceeded), and a current value of 0 gives NaN for the bar and
    for its width. *)
Theorem X22_goal_card_progress_and_bar (g : Goal) (b : BalanceReport)
    (m : MonthlyPnl) :
  goal_type g ∈ Spec.goal_types →
  let c := goal_card g b m in
  (∀ target, goal_targetValue g = Some target → num_truthy target = true →
     card_barPct c = card_pct c)
  ∧ (or0 (goal_targetValue g) = Fin 0%Qc →
     card_pct c = numZ 0
     ∧ (num_lt (Fin 0%Qc) (goal_current g b m) = true →
        card_barPct c = numZ 999 ∧ card_width c = numZ 100
        ∧ card_tag c = if String.eqb (goal_type g) "monthlyExpenseCap"
                       then tag_exceeded else tag_done)
     ∧ (goal_current g b m = Fin 0%Qc →
        card_barPct c = NaN ∧ card_width c = NaN)).
Proof.
  intros Hty c. split.
  - intros target Ht Htruthy. unfold c, goal_card. cbn [card_barPct card_pct].
    rewrite (goal_current_known g b m Hty target Ht), Htruthy. cbn [nullish].
    rewrite Ht. unfold or0. rewrite Htruthy.
    by destruct (String.eqb (goal_type g) "monthlyExpenseCap").
  - intros Hzero. unfold c, goal_card.
    cbn [card_barPct card_pct card_width card_tag]. rewrite Hzero.
    split; [|split].
    + destruct (goal_targetValue g) as [target|] eqn:Ht.
      * rewrite (goal_current_known g b m Hty target Ht). cbn [nullish].
        unfold or0 in Hzero. destruct (num_truthy target) eqn:Htr.
        -- subst target. by vm_compute in Htr.
        -- num_eval.
      * unfold goalProgress. rewrite Ht. num_eval.
    + intros Hpos. destruct (goal_current g b m) as [q| | |]; try done.
      * unfold num_lt in Hpos. apply bool_decide_eq_true in Hpos.
        assert (Hdiv : num_div (Fin q) (Fin 0%Qc) = PInf).
        { unfold num_div, qc_pos. rewrite bool_decide_eq_true_2 by done.
          by rewrite bool_decide_eq_true_2. }
        rewrite Hdiv.
        by destruct (String.eqb (goal_type g) "monthlyExpenseCap"); vm_compute.
      * by destruct (String.eqb (goal_type g) "monthlyExpenseCap"); vm_compute.
    + intros ->.
      by destruct (String.eqb (goal_type g) "monthlyExpenseCap"); vm_compute.
Qed.

Lemma X22_witness :
  let c := goal_card (Sample.goal "g" "actualCash" (Some (numZ 0)) "active" None)
             (computeBalances (H := sample_host) Sample.db initial_state Sample.clock)
             (computeMonthlyPnl Sample.db Sample.clock) in
  card_pct c = numZ 0 ∧ card_barPct c = numZ 999 ∧ card_tag c = tag_done.
Proof.
  cbv zeta.
  destruct (X22_goal_card_progress_and_bar
              (Sample.goal "g" "actualCash" (Some (numZ 0)) "active" None)
              (computeBalances (H := sample_host) Sample.db initial_state Sample.clock)
              (computeMonthlyPnl Sample.db Sample.clock)) as [_ Hz].
  - cbn. set_solver.
  - destruct Hz as (Hpct & Hpos & _); [num_eval|].
    destruct Hpos as (Hbar & _ & Htag); [by vm_compute|].
    split; [exact Hpct|]. split; [exact Hbar|exact Htag].
Defined.

(** ** [parseDateLoose] *)

Lemma digit_not_date_sep (c : ascii) : is_digit c = true → is_date_sep c = false.
Proof.
  destruct c as [[] [] [] [] [] [] [] []]; by vm_compute.
Qed.

Lemma span_digits_app (ds rest : string) :
  str_forallb is_digit ds = true →
  (span_digits (ds +:+ rest)).1 = ds +:+ (span_digits rest).1.
Proof.
  induction ds as [|c ds IH]; [done|]. cbn [str_forallb].
  intros [Hc Hds]%andb_true_iff. rewrite !str_app_cons. cbn [span_digits].
  rewrite Hc. specialize (IH Hds).
  destruct (span_digits (ds +:+ rest)) as [p r]. cbn [fst] in *. by rewrite IH.
Qed.

Lemma str_take_app (a b : string) : str_take (String.length a) (a +:+ b) = a.
Proof.
  induction a as [|c a IH]; [by destruct b|].
  rewrite str_app_cons. cbn [String.length str_take]. by rewrite IH.
Qed.

Lemma match_two_digits_app (p r : string) (sep : ascii) :
  str_forallb is_digit p = true →
  (1 ≤ String.length p ≤ 2)%nat → is_date_sep sep = true →
  match_two_digits (p +:+ String sep r) = Some (p, r).
Proof.
  intros Hp Hlen Hsep.
  destruct p as [|a [|b [|c p]]]; cbn [String.length] in Hlen; try lia.
  - cbn [str_forallb] in Hp. rewrite andb_true_r in Hp.
    rewrite str_app_cons, str_app_nil. cbn [match_two_digits].
    by rewrite Hp, Hsep.
  - cbn [str_forallb] in Hp. rewrite andb_true_r in Hp.
    apply andb_true_iff in Hp as [Ha Hb].
    rewrite !str_app_cons, str_app_nil. cbn [match_two_digits].
    by rewrite Ha, (digit_not_date_sep b Hb), Hb, Hsep.
Qed.

Lemma match_year_four (y rest : string) :
  str_forallb is_digit y = true → String.length y = 4%nat →
  match_year (y +:+ rest) = Some y.
Proof.
  intros Hy Hlen. unfold match_year. rewrite span_digits_app by done.
  assert (Ht : str_take 4 (y +:+ (span_digits rest).1) = y)
    by (rewrite <- Hlen; apply str_take_app).
  by rewrite Ht, Hlen.
Qed.

Lemma match_year_two (y rest : string) :
  str_forallb is_digit y = true → String.length y = 2%nat →
  match rest with String c _ => is_digit c = false | EmptyString => True end →
  match_year (y +:+ rest) = Some y.
Proof.
  intros Hy Hlen Hrest. unfold match_year. rewrite span_digits_app by done.
  assert (Hnone : (span_digits rest).1 = ""%string).
  { destruct rest as [|c rest]; [done|]. cbn [span_digits]. by rewrite Hrest. }
  rewrite Hnone, str_app_empty_r.
  destruct y as [|a [|b [|c y]]]; try done.
Qed.

Lemma short_numbers_text (z : Z) :
  0 <= z <= 99 →
  str_forallb is_digit (pretty z) = true
  ∧ (1 ≤ String.length (pretty z) ≤ 2)%nat
  ∧ digits_value (pretty z) = z
  ∧ str_forallb is_digit (fixed_digits 2 z) = true
  ∧ digits_value (fixed_digits 2 z) = z.
Proof.
  intros Hz.
  assert (Hall : forallb (λ z,
            str_forallb is_digit (pretty z)
            && (1 <=? String.length (pretty z))%nat
            && (String.length (pretty z) <=? 2)%nat
            && (digits_value (pretty z) =? z)
            && str_forallb is_digit (fixed_digits 2 z)
            && (digits_value (fixed_digits 2 z) =? z)) (seqZ 0 100) = true)
    by (vm_compute; reflexivity).
  rewrite forallb_forall in Hall. specialize (Hall z).
  rewrite <- list_elem_of_In, elem_of_seqZ in Hall. specialize (Hall ltac:(lia)).
  rewrite !andb_true_iff in Hall.
  destruct Hall as (((((H1 & H2) & H3) & H4) & H5) & H6).
  apply Nat.leb_le in H2, H3. apply Z.eqb_eq in H4, H6. done.
Qed.

Lemma year_text (y : Z) :
  1000 <= y <= 9999 →
  str_forallb is_digit (pretty y) = true ∧ String.length (pretty y) = 4%nat
  ∧ digits_value (pretty y) = y.
Proof.
  intros Hy.
  assert (Hall : forallb (λ z,
            str_forallb is_digit (pretty z)
            && (String.length (pretty z) =? 4)%nat
            && (digits_value (pretty z) =? z)) (seqZ 1000 9000) = true)
    by (vm_compute; reflexivity).
  rewrite forallb_forall in Hall. specialize (Hall y).
  rewrite <- list_elem_of_In, elem_of_seqZ in Hall. specialize (Hall ltac:(lia)).
  rewrite !andb_true_iff in Hall. destruct Hall as ((H1 & H2) & H3).
  apply Nat.eqb_eq in H2. apply Z.eqb_eq in H3. done.
Qed.

Lemma toISODate_not_empty (y m d : Z) : String.eqb (toISODate y m d) "" = false.
Proof.
  apply String.eqb_neq. intros Heq. apply (f_equal String.length) in Heq.
  unfold toISODate in Heq. rewrite !str_length_app in Heq. simpl in Heq. lia.
Qed.

Lemma str_take_all (n : nat) (s : string) :
  (String.length s ≤ n)%nat → str_take n s = s.
Proof.
  revert n. induction s as [|c s IH]; intros n Hn; [by destruct n|].
  destruct n as [|n]; cbn [String.length] in Hn; [lia|].
  cbn [str_take]. rewrite IH; [done|lia].
Qed.

Lemma match_year_app (y rest : string) :
  str_forallb is_digit y = true → (2 ≤ String.length y ≤ 4)%nat →
  String.length y = 4%nat
  ∨ match rest with String c _ => is_digit c = false | EmptyString => True end →
  match_year (y +:+ rest) = Some y.
Proof.
  intros Hy Hlen [H4|Hrest].
  - by apply match_year_four.
  - unfold match_year. rewrite span_digits_app by done.
    assert (Hnone : (span_digits rest).1 = ""%string).
    { destruct rest as [|c rest]; [done|]. cbn [span_digits]. by rewrite Hrest. }
    rewrite Hnone, str_app_empty_r, str_take_all by lia.
    by rewrite (proj2 (Nat.leb_le _ _)) by lia.
Qed.

Lemma js_trim_app_not_empty (s p t : string) :
  js_trim s = p +:+ t → (1 ≤ String.length p)%nat → String.eqb s "" = false.
Proof.
  intros Ht Hp. apply String.eqb_neq. intros ->.
  apply (f_equal String.length) in Ht. rewrite str_length_app in Ht.
  cbn in Ht. lia.
Qed.



(** ** The loop of the CSV import *)

Lemma idbGetAll_elem {R} `{Keyed R} (m : gmap string R) (r : R) :
  r ∈ idbGetAll m ↔ ∃ k, m !! k = Some r.
Proof.
  unfold idbGetAll. rewrite list_elem_of_fmap. split.
  - intros ([k r'] & -> & Hin). rewrite merge_sort_Permutation in Hin.
    exists k. by apply elem_of_map_to_list.
  - intros [k Hk]. exists (k, r). split; [done|].
    rewrite merge_sort_Permutation. by apply elem_of_map_to_list.
Qed.

Lemma existingHashes_spec (db : DB) (h : string) :
  h ∈ existingHashes db
  ↔ h ≠ ""%string ∧ ∃ k t, transactions db !! k = Some t ∧ tx_hash t = h.
Proof.
  unfold existingHashes.
  rewrite elem_of_list_to_set, list_elem_of_filter, list_elem_of_fmap.
  rewrite negb_true_iff, String.eqb_neq. split.
  - intros [Hne (t & -> & [k Hk]%(idbGetAll_elem (H := Transaction_keyed)))].
    split; [done|]. by exists k, t.
  - intros [Hne (k & t & Hk & <-)]. split; [done|]. exists t. split; [done|].
    apply (idbGetAll_elem (H := Transaction_keyed)). by exists k.
Qed.

Section csv_import_facts.
Context `{LocalDate} `{ImportHost}.
Variables (f : ImportForm) (st : AppState).

Lemma import_row_cases (uid : nat → string) (s : ImportState) (row : string) :
  match row_hash f row with
  | None =>
      imp_db (import_row f st uid s row) = imp_db s
      ∧ imp_hashes (import_row f st uid s row) = imp_hashes s
      ∧ imp_uids (import_row f st uid s row) = imp_uids s
      ∧ imp_added (import_row f st uid s row) = imp_added s
      ∧ imp_skipped (import_row f st uid s row) = imp_skipped s
      ∧ imp_bad (import_row f st uid s row) = S (imp_bad s)
  | Some h =>
      if bool_decide (h ∈ imp_hashes s) then
        imp_db (import_row f st uid s row) = imp_db s
        ∧ imp_hashes (import_row f st uid s row) = imp_hashes s
        ∧ imp_uids (import_row f st uid s row) = imp_uids s
        ∧ imp_added (import_row f st uid s row) = imp_added s
        ∧ imp_skipped (import_row f st uid s row) = S (imp_skipped s)
        ∧ imp_bad (import_row f st uid s row) = imp_bad s
      else
        (∃ t, tx_id t = uid (imp_uids s) ∧ tx_hash t = h
              ∧ imp_db (import_row f st uid s row)
                = set_transactions (imp_db s)
                    (<[uid (imp_uids s) := t]> (transactions (imp_db s))))
        ∧ imp_hashes (import_row f st uid s row) = {[ h ]} ∪ imp_hashes s
        ∧ imp_uids (import_row f st uid s row) = S (imp_uids s)
        ∧ imp_added (import_row f st uid s row) = S (imp_added s)
        ∧ imp_skipped (import_row f st uid s row) = imp_skipped s
        ∧ imp_bad (import_row f st uid s row) = imp_bad s
  end.
Proof.
  unfold row_hash, import_row.
  destruct (negb _ || _); [done|].
  case_bool_decide; [done|].
  split; [|done]. eexists. split; [|split]; [| |reflexivity]; done.
Qed.

(** The counters and the stores that the loop leaves alone. *)
Lemma csv_import_counters (uid : nat → string) (s0 : ImportState)
    (rows : list string) :
  let s := foldl (import_row f st uid) s0 rows in
  (imp_added s + imp_skipped s + imp_bad s
   = imp_added s0 + imp_skipped s0 + imp_bad s0 + length rows)%nat
  ∧ imp_bad s
    = (imp_bad s0 + length (filter (λ r, row_hash f r = None) rows))%nat
  ∧ (imp_uids s + imp_added s0 = imp_uids s0 + imp_added s)%nat
  ∧ accounts (imp_db s) = accounts (imp_db s0)
  ∧ debts (imp_db s) = debts (imp_db s0)
  ∧ (size (transactions (imp_db s)) + imp_added s0
     ≤ size (transactions (imp_db s0)) + imp_added s)%nat.
Proof.
  revert s0. induction rows as [|row rows IH]; intros s0.
  - cbn. repeat split; lia.
  - cbn [foldl]. specialize (IH (import_row f st uid s0 row)). cbv zeta in *.
    destruct IH as (IH1 & IH2 & IH3 & IH4 & IH5 & IH6).
    pose proof (import_row_cases uid s0 row) as Hc.
    rewrite filter_cons. cbn [length].
    destruct (row_hash f row) as [h|] eqn:Hh.
    + rewrite decide_False by done.
      destruct (bool_decide (h ∈ imp_hashes s0)).
      * destruct Hc as (E1 & E2 & E3 & E4 & E5 & E6).
        rewrite E1, E3, E4, E5, E6 in *. repeat split; try done; lia.
      * destruct Hc as ((t & _ & _ & E1) & E2 & E3 & E4 & E5 & E6).
        rewrite E1, E3, E4, E5, E6 in *.
        cbn [accounts debts transactions set_transactions] in *.
        repeat split; try done; try lia.
        pose proof (map_size_insert (uid (imp_uids s0)) t (transactions (imp_db s0))) as Hs.
        destruct (transactions (imp_db s0) !! uid (imp_uids s0));
          unfold id in Hs; lia.
    + rewrite decide_True by done. destruct Hc as (E1 & E2 & E3 & E4 & E5 & E6).
      rewrite E1, E3, E4, E5, E6 in *. cbn [length].
      repeat split; try done; lia.
Qed.

(** Every row that is not bad has its digest in the set at the end. *)
Lemma csv_import_hashes (uid : nat → string) (s0 : ImportState)
    (rows : list string) :
  imp_hashes s0 ⊆ imp_hashes (foldl (import_row f st uid) s0 rows)
  ∧ ∀ row h, row ∈ rows → row_hash f row = Some h →
      h ∈ imp_hashes (foldl (import_row f st uid) s0 rows).
Proof.
  revert s0. induction rows as [|row rows IH]; intros s0.
  - split; [done|]. intros row h Hin. by apply elem_of_nil in Hin.
  - cbn [foldl]. destruct (IH (import_row f st uid s0 row)) as [IH1 IH2].
    pose proof (import_row_cases uid s0 row) as Hc.
    assert (Hsub : imp_hashes s0 ⊆ imp_hashes (import_row f st uid s0 row)
                   ∧ ∀ h, row_hash f row = Some h →
                       h ∈ imp_hashes (import_row f st uid s0 row)).
    { destruct (row_hash f row) as [h|].
      - case_bool_decide.
        + destruct Hc as (_ & E & _). rewrite E. split; [done|].
          intros h' Heq. by simplify_eq.
        + destruct Hc as (_ & E & _). rewrite E. split; [apply union_subseteq_r|].
          intros h' Heq. simplify_eq. by apply elem_of_union_l, elem_of_singleton.
      - destruct Hc as (_ & E & _). rewrite E. by split. }
    destruct Hsub as [Hsub Hrow]. split; [by etrans|].
    intros r h [->|Hin]%elem_of_cons Hh.
    + apply IH1. by apply Hrow.
    + by apply (IH2 r).
Qed.

(** When the digest of every row is in the set already, nothing is
    added. *)
Lemma csv_import_all_known (uid : nat → string) (s0 : ImportState)
    (rows : list string) :
  (∀ row h, row ∈ rows → row_hash f row = Some h → h ∈ imp_hashes s0) →
  let s := foldl (import_row f st uid) s0 rows in
  imp_db s = imp_db s0 ∧ imp_hashes s = imp_hashes s0
  ∧ imp_added s = imp_added s0.
Proof.
  revert s0. induction rows as [|row rows IH]; intros s0 Hknown; [done|].
  cbn [foldl]. cbv zeta.
  pose proof (import_row_cases uid s0 row) as Hc.
  assert (Hstep : imp_db (import_row f st uid s0 row) = imp_db s0
                  ∧ imp_hashes (import_row f st uid s0 row) = imp_hashes s0
                  ∧ imp_added (import_row f st uid s0 row) = imp_added s0).
  { destruct (row_hash f row) as [h|] eqn:Hh.
    - rewrite bool_decide_eq_true_2 in Hc by (apply (Hknown row); [by left|done]).
      by destruct Hc as (-> & -> & _ & -> & _).
    - by destruct Hc as (-> & -> & _ & -> & _). }
  destruct Hstep as (E1 & E2 & E3).
  destruct (IH (import_row f st uid s0 row)) as (IH1 & IH2 & IH3).
  { intros r h Hr Hh. rewrite E2. apply (Hknown r); [by right|done]. }
  by rewrite IH1, IH2, IH3.
Qed.

Lemma csv_import_stored (uid : nat → string) (db0 : DB) (s0 : ImportState)
    (rows : list string) :
  (∀ n, transactions db0 !! uid n = None) → (∀ i j, uid i = uid j → i = j) →
  hashes_stored s0 → keys_known db0 uid s0 →
  hashes_stored (foldl (import_row f st uid) s0 rows)
  ∧ keys_known db0 uid (foldl (import_row f st uid) s0 rows).
Proof.
  intros Hfresh Hinj. revert s0.
  induction rows as [|row rows IH]; intros s0 Hst Hk; [done|].
  cbn [foldl]. apply IH.
  - pose proof (import_row_cases uid s0 row) as Hc.
    destruct (row_hash f row) as [h|].
    + case_bool_decide.
      * destruct Hc as (E1 & E2 & _). unfold hashes_stored. by rewrite E1, E2.
      * destruct Hc as ((t & Hid & Hh & E1) & E2 & _).
        assert (Hnew : transactions (imp_db s0) !! uid (imp_uids s0) = None).
        { apply eq_None_not_Some. intros [Hold|(i & Hi & Heq)]%Hk.
          - rewrite Hfresh in Hold. by destruct Hold.
          - apply Hinj in Heq. lia. }
        unfold hashes_stored. rewrite E1, E2.
        cbn [transactions set_transactions].
        intros h' [->%elem_of_singleton|Hold]%elem_of_union Hne.
        -- exists (uid (imp_uids s0)), t. by rewrite lookup_insert_eq.
        -- destruct (Hst h' Hold Hne) as (k & t' & Hkt & Ht').
           exists k, t'. split; [|done]. rewrite lookup_insert_ne; [done|].
           intros <-. congruence.
    + destruct Hc as (E1 & E2 & _). unfold hashes_stored. by rewrite E1, E2.
  - pose proof (import_row_cases uid s0 row) as Hc.
    destruct (row_hash f row) as [h|].
    + case_bool_decide.
      * destruct Hc as (E1 & _ & E3 & _). unfold keys_known. by rewrite E1, E3.
      * destruct Hc as ((t & Hid & Hh & E1) & _ & E3 & _).
        unfold keys_known. rewrite E1, E3. cbn [transactions set_transactions].
        intros k Hsome.
        destruct (decide (k = uid (imp_uids s0))) as [->|Hne].
        -- right. exists (imp_uids s0). split; [lia|done].
        -- rewrite lookup_insert_ne in Hsome by done.
           destruct (Hk k Hsome) as [?|(i & Hi & ->)]; [by left|].
           right. exists i. split; [lia|done].
    + destruct Hc as (E1 & _ & E3 & _). unfold keys_known. by rewrite E1, E3.
Qed.


End csv_import_facts.

